(** * MiniDB: a shallow embedding of [PythonPatterns4/main.py]

    The development follows the Python source class by class.  Python
    objects that are mutated in place and shared between holders (Row
    objects, the row list of a Table, Table and Database objects) live in an
    explicit heap; every method is a computation in a state-and-exception
    monad over that heap, so that the state left behind by a raised exception
    can be observed. *)

From Stdlib Require Import ZArith QArith Lia Sorted Ascii String.
From stdpp Require Import gmap strings list fin_maps sorting.

Close Scope Q_scope.
Open Scope string_scope.
Open Scope Z_scope.

(** ** Python values *)

(** A [datetime.date] object; it always denotes a valid calendar day. *)
Record date := mkDate { year : Z; month : Z; day : Z }.

(** The values a cell can hold.  [bool] is a subclass of [int] in Python,
    which [isinstance] and the comparisons below observe.  A [str] is a
    sequence of one-byte code points, compared and measured as Python does.
    No cell holds a float in the model. *)
Inductive value :=
| VNone
| VBool (b : bool)
| VInt (n : Z)
| VStr (s : string)
| VDate (d : date).

#[global] Instance date_eq_dec : EqDecision date.
Proof. solve_decision. Defined.
#[global] Instance value_eq_dec : EqDecision value.
Proof. solve_decision. Defined.
#[global] Instance value_inhabited : Inhabited value := populate VNone.

(** The payload of the exceptions the program raises: the data its f-string
    messages are built from, or the missing key of a dict lookup. *)
Inductive error_msg :=
| InvalidValue (column_name : string) (v : value)
| RowNotFound (row_id : Z)
| MissingKey (key : string)
| TableExists (name : string)
| RefTableMissing (ref_table_name : string)
| RefColumnMissing (ref_column_name ref_table_name : string)
| FKNotPrimary
| UnknownType (col_type : string).

Inductive exn :=
| ValueError (m : error_msg)
| KeyError (m : error_msg)
| TypeError
| OverflowError
| ZeroDivisionError.

Inductive result (A : Type) :=
| Ok (a : A)
| Raise (e : exn).
Arguments Ok {A} a.
Arguments Raise {A} e.

Definition is_Ok {A} (r : result A) : bool :=
  match r with Ok _ => true | Raise _ => false end.

(** Pure exception monad, for code that reads but does not write. *)
Definition rbind {A B} (r : result A) (k : A -> result B) : result B :=
  match r with Ok a => k a | Raise e => Raise e end.

Notation "x <?- c ;; k" := (rbind c (fun x => k))
  (at level 100, c at next level, right associativity).

(** ** Native comparisons *)

(** An [int] or a [bool] seen as an integer. *)
Definition as_int (v : value) : option Z :=
  match v with
  | VBool b => Some (Z.b2z b)
  | VInt n => Some n
  | _ => None
  end.

Definition date_compare (d1 d2 : date) : comparison :=
  match year d1 ?= year d2 with
  | Eq => match month d1 ?= month d2 with
          | Eq => day d1 ?= day d2
          | c => c
          end
  | c => c
  end.

(** Three-way comparison of two values of one ordered kind; [None] when
    Python's ordering operators raise [TypeError] for the pair. *)
Definition py_compare (a b : value) : option comparison :=
  match a, b with
  | VStr s, VStr t => Some (String.compare s t)
  | VDate d, VDate e => Some (date_compare d e)
  | _, _ =>
      match as_int a, as_int b with
      | Some m, Some n => Some (m ?= n)
      | _, _ => None
      end
  end.

(** [a == b]: never raises; values of unrelated kinds are unequal. *)
Definition py_eq (a b : value) : bool :=
  match a, b with
  | VNone, VNone => true
  | _, _ => match py_compare a b with Some Eq => true | _ => false end
  end.

Definition py_ne (a b : value) : bool := negb (py_eq a b).

Definition py_order (test : comparison -> bool) (a b : value) : result bool :=
  match py_compare a b with
  | Some c => Ok (test c)
  | None => Raise TypeError
  end.

Definition py_lt : value -> value -> result bool :=
  py_order (fun c => match c with Lt => true | _ => false end).
Definition py_gt : value -> value -> result bool :=
  py_order (fun c => match c with Gt => true | _ => false end).
Definition py_le : value -> value -> result bool :=
  py_order (fun c => match c with Gt => false | _ => true end).
Definition py_ge : value -> value -> result bool :=
  py_order (fun c => match c with Lt => false | _ => true end).

(** ** True division of integers *)

(** The integer nearest to [a / b] for a positive [b], a tie going to the
    even one. *)
Definition round_half_even (a b : Z) : Z :=
  let q := a / b in
  match 2 * (a mod b) ?= b with
  | Lt => q
  | Gt => q + 1
  | Eq => if Z.even q then q else q + 1
  end.

(** [2 ^ l <= a / b], for positive [a] and [b]. *)
Definition quotient_reaches (a b l : Z) : bool :=
  if 0 <=? l then b * 2 ^ l <=? a else b <=? a * 2 ^ (- l).

(** The double nearest to [a / b], for positive [a] and [b], as [m * 2 ^ e]:
    [e] is the exponent of the last of the 53 bits of the quotient, and not
    below that of the smallest subnormal. *)
Definition float_parts (a b : Z) : Z * Z :=
  let l := Z.log2 a - Z.log2 b in
  let k := if quotient_reaches a b l then l else l - 1 in
  let e := Z.max (k - 52) (-1074) in
  let m := if 0 <=? e then round_half_even a (b * 2 ^ e)
           else round_half_even (a * 2 ^ (- e)) b in
  (m, e).

(** [a / b] on two [int]s.  The result is a float: the double nearest to the
    quotient, which is given here by its exact value as a reduced fraction
    (both zeros are [0]); the division raises when [b] is zero and when the
    nearest double would be beyond the largest one. *)
Definition true_divide (a b : Z) : result Q :=
  if b =? 0 then Raise ZeroDivisionError
  else if a =? 0 then Ok 0%Q
  else
    let (m, e) := float_parts (Z.abs a) (Z.abs b) in
    if (0 <=? e) && (2 ^ 1024 <=? m * 2 ^ e) then Raise OverflowError
    else
      let m' := if xorb (a <? 0) (b <? 0) then - m else m in
      Ok (Qred (if 0 <=? e then inject_Z (m' * 2 ^ e)
                else m' # Z.to_pos (2 ^ (- e)))).

(** The threshold of overflow: half way between the largest double and
    [2 ^ 1024]. *)
Definition float_overflow : Z := 2 ^ 1024 - 2 ^ 970.

(** ** Data types *)

Inductive DataType :=
| IntegerType
| StringType (max_length : option Z)
| BooleanType
| DateType.

Module IsoDate.

Definition digit (c : ascii) : option Z :=
  let n := Z.of_nat (nat_of_ascii c) in
  if (48 <=? n) && (n <=? 57) then Some (n - 48) else None.

Definition number2 (a b : ascii) : option Z :=
  match digit a, digit b with
  | Some x, Some y => Some (10 * x + y)
  | _, _ => None
  end.

Definition is_leap (y : Z) : bool :=
  ((y mod 4 =? 0) && negb (y mod 100 =? 0)) || (y mod 400 =? 0).

Definition days_in_month (y m : Z) : Z :=
  if m =? 2 then (if is_leap y then 29 else 28)
  else if (m =? 4) || (m =? 6) || (m =? 9) || (m =? 11) then 30
  else 31.

Definition valid_ymd (y m d : Z) : bool :=
  (1 <=? y) && (1 <=? m) && (m <=? 12) && (1 <=? d) && (d <=? days_in_month y m).

(** Modelled from the spec: [datetime.date.fromisoformat] is a library
    function outside the repository; the spec fixes the accepted shape as an
    ISO-8601 calendar date [YYYY-MM-DD].  [true] when parsing succeeds,
    [false] when it raises [ValueError]. *)
Definition fromisoformat_ok (s : string) : bool :=
  match list_ascii_of_string s with
  | [y1; y2; y3; y4; s1; m1; m2; s2; d1; d2] =>
      match number2 y1 y2, number2 y3 y4, number2 m1 m2, number2 d1 d2 with
      | Some yh, Some yl, Some m, Some d =>
          Ascii.eqb s1 "-" && Ascii.eqb s2 "-" && valid_ymd (100 * yh + yl) m d
      | _, _, _, _ => false
      end
  | _ => false
  end.

End IsoDate.

Module IntegerType.
Definition validate (v : value) : bool :=
  match v with VInt _ | VBool _ => true | _ => false end.
End IntegerType.

Module StringType.
Definition validate (max_length : option Z) (v : value) : bool :=
  match v with
  | VStr s =>
      match max_length with
      | Some n => if Z.of_nat (String.length s) >? n then false else true
      | None => true
      end
  | _ => false
  end.
End StringType.

Module BooleanType.
Definition validate (v : value) : bool :=
  match v with VBool _ => true | _ => false end.
End BooleanType.

Module DateType.
Definition validate (v : value) : bool :=
  match v with
  | VDate _ => true
  | VStr s => IsoDate.fromisoformat_ok s
  | _ => false
  end.
End DateType.

(** Dynamic dispatch of [DataType.validate]. *)
Definition DataType_validate (t : DataType) (v : value) : bool :=
  match t with
  | IntegerType => IntegerType.validate v
  | StringType max_length => StringType.validate max_length v
  | BooleanType => BooleanType.validate v
  | DateType => DateType.validate v
  end.

(** ** Column and Row *)

Record Column := mkColumn {
  col_name : string;
  col_data_type : DataType;
  col_nullable : bool;
  col_primary_key : bool;
  col_foreign_key : option (string * string)
}.

Module Column.
Definition validate (self : Column) (v : value) : bool :=
  match v with
  | VNone => col_nullable self
  | _ => DataType_validate (col_data_type self) v
  end.
End Column.

Definition loc := nat.

(** A [dict] from column names to values.  Dict equality and every use the
    program makes of a row's dict are independent of insertion order. *)
Abbreviation fields := (gmap string value).

Record Row := mkRow {
  row_data : fields;
  row_id : option Z
}.

(** A dict whose iteration order the program observes (the schema of a
    Table): keys in insertion order, each at most once. *)
Definition odict (V : Type) := list (string * V).

Fixpoint odict_set {V} (d : odict V) (k : string) (v : V) : odict V :=
  match d with
  | [] => [(k, v)]
  | (k', v') :: d' =>
      if String.eqb k' k then (k', v) :: d' else (k', v') :: odict_set d' k v
  end.

Fixpoint odict_get {V} (d : odict V) (k : string) : option V :=
  match d with
  | [] => None
  | (k', v') :: d' => if String.eqb k' k then Some v' else odict_get d' k
  end.

Record Table := mkTable {
  tbl_name : string;
  tbl_columns : odict Column;
  tbl_rows : loc;
  tbl_next_id : Z
}.

Record Database := mkDatabase {
  db_name : string;
  db_tables : gmap string loc
}.

#[global] Instance Row_inhabited : Inhabited Row :=
  populate (mkRow ∅ None).
#[global] Instance Table_inhabited : Inhabited Table :=
  populate (mkTable "" [] 0%nat 1).
#[global] Instance Database_inhabited : Inhabited Database :=
  populate (mkDatabase "" ∅).

(** ** The heap *)

(** One address space per class of object; [Database_instance] is the class
    attribute [Database._instance]. *)
Record Heap := mkHeap {
  row_objs : gmap loc Row;
  list_objs : gmap loc (list loc);
  table_objs : gmap loc Table;
  db_objs : gmap loc Database;
  Database_instance : option loc
}.

Definition empty_heap : Heap := mkHeap ∅ ∅ ∅ ∅ None.

Definition row_at (h : Heap) (r : loc) : Row := row_objs h !!! r.
Definition list_at (h : Heap) (l : loc) : list loc := list_objs h !!! l.
Definition table_at (h : Heap) (t : loc) : Table := table_objs h !!! t.
Definition db_at (h : Heap) (d : loc) : Database := db_objs h !!! d.

Definition set_row (r : loc) (x : Row) (h : Heap) : Heap :=
  mkHeap (<[r := x]> (row_objs h)) (list_objs h) (table_objs h) (db_objs h)
    (Database_instance h).
Definition set_list (l : loc) (x : list loc) (h : Heap) : Heap :=
  mkHeap (row_objs h) (<[l := x]> (list_objs h)) (table_objs h) (db_objs h)
    (Database_instance h).
Definition set_table (t : loc) (x : Table) (h : Heap) : Heap :=
  mkHeap (row_objs h) (list_objs h) (<[t := x]> (table_objs h)) (db_objs h)
    (Database_instance h).
Definition set_db (d : loc) (x : Database) (h : Heap) : Heap :=
  mkHeap (row_objs h) (list_objs h) (table_objs h) (<[d := x]> (db_objs h))
    (Database_instance h).
Definition set_instance (i : option loc) (h : Heap) : Heap :=
  mkHeap (row_objs h) (list_objs h) (table_objs h) (db_objs h) i.

(** ** State and exception monad *)

Definition M (A : Type) : Type := Heap -> Heap * result A.

Definition ret {A} (a : A) : M A := fun h => (h, Ok a).
Definition raise {A} (e : exn) : M A := fun h => (h, Raise e).
Definition bind {A B} (c : M A) (k : A -> M B) : M B :=
  fun h =>
    match c h with
    | (h', Ok a) => k a h'
    | (h', Raise e) => (h', Raise e)
    end.
Definition get_heap : M Heap := fun h => (h, Ok h).
Definition modify_heap (f : Heap -> Heap) : M unit := fun h => (f h, Ok tt).
Definition lift {A} (r : result A) : M A := fun h => (h, r).

Notation "x <- c ;; k" := (bind c (fun x => k))
  (at level 100, c at next level, right associativity).
Notation "c ;;; k" := (bind c (fun _ => k))
  (at level 100, right associativity).

Definition new_row (x : Row) : M loc :=
  fun h => let r := fresh (dom (row_objs h)) in (set_row r x h, Ok r).
Definition new_list (x : list loc) : M loc :=
  fun h => let l := fresh (dom (list_objs h)) in (set_list l x h, Ok l).
Definition new_table (x : Table) : M loc :=
  fun h => let t := fresh (dom (table_objs h)) in (set_table t x h, Ok t).
Definition new_db (x : Database) : M loc :=
  fun h => let d := fresh (dom (db_objs h)) in (set_db d x h, Ok d).

(** ** Row methods *)

Module Row.

(** [Row(data)]: the dict is copied, the id is unset. *)
Definition init (data : fields) : M loc :=
  new_row (mkRow data None).

(** [row[key]]: a lookup in the row's dict, [KeyError] when the key is
    absent.  It reads the heap and leaves it as it is. *)
Definition getitem (h : Heap) (self : loc) (key : string) : result value :=
  match row_data (row_at h self) !! key with
  | Some v => Ok v
  | None => Raise (KeyError (MissingKey key))
  end.

(** [row.keys()] *)
Definition keys (h : Heap) (self : loc) : gset string :=
  dom (row_data (row_at h self)).

(** [row.items()] *)
Definition items (h : Heap) (self : loc) : list (string * value) :=
  map_to_list (row_data (row_at h self)).

(** [row[key] = value] *)
Definition setitem (self : loc) (key : string) (v : value) : M unit :=
  modify_heap (fun h =>
    let r := row_at h self in
    set_row self (mkRow (<[key := v]> (row_data r)) (row_id r)) h).

(** [row.id = i] *)
Definition set_id (self : loc) (i : option Z) : M unit :=
  modify_heap (fun h => set_row self (mkRow (row_data (row_at h self)) i) h).

(** [row.data.update(new_data)]: the keys of [new_data] win. *)
Definition data_update (self : loc) (new_data : fields) : M unit :=
  modify_heap (fun h =>
    let r := row_at h self in
    set_row self (mkRow (new_data ∪ row_data r) (row_id r)) h).

End Row.

(** ** Table *)

(** [list.remove(x)]: drops the first occurrence. *)
Fixpoint list_remove (x : loc) (l : list loc) : list loc :=
  match l with
  | [] => []
  | y :: l' => if decide (y = x) then l' else y :: list_remove x l'
  end.

Module Table.

(** [{c.name: c for c in columns}] *)
Definition columns_dict (columns : list Column) : odict Column :=
  foldl (fun d c => odict_set d (col_name c) c) [] columns.

Definition init (name : string) (columns : list Column) : M loc :=
  rows <- new_list [] ;;
  new_table (mkTable name (columns_dict columns) rows 1).

(** The loop of [_validate_row_data] over [self.columns.items()]; it reads
    nothing but the schema and the candidate dict. *)
Fixpoint check_columns (columns : odict Column) (row_data : fields) : result unit :=
  match columns with
  | [] => Ok tt
  | (column_name, column) :: rest =>
      let v := default VNone (row_data !! column_name) in
      if Column.validate column v then check_columns rest row_data
      else Raise (ValueError (InvalidValue column_name v))
  end.

Definition _validate_row_data (self : loc) (row_data : fields) : M unit :=
  h <- get_heap ;;
  lift (check_columns (tbl_columns (table_at h self)) row_data).

Definition insert (self : loc) (row_data : fields) : M loc :=
  _validate_row_data self row_data ;;;
  row <- Row.init row_data ;;
  h <- get_heap ;;
  Row.set_id row (Some (tbl_next_id (table_at h self))) ;;;
  modify_heap (fun h =>
    let t := table_at h self in
    set_table self
      (mkTable (tbl_name t) (tbl_columns t) (tbl_rows t) (tbl_next_id t + 1)) h) ;;;
  modify_heap (fun h =>
    let l := tbl_rows (table_at h self) in
    set_list l (list_at h l ++ [row]) h) ;;;
  ret row.

(** The scan of [get_by_id]: the first row whose id equals [row_id]. *)
Fixpoint scan_by_id (h : Heap) (rows : list loc) (row_id_ : Z) : option loc :=
  match rows with
  | [] => None
  | row :: rest =>
      if decide (row_id (row_at h row) = Some row_id_) then Some row
      else scan_by_id h rest row_id_
  end.

Definition get_by_id (self : loc) (row_id_ : Z) : M (option loc) :=
  h <- get_heap ;;
  ret (scan_by_id h (list_at h (tbl_rows (table_at h self))) row_id_).

Definition update (self : loc) (row_id_ : Z) (new_data : fields) : M loc :=
  found <- get_by_id self row_id_ ;;
  match found with
  | None => raise (KeyError (RowNotFound row_id_))
  | Some row =>
      h <- get_heap ;;
      let candidate := new_data ∪ row_data (row_at h row) in
      _validate_row_data self candidate ;;;
      Row.data_update row new_data ;;;
      ret row
  end.

Definition delete (self : loc) (row_id_ : Z) : M bool :=
  found <- get_by_id self row_id_ ;;
  match found with
  | None => ret false
  | Some row =>
      modify_heap (fun h =>
        let l := tbl_rows (table_at h self) in
        set_list l (list_remove row (list_at h l)) h) ;;;
      ret true
  end.

(** [list(self.rows)]: a new list object holding the same Row objects. *)
Definition select_all (self : loc) : M loc :=
  h <- get_heap ;;
  new_list (list_at h (tbl_rows (table_at h self))).

(** [iter(self.rows)]: the Row objects, in order. *)
Definition iter (h : Heap) (self : loc) : list loc :=
  list_at h (tbl_rows (table_at h self)).

End Table.

(** A caller's in-place mutation of a list object: whatever [append],
    [remove], [reverse], [sort], [clear] or item assignment leave in it. *)
Definition list_mutate (l : loc) (f : list loc -> list loc) : M unit :=
  modify_heap (fun h => set_list l (f (list_at h l)) h).

(** ** SimpleQuery *)

(** What a query or a join iterates over: a Table (through its
    [__iter__]) or any sequence of Row objects. *)
Inductive RowSource :=
| FromTable (t : loc)
| FromRows (rows : list loc).

Definition source_iter (h : Heap) (s : RowSource) : list loc :=
  match s with
  | FromTable t => Table.iter h t
  | FromRows rows => rows
  end.

Record SimpleQuery := mkQuery {
  q_table : RowSource;
  q_selected_columns : option (list string);
  q_filter_conditions : list (string * string * value);
  q_sort_column : option string;
  q_sort_ascending : bool
}.

(** The key [(v is None, v)] that [key_func] builds. *)
Definition sort_key : Type := bool * value.

Definition is_none (v : value) : bool :=
  match v with VNone => true | _ => false end.

(** [a < b] on two such tuples: the first position where the items are
    unequal decides, by [<] on the items there. *)
Definition key_lt (a b : sort_key) : result bool :=
  if negb (Bool.eqb (fst a) (fst b)) then Ok (negb (fst a) && fst b)
  else if negb (py_eq (snd a) (snd b)) then py_lt (snd a) (snd b)
  else Ok false.

(** [list.sort(key=...)] is a stable sort that compares keys with [<] only
    and lets an exception of the comparison escape.  Straight insertion,
    taking the elements from the back, is such a sort; on keys that [<]
    orders it returns what every stable sort returns. *)
Fixpoint sort_insert {A} (x : sort_key * A) (sorted : list (sort_key * A))
  : result (list (sort_key * A)) :=
  match sorted with
  | [] => Ok [x]
  | y :: rest =>
      b <?- key_lt (fst y) (fst x) ;;
      if b then (r <?- sort_insert x rest ;; Ok (y :: r))
      else Ok (x :: y :: rest)
  end.

Fixpoint stable_sort {A} (l : list (sort_key * A)) : result (list (sort_key * A)) :=
  match l with
  | [] => Ok []
  | x :: rest => s <?- stable_sort rest ;; sort_insert x s
  end.

(** [reverse=True] reverses the list before and after sorting, which keeps
    equal keys in their input order. *)
Definition list_sort {A} (reverse : bool) (l : list (sort_key * A))
  : result (list (sort_key * A)) :=
  if reverse then (s <?- stable_sort (rev l) ;; Ok (rev s))
  else stable_sort l.

Module SimpleQuery.

Definition init (table : RowSource) : SimpleQuery :=
  mkQuery table None [] None true.

Definition select (self : SimpleQuery) (columns : list string) : SimpleQuery :=
  mkQuery (q_table self) (Some columns) (q_filter_conditions self)
    (q_sort_column self) (q_sort_ascending self).

Definition where_ (self : SimpleQuery) (column operator : string) (v : value)
  : SimpleQuery :=
  mkQuery (q_table self) (q_selected_columns self)
    (q_filter_conditions self ++ [(column, operator, v)])
    (q_sort_column self) (q_sort_ascending self).

Definition order_by (self : SimpleQuery) (column : string) (ascending : bool)
  : SimpleQuery :=
  mkQuery (q_table self) (q_selected_columns self) (q_filter_conditions self)
    (Some column) ascending.

(** [a and b], with [b] evaluated only when [a] holds. *)
Definition and_then (a : bool) (b : result bool) : result bool :=
  if a then b else Ok false.

Definition not_ (r : result bool) : result bool :=
  b <?- r ;; Ok (negb b).

(** The [if]/[elif] chain of [_matches] for one clause: [true] when it
    reaches a [return False]. *)
Definition clause_rejects (operator : string) (row_value v : value) : result bool :=
  c <?- and_then (String.eqb operator "=") (Ok (py_ne row_value v)) ;;
  if c then Ok true else
  c <?- and_then (String.eqb operator ">") (not_ (py_gt row_value v)) ;;
  if c then Ok true else
  c <?- and_then (String.eqb operator "<") (not_ (py_lt row_value v)) ;;
  if c then Ok true else
  c <?- and_then (String.eqb operator ">=") (not_ (py_ge row_value v)) ;;
  if c then Ok true else
  c <?- and_then (String.eqb operator "<=") (not_ (py_le row_value v)) ;;
  if c then Ok true else
  c <?- and_then (String.eqb operator "!=") (Ok (negb (py_ne row_value v))) ;;
  if c then Ok true else Ok false.

Fixpoint matches_clauses (h : Heap) (conditions : list (string * string * value))
  (row : loc) : result bool :=
  match conditions with
  | [] => Ok true
  | (column, operator, v) :: rest =>
      row_value <?- Row.getitem h row column ;;
      rejected <?- clause_rejects operator row_value v ;;
      if rejected then Ok false else matches_clauses h rest row
  end.

Definition _matches (h : Heap) (self : SimpleQuery) (row : loc) : result bool :=
  matches_clauses h (q_filter_conditions self) row.

(** The first loop of [_filtered_rows]. *)
Fixpoint filter_rows (h : Heap) (self : SimpleQuery) (rows : list loc)
  : result (list loc) :=
  match rows with
  | [] => Ok []
  | row :: rest =>
      b <?- _matches h self row ;;
      filtered <?- filter_rows h self rest ;;
      Ok (if b then row :: filtered else filtered)
  end.

Definition key_func (h : Heap) (sort_column : string) (r : loc) : result sort_key :=
  v <?- Row.getitem h r sort_column ;;
  Ok (is_none v, v).

(** [sort] computes the key of every element, in order, before it compares
    any two. *)
Fixpoint decorate (h : Heap) (sort_column : string) (rows : list loc)
  : result (list (sort_key * loc)) :=
  match rows with
  | [] => Ok []
  | r :: rest =>
      k <?- key_func h sort_column r ;;
      ks <?- decorate h sort_column rest ;;
      Ok ((k, r) :: ks)
  end.

Definition _filtered_rows (h : Heap) (self : SimpleQuery) : result (list loc) :=
  filtered <?- filter_rows h self (source_iter h (q_table self)) ;;
  match q_sort_column self with
  | Some sort_column =>
      keyed <?- decorate h sort_column filtered ;;
      sorted <?- list_sort (negb (q_sort_ascending self)) keyed ;;
      Ok (map snd sorted)
  | None => Ok filtered
  end.

(** The dict comprehension of [execute]. *)
Definition project (h : Heap) (selected_columns : list string) (row : loc) : fields :=
  foldl (fun d col =>
           match row_data (row_at h row) !! col with
           | Some v => <[col := v]> d
           | None => d
           end) ∅ selected_columns.

Fixpoint project_rows (selected_columns : list string) (rows : list loc)
  : M (list loc) :=
  match rows with
  | [] => ret []
  | row :: rest =>
      h <- get_heap ;;
      r <- Row.init (project h selected_columns row) ;;
      rs <- project_rows selected_columns rest ;;
      ret (r :: rs)
  end.

Definition execute (self : SimpleQuery) : M (list loc) :=
  h <- get_heap ;;
  filtered_rows <- lift (_filtered_rows h self) ;;
  match q_selected_columns self with
  | Some (c :: cs) => project_rows (c :: cs) filtered_rows
  | _ => ret filtered_rows
  end.

Definition count (h : Heap) (self : SimpleQuery) : result Z :=
  rows <?- _filtered_rows h self ;;
  Ok (Z.of_nat (length rows)).

(** [total += value] with an [int] total. *)
Definition add_to (total : Z) (v : value) : result Z :=
  match as_int v with
  | Some n => Ok (total + n)
  | None => Raise TypeError
  end.

Fixpoint sum_loop (h : Heap) (column : string) (rows : list loc) (total : Z)
  : result Z :=
  match rows with
  | [] => Ok total
  | row :: rest =>
      v <?- Row.getitem h row column ;;
      total' <?- (if is_none v then Ok total else add_to total v) ;;
      sum_loop h column rest total'
  end.

Definition sum (h : Heap) (self : SimpleQuery) (column : string) : result Z :=
  rows <?- _filtered_rows h self ;;
  sum_loop h column rows 0.

Fixpoint collect_values (h : Heap) (column : string) (rows : list loc)
  (values : list value) : result (list value) :=
  match rows with
  | [] => Ok values
  | row :: rest =>
      v <?- Row.getitem h row column ;;
      collect_values h column rest (if is_none v then values else values ++ [v])
  end.

(** The builtin [sum(values)]. *)
Fixpoint builtin_sum (values : list value) (total : Z) : result Z :=
  match values with
  | [] => Ok total
  | v :: rest => total' <?- add_to total v ;; builtin_sum rest total'
  end.

(** The float that [avg] returns is given by its exact value: [0.0] is [0],
    and [sum(values) / len(values)] is the true division of two [int]s. *)
Definition avg (h : Heap) (self : SimpleQuery) (column : string) : result Q :=
  rows <?- _filtered_rows h self ;;
  values <?- collect_values h column rows [] ;;
  match values with
  | [] => Ok 0%Q
  | _ :: _ =>
      s <?- builtin_sum values 0 ;;
      true_divide s (Z.of_nat (length values))
  end.

End SimpleQuery.

(** ** JoinedTable *)

Record JoinedTable := mkJoined {
  j_left : loc;
  j_right : loc;
  j_left_column : string;
  j_right_column : string;
  j_name : string;
  j_rows : list loc
}.

Module JoinedTable.

(** [f"{table_name}.{k}"] *)
Definition prefixed (table_name k : string) : string :=
  table_name ++ "." ++ k.

(** [for k, v in items: data[f"{table_name}.{k}"] = v] *)
Definition add_prefixed (table_name : string) (items : list (string * value))
  (data : fields) : fields :=
  foldl (fun d kv => <[prefixed table_name (fst kv) := snd kv]> d) data items.

(** The dict built for one matching pair. *)
Definition pair_data (h : Heap) (left_name right_name : string) (l r : loc) : fields :=
  add_prefixed right_name (Row.items h r)
    (add_prefixed left_name (Row.items h l) ∅).

(** The inner loop, [for r in self.right], for one left row [l]; [acc] is
    [self.rows]. *)
Fixpoint inner_loop (left_name right_name left_column right_column : string)
  (l : loc) (right_rows : list loc) (acc : list loc) : M (list loc) :=
  match right_rows with
  | [] => ret acc
  | r :: rest =>
      h <- get_heap ;;
      lv <- lift (Row.getitem h l left_column) ;;
      rv <- lift (Row.getitem h r right_column) ;;
      acc' <- (if py_eq lv rv
               then (row <- Row.init (pair_data h left_name right_name l r) ;;
                     ret (acc ++ [row])%list)
               else ret acc) ;;
      inner_loop left_name right_name left_column right_column l rest acc'
  end.

Fixpoint outer_loop (self : JoinedTable) (left_rows : list loc) (acc : list loc)
  : M (list loc) :=
  match left_rows with
  | [] => ret acc
  | l :: rest =>
      h <- get_heap ;;
      acc' <- inner_loop (tbl_name (table_at h (j_left self)))
                (tbl_name (table_at h (j_right self)))
                (j_left_column self) (j_right_column self)
                l (Table.iter h (j_right self)) acc ;;
      outer_loop self rest acc'
  end.

(** [self.rows.clear()] followed by the nested loops; returns the new
    contents of [self.rows]. *)
Definition _build_rows (self : JoinedTable) : M (list loc) :=
  h <- get_heap ;;
  outer_loop self (Table.iter h (j_left self)) [].

Definition init (left right : loc) (left_column right_column : string)
  (name : option string) : M JoinedTable :=
  h <- get_heap ;;
  let name' :=
    match name with
    | Some (String c s) => String c s
    | _ => tbl_name (table_at h left) ++ "_join_" ++ tbl_name (table_at h right)
    end in
  let self := mkJoined left right left_column right_column name' [] in
  rows <- _build_rows self ;;
  ret (mkJoined left right left_column right_column name' rows).

Definition iter (self : JoinedTable) : list loc := j_rows self.

End JoinedTable.

(** ** Database *)

(** One entry of the declarative schema; an absent key is [None]. *)
Record ColumnDef := mkColumnDef {
  cd_name : string;
  cd_type : string;
  cd_nullable : option bool;
  cd_primary_key : option bool;
  cd_max_length : option Z;
  cd_foreign_key : option (string * string)
}.

Module Database.

(** [Database(name)]: [__new__] hands out the one instance, [__init__]
    fills it in on the first call only. *)
Definition construct (name : string) : M loc :=
  h <- get_heap ;;
  match Database_instance h with
  | Some self => ret self
  | None =>
      self <- new_db (mkDatabase name ∅) ;;
      modify_heap (set_instance (Some self)) ;;;
      ret self
  end.

(** The foreign-key check of one column. *)
Definition check_foreign_key (h : Heap) (tables : gmap string loc) (col : Column)
  : result unit :=
  match col_foreign_key col with
  | None => Ok tt
  | Some (ref_table_name, ref_column_name) =>
      match tables !! ref_table_name with
      | None => Raise (ValueError (RefTableMissing ref_table_name))
      | Some ref_table =>
          match odict_get (tbl_columns (table_at h ref_table)) ref_column_name with
          | None =>
              Raise (ValueError (RefColumnMissing ref_column_name ref_table_name))
          | Some c =>
              if negb (col_primary_key c) then Raise (ValueError FKNotPrimary)
              else Ok tt
          end
      end
  end.

Fixpoint check_foreign_keys (h : Heap) (tables : gmap string loc)
  (columns : list Column) : result unit :=
  match columns with
  | [] => Ok tt
  | col :: rest =>
      _ <?- check_foreign_key h tables col ;;
      check_foreign_keys h tables rest
  end.

Definition create_table (self : loc) (name : string) (columns : list Column)
  : M loc :=
  h <- get_heap ;;
  if decide (name ∈ dom (db_tables (db_at h self)))
  then raise (ValueError (TableExists name))
  else
    lift (check_foreign_keys h (db_tables (db_at h self)) columns) ;;;
    table <- Table.init name columns ;;
    modify_heap (fun h =>
      let d := db_at h self in
      set_db self (mkDatabase (db_name d) (<[name := table]> (db_tables d))) h) ;;;
    ret table.


Definition column_of_def (col_def : ColumnDef) : result Column :=
  dt <?- (if String.eqb (cd_type col_def) "int" then Ok IntegerType
          else if String.eqb (cd_type col_def) "string"
               then Ok (StringType (cd_max_length col_def))
          else if String.eqb (cd_type col_def) "bool" then Ok BooleanType
          else if String.eqb (cd_type col_def) "date" then Ok DateType
          else Raise (ValueError (UnknownType (cd_type col_def)))) ;;
  Ok (mkColumn (cd_name col_def) dt
        (default true (cd_nullable col_def))
        (default false (cd_primary_key col_def))
        (cd_foreign_key col_def)).

Fixpoint columns_of_defs (columns_def : list ColumnDef) : result (list Column) :=
  match columns_def with
  | [] => Ok []
  | col_def :: rest =>
      column <?- column_of_def col_def ;;
      columns <?- columns_of_defs rest ;;
      Ok (column :: columns)
  end.

Definition create_table_with_factory (self : loc) (name : string)
  (schema : list ColumnDef) : M loc :=
  columns <- lift (columns_of_defs schema) ;;
  create_table self name columns.

End Database.

(** ** The unit tests of the source, replayed *)

Definition users_schema : list ColumnDef :=
  [ mkColumnDef "id" "int" (Some false) (Some true) None None;
    mkColumnDef "name" "string" (Some false) None (Some 50) None ].

Definition orders_schema : list ColumnDef :=
  [ mkColumnDef "id" "int" (Some false) (Some true) None None;
    mkColumnDef "user_id" "int" (Some false) None None (Some ("users", "id"));
    mkColumnDef "amount" "int" (Some false) None None None ].

Definition numbers_schema : list ColumnDef :=
  [ mkColumnDef "id" "int" (Some false) (Some true) None None;
    mkColumnDef "value" "int" (Some false) None None None ].

Definition row2 (k1 : string) (v1 : value) (k2 : string) (v2 : value) : fields :=
  <[k2 := v2]> (<[k1 := v1]> ∅).

Definition test_simple_query : M (Z * Z * Z * Q) :=
  db <- Database.construct "testdb" ;;
  t <- Database.create_table_with_factory db "numbers" numbers_schema ;;
  Table.insert t (row2 "id" (VInt 1) "value" (VInt 10)) ;;;
  Table.insert t (row2 "id" (VInt 2) "value" (VInt 20)) ;;;
  Table.insert t (row2 "id" (VInt 3) "value" (VInt 30)) ;;;
  let q := SimpleQuery.where_ (SimpleQuery.init (FromTable t)) "value" ">" (VInt 10) in
  results <- SimpleQuery.execute q ;;
  h <- get_heap ;;
  c <- lift (SimpleQuery.count h q) ;;
  s <- lift (SimpleQuery.sum h q "value") ;;
  a <- lift (SimpleQuery.avg h q "value") ;;
  ret (Z.of_nat (length results), c, s, a).

Definition test_joined_table : M (Z * list (option value)) :=
  db <- Database.construct "testdb" ;;
  users <- Database.create_table_with_factory db "users" users_schema ;;
  Table.insert users (row2 "id" (VInt 1) "name" (VStr "Alice")) ;;;
  Table.insert users (row2 "id" (VInt 2) "name" (VStr "Bob")) ;;;
  orders <- Database.create_table_with_factory db "orders" orders_schema ;;
  Table.insert orders (<["amount" := VInt 50]> (row2 "id" (VInt 100) "user_id" (VInt 1))) ;;;
  Table.insert orders (<["amount" := VInt 70]> (row2 "id" (VInt 101) "user_id" (VInt 1))) ;;;
  Table.insert orders (<["amount" := VInt 30]> (row2 "id" (VInt 102) "user_id" (VInt 2))) ;;;
  joined <- JoinedTable.init users orders "id" "user_id" None ;;
  h <- get_heap ;;
  ret (Z.of_nat (length (JoinedTable.iter joined)),
       map (fun r => row_data (row_at h r) !! "users.name") (JoinedTable.iter joined)).

(** ** Callers of a Table *)

Inductive table_op :=
| Insert (row_data : fields)
| Update (i : Z) (new_data : fields)
| Delete (i : Z).

(** What a caller sees of one operation; [Inserted row i] carries the
    returned Row and its [id] attribute. *)
Inductive outcome :=
| Inserted (row : loc) (i : option Z)
| Updated (row : loc)
| Deleted (b : bool)
| Failed (e : exn).

(** One operation, with [try]/[except] around it. *)
Definition run_op (self : loc) (op : table_op) (h : Heap) : Heap * outcome :=
  match op with
  | Insert row_data =>
      match Table.insert self row_data h with
      | (h', Ok row) => (h', Inserted row (row_id (row_at h' row)))
      | (h', Raise e) => (h', Failed e)
      end
  | Update i new_data =>
      match Table.update self i new_data h with
      | (h', Ok row) => (h', Updated row)
      | (h', Raise e) => (h', Failed e)
      end
  | Delete i =>
      match Table.delete self i h with
      | (h', Ok b) => (h', Deleted b)
      | (h', Raise e) => (h', Failed e)
      end
  end.

Fixpoint run_ops (self : loc) (ops : list table_op) (h : Heap)
  : Heap * list outcome :=
  match ops with
  | [] => (h, [])
  | op :: rest =>
      let (h1, o) := run_op self op h in
      let (h2, os) := run_ops self rest h1 in
      (h2, o :: os)
  end.

(** The ids handed out by the successful inserts, in order. *)
Fixpoint assigned_ids (os : list outcome) : list (option Z) :=
  match os with
  | [] => []
  | Inserted _ i :: rest => i :: assigned_ids rest
  | _ :: rest => assigned_ids rest
  end.

(** An insert whose dict the schema accepts. *)
Definition valid_insert (columns : odict Column) (op : table_op) : bool :=
  match op with
  | Insert row_data => is_Ok (Table.check_columns columns row_data)
  | _ => false
  end.

(** The ids [n], [n+1], ..., [n+k-1]. *)
Definition consecutive_ids (n : Z) (k : nat) : list (option Z) :=
  map (fun j => Some (n + Z.of_nat j)) (seq 0 k).

(** No Row held by the Table carries an id the counter has yet to give. *)
Definition ids_below (h : Heap) (self : loc) : bool :=
  forallb (fun r => match row_id (row_at h r) with
                    | Some i => i <? tbl_next_id (table_at h self)
                    | None => true
                    end) (Table.iter h self).

(** The Rows a Table holds, as they read now. *)
Definition stored_rows (h : Heap) (self : loc) : list Row :=
  map (row_at h) (Table.iter h self).

(** ** Concrete states used as instances *)

Definition numbers_columns : list Column :=
  [ mkColumn "id" IntegerType false true None;
    mkColumn "value" IntegerType false false None ].

(** A heap holding one new Table, at address [0], with the schema above. *)
Definition numbers_heap : Heap :=
  fst (Table.init "numbers" numbers_columns empty_heap).

Definition numbers_table : loc := 0%nat.

Definition number_row (i v : Z) : fields := row2 "id" (VInt i) "value" (VInt v).

(** The same Table after the three inserts of the source's query test. *)
Definition numbers_heap3 : Heap :=
  fst (run_ops numbers_table
         [Insert (number_row 1 10); Insert (number_row 2 20); Insert (number_row 3 30)]
         numbers_heap).

(** Every schema entry named [x] is an Integer column. *)
Definition int_column (columns : odict Column) (x : string) : Prop :=
  ∀ c, (x, c) ∈ columns → col_data_type c = IntegerType.

(** ** Vocabulary for the statements about queries *)

(** The value a Row holds at a column, [VNone] standing in for an absent
    key. *)
Definition cell (h : Heap) (column : string) (r : loc) : value :=
  default VNone (row_data (row_at h r) !! column).

(** [==] on two sort keys (tuple equality). *)
Definition key_eq (a b : sort_key) : bool :=
  Bool.eqb (fst a) (fst b) && py_eq (snd a) (snd b).

(** Values that [<] can order pairwise once the nulls are set aside. *)
Definition orderable (vs : list value) : Prop :=
  ∀ a b, a ∈ vs → b ∈ vs → a = VNone ∨ b = VNone ∨ py_compare a b ≠ None.

(** Every row that stands after a null row is null: the non-null rows come
    first. *)
Definition nulls_last (h : Heap) (column : string) (rows : list loc) : Prop :=
  ∀ l1 r l2 r', rows = (l1 ++ r :: l2)%list → r' ∈ l2 →
                cell h column r = VNone → cell h column r' = VNone.

(** Every row that stands before a null row is null: the null rows come
    first. *)
Definition nulls_first (h : Heap) (column : string) (rows : list loc) : Prop :=
  ∀ l1 r l2 r', rows = (l1 ++ r :: l2)%list → r' ∈ l2 →
                cell h column r' = VNone → cell h column r = VNone.

(** The rows of [rows] whose value at [column] equals [v], in their order. *)
Definition rows_with (h : Heap) (column : string) (v : value) (rows : list loc)
  : list loc :=
  List.filter (fun r => py_eq (cell h column r) v) rows.

(** [==] identifies a boolean with the integer it stands for and nothing
    else: two values are [==] exactly when their canonical forms coincide. *)
Definition canon (v : value) : value :=
  match v with VBool b => VInt (Z.b2z b) | _ => v end.

(** [x] may stand before [y] as far as nulls go. *)
Definition null_le {A} (x y : sort_key * A) : Prop :=
  fst (fst x) = true → fst (fst y) = true.

(** A row paired with the key [key_func] gives it. *)
Definition keyed_row (h : Heap) (column : string) (r : loc) : sort_key * loc :=
  ((is_none (cell h column r), cell h column r), r).

(** The query of the source's aggregate test over any row source. *)
Definition value_above_10 (source : RowSource) : SimpleQuery :=
  SimpleQuery.where_ (SimpleQuery.init source) "value" ">" (VInt 10).

(** A Table of scores, one of them null, two of them tied. *)
Definition scores_columns : list Column :=
  [ mkColumn "name" (StringType None) false false None;
    mkColumn "score" IntegerType true false None ].

Definition score_row (name : string) (score : value) : fields :=
  row2 "name" (VStr name) "score" score.

Definition scores_table : loc := 0%nat.

Definition scores_heap : Heap :=
  fst (run_ops scores_table
         [Insert (score_row "a" VNone); Insert (score_row "b" (VInt 2));
          Insert (score_row "c" (VInt 1)); Insert (score_row "d" (VInt 2))]
         (fst (Table.init "scores" scores_columns empty_heap))).

Definition by_score (ascending : bool) : SimpleQuery :=
  SimpleQuery.order_by (SimpleQuery.init (FromTable scores_table)) "score" ascending.

(** The same Table holding one score, beyond the range of floats, and a
    null. *)
Definition huge_score_heap : Heap :=
  fst (run_ops scores_table
         [Insert (score_row "a" (VInt (10 ^ 400))); Insert (score_row "b" VNone)]
         (fst (Table.init "scores" scores_columns empty_heap))).

(** Every entry point of a query raises [e]. *)
Definition query_raises (h : Heap) (q : SimpleQuery) (e : exn) : Prop :=
  SimpleQuery._filtered_rows h q = Raise e ∧
  SimpleQuery.execute q h = (h, Raise e) ∧
  SimpleQuery.count h q = Raise e ∧
  ∀ column, SimpleQuery.sum h q column = Raise e ∧
            SimpleQuery.avg h q column = Raise e.

(** A cell that an aggregate can take in: null or a number. *)
Definition summable (h : Heap) (column : string) (r : loc) : Prop :=
  ∃ v, row_data (row_at h r) !! column = Some v ∧ (v = VNone ∨ is_Some (as_int v)).

(** A Table with a nullable column [b] that its first row leaves out. *)
Definition sparse_columns : list Column :=
  [ mkColumn "a" IntegerType false false None;
    mkColumn "b" IntegerType true false None ].

Definition sparse_table : loc := 0%nat.

Definition sparse_heap : Heap :=
  fst (run_ops sparse_table
         [Insert (<["a" := VInt 1]> ∅); Insert (row2 "a" (VInt 2) "b" (VInt 5))]
         (fst (Table.init "sparse" sparse_columns empty_heap))).

Definition a_is_2 : SimpleQuery :=
  SimpleQuery.where_ (SimpleQuery.init (FromTable sparse_table)) "a" "=" (VInt 2).

(** A Database, at address [0], with the [users] Table of the source's tests
    registered. *)
Definition users_columns : list Column :=
  [ mkColumn "id" IntegerType false true None;
    mkColumn "name" (StringType (Some 50)) false false None ].

Definition the_db : loc := 0%nat.

Definition users_db_heap : Heap :=
  fst ((db <- Database.construct "testdb" ;;
        Database.create_table db "users" users_columns) empty_heap).

(** A column [user_id] with a foreign key. *)
Definition fk_column (ref_table_name ref_column_name : string) : Column :=
  mkColumn "user_id" IntegerType false false (Some (ref_table_name, ref_column_name)).

(** ** Vocabulary for the statements about joins *)

(** [h'] is [h] with more Row objects: the lists, the Tables and the Rows
    of [h] read the same in [h']. *)
Definition extends (h h' : Heap) : Prop :=
  list_objs h' = list_objs h ∧ table_objs h' = table_objs h ∧
  ∀ r, r ∈ dom (row_objs h) → r ∈ dom (row_objs h') ∧ row_at h' r = row_at h r.

(** The pairs the inner loop matches for one left row, as the heap at the
    start of the join determines them. *)
Fixpoint inner_pairs (h : Heap) (left_column right_column : string) (l : loc)
  (right_rows : list loc) : result (list (loc * loc)) :=
  match right_rows with
  | [] => Ok []
  | r :: rest =>
      lv <?- Row.getitem h l left_column ;;
      rv <?- Row.getitem h r right_column ;;
      ps <?- inner_pairs h left_column right_column l rest ;;
      Ok (if py_eq lv rv then (l, r) :: ps else ps)
  end.

Fixpoint outer_pairs (h : Heap) (left_column right_column : string)
  (left_rows right_rows : list loc) : result (list (loc * loc)) :=
  match left_rows with
  | [] => Ok []
  | l :: rest =>
      ps <?- inner_pairs h left_column right_column l right_rows ;;
      qs <?- outer_pairs h left_column right_column rest right_rows ;;
      Ok (ps ++ qs)%list
  end.

(** The left/right pairs whose join columns compare equal, left-major. *)
Definition equal_pairs (h : Heap) (left_column right_column : string)
  (left_rows right_rows : list loc) : list (loc * loc) :=
  List.filter (fun p => py_eq (cell h left_column (fst p)) (cell h right_column (snd p)))
    (list_prod left_rows right_rows).

(** [row] is, in [h'], the Row the join builds from the pair [p] of Rows
    of [h]. *)
Definition joined_row (h h' : Heap) (left_name right_name : string)
  (row : loc) (p : loc * loc) : Prop :=
  row ∈ dom (row_objs h') ∧
  row_at h' row = mkRow (JoinedTable.pair_data h left_name right_name (fst p) (snd p)) None.

(** A table name without a dot. *)
Fixpoint no_dot (s : string) : bool :=
  match s with
  | EmptyString => true
  | String c s' => negb (Ascii.eqb c ".") && no_dot s'
  end.

(** The union of the two rows' fields, each under its table's prefix; where
    both sides give a name, the right one is kept. *)
Definition prefixed_union (left_name right_name : string) (ldata rdata : fields)
  : fields :=
  kmap (JoinedTable.prefixed right_name) rdata ∪ kmap (JoinedTable.prefixed left_name) ldata.

(** The Tables of the source's join test. *)
Definition orders_columns : list Column :=
  [ mkColumn "id" IntegerType false true None;
    mkColumn "user_id" IntegerType false false (Some ("users", "id"));
    mkColumn "amount" IntegerType false false None ].

Definition users_table : loc := 0%nat.
Definition orders_table : loc := 1%nat.

Definition order_row (i u a : Z) : fields :=
  <["amount" := VInt a]> (row2 "id" (VInt i) "user_id" (VInt u)).

Definition shop_heap : Heap :=
  fst ((db <- Database.construct "testdb" ;;
        users <- Database.create_table db "users" users_columns ;;
        Table.insert users (row2 "id" (VInt 1) "name" (VStr "Alice")) ;;;
        Table.insert users (row2 "id" (VInt 2) "name" (VStr "Bob")) ;;;
        orders <- Database.create_table db "orders" orders_columns ;;
        Table.insert orders (order_row 100 1 50) ;;;
        Table.insert orders (order_row 101 1 70) ;;;
        Table.insert orders (order_row 102 2 30)) empty_heap).

Definition users_orders : JoinedTable :=
  mkJoined users_table orders_table "id" "user_id" "users_join_orders" [].

(** A Table joined with itself. *)
Definition pairs_columns : list Column :=
  [ mkColumn "k" IntegerType false false None;
    mkColumn "v" IntegerType false false None ].

Definition pairs_table : loc := 0%nat.

Definition pairs_heap : Heap :=
  fst (run_ops pairs_table
         [Insert (row2 "k" (VInt 1) "v" (VInt 10)); Insert (row2 "k" (VInt 1) "v" (VInt 20))]
         (fst (Table.init "t" pairs_columns empty_heap))).

Definition self_join : JoinedTable :=
  mkJoined pairs_table pairs_table "k" "k" "t_join_t" [].

(** ** Vocabulary for the statements about a Table's state *)

(** Both Rows carry an id, the first a smaller one. *)
Definition id_lt (h : Heap) (r r' : loc) : Prop :=
  ∃ i j, row_id (row_at h r) = Some i ∧ row_id (row_at h r') = Some j ∧ i < j.

(** A stored Row as the Table's operations leave it: with an id the counter
    has passed and a dict the schema accepts. *)
Definition row_ok (h : Heap) (self : loc) (r : loc) : Prop :=
  ∃ i, row_id (row_at h r) = Some i ∧
       i < tbl_next_id (table_at h self) ∧
       Table.check_columns (tbl_columns (table_at h self)) (row_data (row_at h r)) = Ok tt.

(** The state of a Table that only its own operations have touched: ids
    strictly increasing along the row list, every Row as above. *)
Definition table_ok (h : Heap) (self : loc) : Prop :=
  StronglySorted (id_lt h) (Table.iter h self) ∧
  Forall (row_ok h self) (Table.iter h self).

(** ** Vocabulary for the statements about filters *)

(** The six operators [_matches] knows, as relations on integers. *)
Definition int_relation (operator : string) : option (Z → Z → bool) :=
  if String.eqb operator "=" then Some Z.eqb
  else if String.eqb operator ">" then Some Z.gtb
  else if String.eqb operator "<" then Some Z.ltb
  else if String.eqb operator ">=" then Some Z.geb
  else if String.eqb operator "<=" then Some Z.leb
  else if String.eqb operator "!=" then Some (fun m n => negb (Z.eqb m n))
  else None.

(** The four of them that order. *)
Definition ordering_operator (operator : string) : bool :=
  String.eqb operator ">" || String.eqb operator "<" ||
  String.eqb operator ">=" || String.eqb operator "<=".

(** The integer a Row holds at a column, [0] standing in where it holds
    none. *)
Definition int_cell (h : Heap) (column : string) (r : loc) : Z :=
  default 0 (as_int (cell h column r)).

(** The same query with nothing but one clause, over given rows. *)
Definition only_clause (q : SimpleQuery) (rows : list loc)
  (column operator : string) (v : value) : SimpleQuery :=
  mkQuery (FromRows rows) (q_selected_columns q) [(column, operator, v)]
    (q_sort_column q) (q_sort_ascending q).

(** The integers the Rows hold at a column, nulls left out. *)
Definition numbers_at (h : Heap) (column : string) (rows : list loc) : list Z :=
  omap (fun r => as_int (cell h column r)) rows.

Definition total (ns : list Z) : Z := foldr Z.add 0 ns.

(** [r] may stand before [r'] in ascending order: [r'] is null, or both hold
    numbers and [r]'s is not the larger. *)
Definition value_le (h : Heap) (column : string) (r r' : loc) : Prop :=
  cell h column r' = VNone ∨
  ∃ m n, as_int (cell h column r) = Some m ∧ as_int (cell h column r') = Some n ∧ m ≤ n.

(** The rank of the key of a null or a number: the number, nulls above all. *)
Definition key_rank (k : sort_key) : option Z :=
  if fst k then None else as_int (snd k).

Definition rank_ltb (a b : option Z) : bool :=
  match a, b with
  | Some m, Some n => m <? n
  | Some _, None => true
  | None, _ => false
  end.

(** The key of a null or of a number. *)
Definition numeric_key (k : sort_key) : Prop :=
  fst k = is_none (snd k) ∧ (snd k = VNone ∨ is_Some (as_int (snd k))).

(** [x] does not sort after [y]. *)
Definition key_le {A} (x y : sort_key * A) : Prop :=
  key_lt (fst y) (fst x) = Ok false.

(** [new] is, in [h'], a Row object that [h] did not have, without id,
    holding of the Row [r] of [h] the columns asked for. *)
Definition projected_row (h h' : Heap) (columns : list string) (new r : loc) : Prop :=
  new ∈ dom (row_objs h') ∧ (new ∉ dom (row_objs h)) ∧
  row_at h' new = mkRow (SimpleQuery.project h columns r) None.

(** ** Vocabulary for the statements about schemas *)

(** The type tags the factory knows. *)
Definition known_type (tag : string) : bool :=
  String.eqb tag "int" || String.eqb tag "string" ||
  String.eqb tag "bool" || String.eqb tag "date".

(** The data type a known tag stands for. *)
Definition type_of_tag (tag : string) (max_length : option Z) : DataType :=
  if String.eqb tag "int" then IntegerType
  else if String.eqb tag "string" then StringType max_length
  else if String.eqb tag "bool" then BooleanType
  else DateType.

(** The Column a descriptor with a known tag describes: absent [nullable]
    is true, absent [primary_key] is false, [max_length] counts for strings
    only. *)
Definition described_column (d : ColumnDef) : Column :=
  mkColumn (cd_name d) (type_of_tag (cd_type d) (cd_max_length d))
    (default true (cd_nullable d)) (default false (cd_primary_key d))
    (cd_foreign_key d).

(** * Verification *)

(** ** The tests pass on the model *)

Example test_simple_query_passes :
  snd (test_simple_query empty_heap) = Ok (2, 2, 50, 25%Q).
Proof. vm_compute. reflexivity. Qed.

Example test_joined_table_passes :
  snd (test_joined_table empty_heap)
  = Ok (3, [Some (VStr "Alice"); Some (VStr "Alice"); Some (VStr "Bob")]).
Proof. vm_compute. reflexivity. Qed.

(** ** Heap reads after writes *)

Lemma row_at_set_row_eq h r x : row_at (set_row r x h) r = x.
Proof. unfold row_at, set_row; simpl. by rewrite lookup_total_insert_eq. Qed.

Lemma row_at_set_row_ne h r r' x : r ≠ r' → row_at (set_row r x h) r' = row_at h r'.
Proof. intros ?. unfold row_at, set_row; simpl. by rewrite lookup_total_insert_ne. Qed.

Lemma list_at_set_list_eq h l x : list_at (set_list l x h) l = x.
Proof. unfold list_at, set_list; simpl. by rewrite lookup_total_insert_eq. Qed.

Lemma list_at_set_list_ne h l l' x : l ≠ l' → list_at (set_list l x h) l' = list_at h l'.
Proof. intros ?. unfold list_at, set_list; simpl. by rewrite lookup_total_insert_ne. Qed.

Lemma table_at_set_table_eq h t x : table_at (set_table t x h) t = x.
Proof. unfold table_at, set_table; simpl. by rewrite lookup_total_insert_eq. Qed.

Lemma fresh_row_not_allocated h : fresh (dom (row_objs h)) ∉ dom (row_objs h).
Proof. apply is_fresh. Qed.

Lemma fresh_list_not_allocated h : fresh (dom (list_objs h)) ∉ dom (list_objs h).
Proof. apply is_fresh. Qed.

(** ** Validation *)

Lemma check_columns_raises columns row_data e :
  Table.check_columns columns row_data = Raise e →
  ∃ column_name v, e = ValueError (InvalidValue column_name v).
Proof.
  induction columns as [|[k c] rest IH]; simpl; [discriminate|].
  destruct (Column.validate c _); [exact IH|].
  intros [= <-]. eauto.
Qed.

(** Every entry of the schema accepts the value the dict gives it. *)
Lemma check_columns_Ok columns row_data :
  Table.check_columns columns row_data = Ok tt ↔
  Forall (fun kc => Column.validate (snd kc)
                      (default VNone (row_data !! fst kc)) = true) columns.
Proof.
  induction columns as [|[k c] rest IH]; simpl.
  - split; [constructor|done].
  - destruct (Column.validate c _) eqn:E.
    + rewrite IH. split; [by constructor|by inversion 1].
    + split; [done|]. inversion 1; simpl in *; congruence.
Qed.

(** ** Outcomes of insert and update *)

Lemma insert_Ok h self row_data :
  Table.check_columns (tbl_columns (table_at h self)) row_data = Ok tt →
  ∃ h', Table.insert self row_data h = (h', Ok (fresh (dom (row_objs h)))).
Proof.
  intros E. unfold Table.insert, Table._validate_row_data, bind, lift, get_heap.
  rewrite E. simpl. eauto.
Qed.

Lemma insert_Raise h self row_data e :
  Table.check_columns (tbl_columns (table_at h self)) row_data = Raise e →
  Table.insert self row_data h = (h, Raise e).
Proof.
  intros E. unfold Table.insert, Table._validate_row_data, bind, lift, get_heap.
  by rewrite E.
Qed.

Lemma update_not_found h self i new_data :
  Table.scan_by_id h (Table.iter h self) i = None →
  Table.update self i new_data h = (h, Raise (KeyError (RowNotFound i))).
Proof.
  intros E. unfold Table.update, Table.get_by_id, bind, get_heap, ret, raise.
  unfold Table.iter in E. by rewrite E.
Qed.

Lemma update_Raise h self i new_data row e :
  Table.scan_by_id h (Table.iter h self) i = Some row →
  Table.check_columns (tbl_columns (table_at h self))
    (new_data ∪ row_data (row_at h row)) = Raise e →
  Table.update self i new_data h = (h, Raise e).
Proof.
  intros E V. unfold Table.update, Table.get_by_id, bind, get_heap, ret.
  unfold Table.iter in E. rewrite E.
  unfold Table._validate_row_data, bind, lift, get_heap. by rewrite V.
Qed.

Lemma update_Ok h self i new_data row :
  Table.scan_by_id h (Table.iter h self) i = Some row →
  Table.check_columns (tbl_columns (table_at h self))
    (new_data ∪ row_data (row_at h row)) = Ok tt →
  Table.update self i new_data h
  = (set_row row (mkRow (new_data ∪ row_data (row_at h row)) (row_id (row_at h row))) h,
     Ok row).
Proof.
  intros E V. unfold Table.update, Table.get_by_id, bind, get_heap, ret.
  unfold Table.iter in E. rewrite E.
  unfold Table._validate_row_data, bind, lift, get_heap. by rewrite V.
Qed.

(** C2: a failed [insert] raises the validation error and a failed [update]
    raises it or the not-found error, and in each case the heap (the
    Table, its row list, every stored Row and the id counter) is the one
    that was there before the call. *)
Theorem failed_insert_update_leave_state (h h' : Heap) (self : loc) (e : exn) :
  (∀ row_data,
     Table.insert self row_data h = (h', Raise e) →
     h' = h ∧ ∃ column_name v, e = ValueError (InvalidValue column_name v)) ∧
  (∀ i new_data,
     Table.update self i new_data h = (h', Raise e) →
     h' = h ∧ (e = KeyError (RowNotFound i) ∨
               ∃ column_name v, e = ValueError (InvalidValue column_name v))).
Proof.
  split.
  - intros row_data H.
    destruct (Table.check_columns (tbl_columns (table_at h self)) row_data)
      as [[]|e0] eqn:V.
    + destruct (insert_Ok _ _ _ V) as [h1 E]. congruence.
    + rewrite (insert_Raise _ _ _ _ V) in H. injection H as <- <-.
      split; [done|]. eapply check_columns_raises; eauto.
  - intros i new_data H.
    destruct (Table.scan_by_id h (Table.iter h self) i) as [row|] eqn:F.
    + destruct (Table.check_columns (tbl_columns (table_at h self))
                  (new_data ∪ row_data (row_at h row))) as [[]|e0] eqn:V.
      * rewrite (update_Ok _ _ _ _ _ F V) in H. discriminate.
      * rewrite (update_Raise _ _ _ _ _ _ F V) in H. injection H as <- <-.
        split; [done|]. right. eapply check_columns_raises; eauto.
    + rewrite (update_not_found _ _ _ _ F) in H. injection H as <- <-. auto.
Qed.

(** The state a successful [insert] leaves: one new Row object carrying the
    dict and the old counter as id, the counter advanced, the Row appended
    to the row list, everything else as before. *)
Lemma insert_Ok_state h self d :
  Table.check_columns (tbl_columns (table_at h self)) d = Ok tt →
  let t := table_at h self in
  let row := fresh (dom (row_objs h)) in
  ∃ h',
    Table.insert self d h = (h', Ok row) ∧
    row_at h' row = mkRow d (Some (tbl_next_id t)) ∧
    table_at h' self = mkTable (tbl_name t) (tbl_columns t) (tbl_rows t) (tbl_next_id t + 1) ∧
    list_at h' (tbl_rows t) = (list_at h (tbl_rows t) ++ [row])%list ∧
    (∀ r, r ≠ row → row_at h' r = row_at h r).
Proof.
  intros E t row.
  unfold Table.insert, Table._validate_row_data, bind, lift, get_heap.
  rewrite E. cbn [Row.init Row.set_id new_row modify_heap ret bind].
  eexists. split; [reflexivity|].
  fold row. unfold row_at, table_at, list_at, set_row, set_table, set_list.
  cbn [row_objs list_objs table_objs].
  rewrite !lookup_total_insert_eq. cbn [row_data row_id tbl_rows tbl_name tbl_columns tbl_next_id].
  rewrite ?lookup_total_insert_eq.
  repeat split.
  intros r Hr. by rewrite !lookup_total_insert_ne.
Qed.

Lemma update_keeps_table h h' self i new_data res :
  Table.update self i new_data h = (h', res) →
  table_at h' self = table_at h self ∧ Table.iter h' self = Table.iter h self ∧
  (∀ r, row_id (row_at h' r) = row_id (row_at h r)).
Proof.
  intros H.
  destruct (Table.scan_by_id h (Table.iter h self) i) as [row|] eqn:F.
  - destruct (Table.check_columns (tbl_columns (table_at h self))
                (new_data ∪ row_data (row_at h row))) as [[]|e0] eqn:V.
    + rewrite (update_Ok _ _ _ _ _ F V) in H. injection H as <- <-.
      repeat split. intros r. destruct (decide (row = r)) as [->|Hne].
      * by rewrite row_at_set_row_eq.
      * by rewrite row_at_set_row_ne.
    + rewrite (update_Raise _ _ _ _ _ _ F V) in H. by injection H as <- <-.
  - rewrite (update_not_found _ _ _ _ F) in H. by injection H as <- <-.
Qed.

Lemma delete_state h self i :
  ∃ h' b, Table.delete self i h = (h', Ok b) ∧
    table_at h' self = table_at h self ∧ row_objs h' = row_objs h ∧
    ∀ r, r ∈ Table.iter h' self → r ∈ Table.iter h self.
Proof.
  unfold Table.delete, Table.get_by_id, bind, get_heap, ret.
  destruct (Table.scan_by_id _ _ _) as [row|].
  - cbn [modify_heap]. eexists _, _. split; [reflexivity|].
    repeat split. unfold Table.iter.
    change (table_at (set_list _ _ h) self) with (table_at h self).
    rewrite list_at_set_list_eq.
    generalize (list_at h (tbl_rows (table_at h self))). intros l r.
    induction l as [|y l IH]; simpl; [done|].
    destruct (decide (y = row)); [set_solver|].
    rewrite !elem_of_cons. intros [->|?]; auto.
  - eexists _, _. split; [reflexivity|]. auto.
Qed.

(** The effect of one operation on the schema, the counter and the ids
    handed out. *)
Lemma run_op_counter h self op :
  let t := table_at h self in
  let (h', o) := run_op self op h in
  tbl_columns (table_at h' self) = tbl_columns t ∧
  if valid_insert (tbl_columns t) op
  then tbl_next_id (table_at h' self) = tbl_next_id t + 1 ∧
       assigned_ids [o] = [Some (tbl_next_id t)]
  else tbl_next_id (table_at h' self) = tbl_next_id t ∧ assigned_ids [o] = [].
Proof.
  destruct op as [row_data|i new_data|i]; cbn [run_op valid_insert].
  - destruct (Table.check_columns (tbl_columns (table_at h self)) row_data)
      as [[]|e0] eqn:V; cbn [is_Ok].
    + destruct (insert_Ok_state _ _ _ V) as (h' & -> & Hr & Ht & _).
      rewrite Hr, Ht. cbn. auto.
    + rewrite (insert_Raise _ _ _ _ V). auto.
  - destruct (Table.update self i new_data h) as [h' [row|e]] eqn:U;
      destruct (update_keeps_table _ _ _ _ _ _ U) as (-> & _); auto.
  - destruct (delete_state h self i) as (h' & b & -> & -> & _). auto.
Qed.

Lemma assigned_ids_cons o os : assigned_ids (o :: os) = (assigned_ids [o] ++ assigned_ids os)%list.
Proof. destruct o; reflexivity. Qed.

Lemma consecutive_ids_S n k :
  consecutive_ids n (S k) = Some n :: consecutive_ids (n + 1) k.
Proof.
  unfold consecutive_ids. cbn [seq map]. f_equal; [f_equal; lia|].
  rewrite <- seq_shift, map_map. apply map_ext. intros j. f_equal. lia.
Qed.

(** The ids a run hands out are the counter's values, one after the other,
    one per insert the schema accepts. *)
Lemma run_ops_assigned_ids self ops : ∀ h,
  assigned_ids (snd (run_ops self ops h))
  = consecutive_ids (tbl_next_id (table_at h self))
      (length (filter (fun op => valid_insert (tbl_columns (table_at h self)) op = true) ops)).
Proof.
  induction ops as [|op rest IH]; intros h; [reflexivity|].
  cbn [run_ops]. pose proof (run_op_counter h self op) as Hop. cbn zeta in Hop.
  destruct (run_op self op h) as [h1 o]. specialize (IH h1).
  destruct (run_ops self rest h1) as [h2 os]. cbn [snd] in *.
  destruct Hop as [Hc Hop]. rewrite assigned_ids_cons, IH, Hc.
  rewrite filter_cons.
  destruct (valid_insert (tbl_columns (table_at h self)) op) eqn:V.
  - destruct Hop as [-> ->]. rewrite decide_True by done.
    cbn [length]. by rewrite consecutive_ids_S.
  - destruct Hop as [-> ->]. rewrite decide_False by done. reflexivity.
Qed.

Lemma consecutive_ids_sorted n k :
  ∃ zs, consecutive_ids n k = map Some zs ∧ StronglySorted Z.lt zs ∧
        Forall (fun z => n ≤ z) zs.
Proof.
  revert n. induction k as [|k IH]; intros n.
  - exists []. repeat split; constructor.
  - destruct (IH (n + 1)) as (zs & E & S & B).
    exists (n :: zs). rewrite consecutive_ids_S, E. repeat split.
    + constructor; [done|]. eapply Forall_impl; [exact B|]. intros; simpl in *; lia.
    + constructor; [lia|]. eapply Forall_impl; [exact B|]. intros; simpl in *; lia.
Qed.

Lemma StronglySorted_lt_NoDup zs : StronglySorted Z.lt zs → NoDup zs.
Proof.
  induction 1 as [|z zs S IH B]; constructor; [|done].
  intros Hin. rewrite Forall_forall in B. specialize (B _ Hin). lia.
Qed.

Lemma init_state h name columns :
  ∃ h' self, Table.init name columns h = (h', Ok self) ∧
    table_at h' self
    = mkTable name (Table.columns_dict columns) (fresh (dom (list_objs h))) 1 ∧
    Table.iter h' self = [] ∧ row_objs h' = row_objs h ∧ db_objs h' = db_objs h.
Proof.
  unfold Table.init, bind, new_list, new_table. eexists _, _.
  split; [reflexivity|]. unfold Table.iter. rewrite table_at_set_table_eq.
  repeat split. cbn [tbl_rows].
  unfold list_at, set_table, set_list. cbn [list_objs].
  by rewrite lookup_total_insert_eq.
Qed.

(** C3: whatever operations are applied to a Table, in whatever state, the
    ids its successful inserts hand out are strictly increasing, hence never
    handed out twice, deletions or not; and on a new Table, three inserts, a
    delete of id 2 and a fourth insert hand out 1, 2, 3, 4. *)
Theorem ids_increasing_never_reused (h : Heap) (self : loc) (ops : list table_op) :
  (∃ zs, assigned_ids (snd (run_ops self ops h)) = map Some zs ∧
         StronglySorted Z.lt zs ∧ NoDup zs ∧
         Forall (fun z => tbl_next_id (table_at h self) ≤ z) zs) ∧
  (∀ name columns f1 f2 f3 f4 h1 t,
     Table.init name columns h = (h1, Ok t) →
     Forall (fun f => Table.check_columns (Table.columns_dict columns) f = Ok tt)
       [f1; f2; f3; f4] →
     assigned_ids
       (snd (run_ops t [Insert f1; Insert f2; Insert f3; Delete 2; Insert f4] h1))
     = [Some 1; Some 2; Some 3; Some 4]).
Proof.
  split.
  - rewrite run_ops_assigned_ids.
    destruct (consecutive_ids_sorted (tbl_next_id (table_at h self))
                (length (filter (fun op => valid_insert (tbl_columns (table_at h self)) op = true) ops)))
      as (zs & E & S & B).
    exists zs. repeat split; auto using StronglySorted_lt_NoDup.
  - intros name columns f1 f2 f3 f4 h1 t Hinit Hvalid.
    destruct (init_state h name columns) as (h1' & t' & Hinit' & Ht & _).
    rewrite Hinit in Hinit'. injection Hinit' as <- <-.
    rewrite run_ops_assigned_ids, Ht. cbn [tbl_columns tbl_next_id].
    rewrite !Forall_cons in Hvalid. destruct Hvalid as (V1 & V2 & V3 & V4 & _).
    rewrite !filter_cons, filter_nil. cbn [valid_insert].
    rewrite V1, V2, V3, V4. cbn [is_Ok].
    rewrite !decide_True by done. rewrite decide_False by done. reflexivity.
Qed.

Lemma ids_increasing_never_reused_witness :
  assigned_ids
    (snd (run_ops numbers_table
            [Insert (number_row 1 10); Insert (number_row 2 20);
             Insert (number_row 3 30); Delete 2; Insert (number_row 4 40)]
            numbers_heap))
  = [Some 1; Some 2; Some 3; Some 4].
Proof.
  apply (proj2 (ids_increasing_never_reused empty_heap numbers_table [])
           "numbers" numbers_columns).
  - vm_compute. reflexivity.
  - repeat constructor.
Defined.

Lemma failed_insert_update_leave_state_witness :
  (numbers_heap3 = numbers_heap3 ∧
   ∃ column_name v,
     ValueError (InvalidValue "value" VNone) = ValueError (InvalidValue column_name v)) ∧
  (numbers_heap3 = numbers_heap3 ∧
   (KeyError (RowNotFound 7) = KeyError (RowNotFound 7) ∨
    ∃ column_name v,
      KeyError (RowNotFound 7) = ValueError (InvalidValue column_name v))).
Proof.
  split.
  - apply (proj1 (failed_insert_update_leave_state numbers_heap3 numbers_heap3
                    numbers_table (ValueError (InvalidValue "value" VNone)))
             (<["id" := VInt 4]> ∅)).
    vm_compute. reflexivity.
  - apply (proj2 (failed_insert_update_leave_state numbers_heap3 numbers_heap3
                    numbers_table (KeyError (RowNotFound 7)))
             7 (<["value" := VInt 4]> ∅)).
    vm_compute. reflexivity.
Defined.

(** ** The id invariant *)

Lemma ids_below_spec h self :
  ids_below h self = true ↔
  ∀ r i, r ∈ Table.iter h self → row_id (row_at h r) = Some i →
         i < tbl_next_id (table_at h self).
Proof.
  unfold ids_below. rewrite forallb_forall. split.
  - intros H r i Hr Hi. apply list_elem_of_In in Hr. specialize (H r Hr).
    rewrite Hi in H. lia.
  - intros H r Hr. apply list_elem_of_In in Hr.
    destruct (row_id (row_at h r)) as [i|] eqn:Hi; [|done].
    specialize (H r i Hr Hi). lia.
Qed.

Lemma ids_below_init h name columns h' self :
  Table.init name columns h = (h', Ok self) → ids_below h' self = true.
Proof.
  intros H. destruct (init_state h name columns) as (h1 & t & H1 & _ & Hi & _).
  rewrite H in H1. injection H1 as <- <-.
  unfold ids_below. by rewrite Hi.
Qed.

Lemma ids_below_run_op h self op :
  ids_below h self = true → ids_below (fst (run_op self op h)) self = true.
Proof.
  rewrite !ids_below_spec. intros Inv.
  destruct op as [d|i new_data|i]; cbn [run_op].
  - destruct (Table.check_columns (tbl_columns (table_at h self)) d) as [[]|e0] eqn:V.
    + destruct (insert_Ok_state _ _ _ V) as (h' & -> & Hr & Ht & Hl & Ho).
      cbn [fst]. intros r i. unfold Table.iter. rewrite Ht. cbn [tbl_rows tbl_next_id].
      rewrite Hl, elem_of_app, list_elem_of_singleton.
      destruct (decide (r = fresh (dom (row_objs h)))) as [->|Hne].
      * rewrite Hr. cbn. intros _ [= <-]. lia.
      * rewrite (Ho _ Hne). intros [Hin|?] Hi; [|done].
        specialize (Inv r i Hin Hi). lia.
    + by rewrite (insert_Raise _ _ _ _ V).
  - destruct (Table.update self i new_data h) as [h' res] eqn:U.
    destruct (update_keeps_table _ _ _ _ _ _ U) as (Ht & Hi & Hid).
    assert (fst (match res with Ok row => (h', Updated row)
                              | Raise e => (h', Failed e) end) = h') as ->
      by (by destruct res).
    intros r j. rewrite Ht, Hi, Hid. apply Inv.
  - destruct (delete_state h self i) as (h' & b & -> & Ht & Hr & Hsub).
    cbn [fst]. intros r j Hin. unfold row_at. rewrite Ht, Hr. intros Hj.
    apply (Inv r j); auto.
Qed.

(** Every state reached from a new Table through its operations satisfies
    the invariant. *)
Lemma ids_below_run_ops self ops : ∀ h,
  ids_below h self = true → ids_below (fst (run_ops self ops h)) self = true.
Proof.
  induction ops as [|op rest IH]; intros h Inv; [exact Inv|].
  cbn [run_ops]. pose proof (ids_below_run_op h self op Inv) as Inv1.
  destruct (run_op self op h) as [h1 o]. specialize (IH h1 Inv1).
  by destruct (run_ops self rest h1).
Qed.

Lemma scan_finds_appended h h' rows row n :
  row_id (row_at h' row) = Some n →
  (∀ r, r ≠ row → row_at h' r = row_at h r) →
  (∀ r i, r ∈ rows → row_id (row_at h r) = Some i → i < n) →
  Table.scan_by_id h' (rows ++ [row]) n = Some row.
Proof.
  intros Hrow Hother. induction rows as [|y rows IH]; intros Inv; cbn.
  - by rewrite decide_True.
  - destruct (decide (row_id (row_at h' y) = Some n)) as [Hy|Hy].
    + destruct (decide (y = row)) as [->|Hne]; [done|].
      rewrite (Hother _ Hne) in Hy.
      specialize (Inv y n (list_elem_of_here _ _) Hy). lia.
    + apply IH. intros r i Hr. apply Inv. by apply list_elem_of_further.
Qed.

(** C4: on a Table whose stored ids are all below its counter (every state
    its own operations reach), an accepted [insert] returns a Row that
    carries the inserted dict and the counter's value as id, and
    [get_by_id] of that id returns that same Row. *)
Theorem insert_then_get_by_id (h : Heap) (self : loc) (d : fields) :
  ids_below h self = true →
  Table.check_columns (tbl_columns (table_at h self)) d = Ok tt →
  ∃ h1 row i,
    Table.insert self d h = (h1, Ok row) ∧
    row_id (row_at h1 row) = Some i ∧
    Table.get_by_id self i h1 = (h1, Ok (Some row)) ∧
    row_data (row_at h1 row) = d ∧
    i = tbl_next_id (table_at h self).
Proof.
  intros Inv V. rewrite ids_below_spec in Inv.
  destruct (insert_Ok_state _ _ _ V) as (h1 & Hins & Hr & Ht & Hl & Ho).
  exists h1, (fresh (dom (row_objs h))), (tbl_next_id (table_at h self)).
  split; [exact Hins|]. rewrite Hr. repeat split.
  unfold Table.get_by_id, bind, get_heap, ret. rewrite Ht. cbn [tbl_rows].
  rewrite Hl. erewrite scan_finds_appended; [reflexivity| |exact Ho|exact Inv].
  by rewrite Hr.
Qed.

Lemma insert_then_get_by_id_witness :
  ∃ h1 row i,
    Table.insert numbers_table (number_row 4 40) numbers_heap3 = (h1, Ok row) ∧
    row_id (row_at h1 row) = Some i ∧
    Table.get_by_id numbers_table i h1 = (h1, Ok (Some row)) ∧
    row_data (row_at h1 row) = number_row 4 40 ∧
    i = tbl_next_id (table_at numbers_heap3 numbers_table).
Proof.
  apply (insert_then_get_by_id numbers_heap3 numbers_table (number_row 4 40)).
  - vm_compute. reflexivity.
  - vm_compute. reflexivity.
Defined.

Lemma set_list_twice l x y h : set_list l x (set_list l y h) = set_list l x h.
Proof. unfold set_list; cbn. by rewrite insert_insert_eq. Qed.

Lemma iter_set_row r x h self : Table.iter (set_row r x h) self = Table.iter h self.
Proof. reflexivity. Qed.

(** ** select_all *)

(** C8, as the code has it: [select_all] returns a new list object, one
    that was not allocated before and is not the Table's row list, with the
    Table's Row objects in it; every other list, every Row and every Table
    is as it was.  Whatever a caller does to the returned list (adding,
    removing, reordering entries) changes that list alone: the Table's row
    list, the other lists and the Rows stay as they were.  An item
    assignment on one of its elements is an assignment on the Row the Table
    holds, and changes that Row alone. *)
Theorem select_all_copies_list_shares_rows (h : Heap) (self : loc) :
  tbl_rows (table_at h self) ∈ dom (list_objs h) →
  ∃ h1 l,
    Table.select_all self h = (h1, Ok l) ∧
    l ≠ tbl_rows (table_at h1 self) ∧
    list_at h1 l = Table.iter h1 self ∧
    Table.iter h1 self = Table.iter h self ∧
    stored_rows h1 self = stored_rows h self ∧
    (∀ f h2, list_mutate l f h1 = (h2, Ok tt) →
       list_at h2 l = f (Table.iter h self) ∧
       Table.iter h2 self = Table.iter h self ∧
       stored_rows h2 self = stored_rows h self) ∧
    (∀ r key v h2, r ∈ list_at h1 l → Row.setitem r key v h1 = (h2, Ok tt) →
       r ∈ Table.iter h2 self ∧
       Table.iter h2 self = Table.iter h self ∧
       row_at h2 r = mkRow (<[key := v]> (row_data (row_at h r))) (row_id (row_at h r))) ∧
    (l ∉ dom (list_objs h)) ∧
    dom (list_objs h1) = {[l]} ∪ dom (list_objs h) ∧
    (∀ l0, l0 ≠ l → list_objs h1 !! l0 = list_objs h !! l0) ∧
    row_objs h1 = row_objs h ∧
    table_objs h1 = table_objs h ∧
    db_objs h1 = db_objs h ∧
    (∀ f h2, list_mutate l f h1 = (h2, Ok tt) →
       (∀ l0, l0 ≠ l → list_objs h2 !! l0 = list_objs h !! l0) ∧
       row_objs h2 = row_objs h ∧
       table_objs h2 = table_objs h) ∧
    (∀ r key v h2, r ∈ list_at h1 l → Row.setitem r key v h1 = (h2, Ok tt) →
       list_objs h2 = list_objs h1 ∧
       table_objs h2 = table_objs h ∧
       ∀ r0, r0 ≠ r → row_objs h2 !! r0 = row_objs h !! r0).
Proof.
  intros Halloc. unfold Table.select_all, bind, get_heap, new_list.
  set (l := fresh (dom (list_objs h))).
  assert (l ∉ dom (list_objs h)) as Hnew by apply fresh_list_not_allocated.
  assert (l ≠ tbl_rows (table_at h self)) as Hne.
  { intros E. apply Hnew. by rewrite E. }
  eexists _, l. split; [reflexivity|].
  assert (∀ x, Table.iter (set_list l x h) self = Table.iter h self) as Hiter.
  { intros x. unfold Table.iter.
    change (table_at (set_list l x h) self) with (table_at h self).
    by rewrite list_at_set_list_ne. }
  change (table_at (set_list l _ h) self) with (table_at h self).
  rewrite list_at_set_list_eq, Hiter.
  split; [done|]. split; [done|]. split; [done|]. split.
  { unfold stored_rows. by rewrite Hiter. }
  split.
  { intros f h2 [= <-]. rewrite list_at_set_list_eq, set_list_twice.
    rewrite list_at_set_list_eq, Hiter. split; [done|]. split; [done|].
    unfold stored_rows. by rewrite Hiter. }
  split.
  { intros r key v h2 Hr [= <-]. rewrite iter_set_row, Hiter.
    split; [exact Hr|]. split; [done|].
    by rewrite row_at_set_row_eq. }
  split; [exact Hnew|]. cbn [set_list list_objs row_objs table_objs db_objs].
  split; [by rewrite dom_insert_L|].
  split; [by intros l0 Hl0; rewrite lookup_insert_ne|].
  split; [done|]. split; [done|]. split; [done|]. split.
  - intros f h2 [= <-]. cbn [set_list list_objs row_objs table_objs].
    split; [|done]. intros l0 Hl0. by rewrite !lookup_insert_ne.
  - intros r key v h2 Hr [= <-]. cbn [set_row set_list list_objs row_objs table_objs].
    split; [done|]. split; [done|]. intros r0 Hr0. by rewrite lookup_insert_ne.
Qed.

Lemma select_all_copies_list_shares_rows_witness :
  ∃ h1 l,
    Table.select_all numbers_table numbers_heap3 = (h1, Ok l) ∧
    l ≠ tbl_rows (table_at h1 numbers_table) ∧
    list_at h1 l = Table.iter h1 numbers_table ∧
    Table.iter h1 numbers_table = Table.iter numbers_heap3 numbers_table ∧
    stored_rows h1 numbers_table = stored_rows numbers_heap3 numbers_table ∧
    (∀ f h2, list_mutate l f h1 = (h2, Ok tt) →
       list_at h2 l = f (Table.iter numbers_heap3 numbers_table) ∧
       Table.iter h2 numbers_table = Table.iter numbers_heap3 numbers_table ∧
       stored_rows h2 numbers_table = stored_rows numbers_heap3 numbers_table) ∧
    (∀ r key v h2, r ∈ list_at h1 l → Row.setitem r key v h1 = (h2, Ok tt) →
       r ∈ Table.iter h2 numbers_table ∧
       Table.iter h2 numbers_table = Table.iter numbers_heap3 numbers_table ∧
       row_at h2 r = mkRow (<[key := v]> (row_data (row_at numbers_heap3 r)))
                       (row_id (row_at numbers_heap3 r))) ∧
    (l ∉ dom (list_objs numbers_heap3)) ∧
    dom (list_objs h1) = {[l]} ∪ dom (list_objs numbers_heap3) ∧
    (∀ l0, l0 ≠ l → list_objs h1 !! l0 = list_objs numbers_heap3 !! l0) ∧
    row_objs h1 = row_objs numbers_heap3 ∧
    table_objs h1 = table_objs numbers_heap3 ∧
    db_objs h1 = db_objs numbers_heap3 ∧
    (∀ f h2, list_mutate l f h1 = (h2, Ok tt) →
       (∀ l0, l0 ≠ l → list_objs h2 !! l0 = list_objs numbers_heap3 !! l0) ∧
       row_objs h2 = row_objs numbers_heap3 ∧
       table_objs h2 = table_objs numbers_heap3) ∧
    (∀ r key v h2, r ∈ list_at h1 l → Row.setitem r key v h1 = (h2, Ok tt) →
       list_objs h2 = list_objs h1 ∧
       table_objs h2 = table_objs numbers_heap3 ∧
       ∀ r0, r0 ≠ r → row_objs h2 !! r0 = row_objs numbers_heap3 !! r0).
Proof.
  apply (select_all_copies_list_shares_rows numbers_heap3 numbers_table).
  apply elem_of_dom. vm_compute. eexists. reflexivity.
Defined.

(** C8 as stated fails: after [select_all] on the Table holding the rows
    10, 20, 30, assigning [value] on the first element of the returned list
    changes the Rows the Table holds. *)
Lemma select_all_elements_shared_counterexample :
  ∃ h1 l r,
    Table.select_all numbers_table numbers_heap3 = (h1, Ok l) ∧
    list_at h1 l !! 0%nat = Some r ∧
    stored_rows (fst (Row.setitem r "value" (VInt 99) h1)) numbers_table
    ≠ stored_rows h1 numbers_table.
Proof.
  eexists _, _, _. split; [reflexivity|]. split; [vm_compute; reflexivity|].
  vm_compute. discriminate.
Qed.

(** ** Integer columns and booleans *)

Lemma check_columns_set_bool columns d x b :
  int_column columns x →
  Table.check_columns columns d = Ok tt →
  Table.check_columns columns (<[x := VBool b]> d) = Ok tt.
Proof.
  intros Hint. rewrite !check_columns_Ok, !Forall_forall.
  intros H [k c] Hin. cbn [fst snd]. specialize (H _ Hin). cbn [fst snd] in H.
  destruct (decide (x = k)) as [->|Hne].
  - rewrite lookup_insert_eq. cbn. unfold Column.validate.
    by rewrite (Hint c Hin).
  - by rewrite lookup_insert_ne.
Qed.

(** C9: [IntegerType] accepts both booleans and [BooleanType] rejects every
    integer that is not one; so an Integer column validates [True] and
    [False], and an insert or an update that puts a boolean into an Integer
    column of an otherwise accepted row succeeds and stores the boolean. *)
Theorem integer_type_accepts_bool :
  (∀ b, IntegerType.validate (VBool b) = true) ∧
  (∀ n, BooleanType.validate (VInt n) = false) ∧
  (∀ c b, col_data_type c = IntegerType → Column.validate c (VBool b) = true) ∧
  (∀ c n, col_data_type c = BooleanType → Column.validate c (VInt n) = false) ∧
  (∀ h self x b d,
     int_column (tbl_columns (table_at h self)) x →
     Table.check_columns (tbl_columns (table_at h self)) d = Ok tt →
     ∃ h' row, Table.insert self (<[x := VBool b]> d) h = (h', Ok row) ∧
               row_data (row_at h' row) !! x = Some (VBool b)) ∧
  (∀ h self x b i row,
     int_column (tbl_columns (table_at h self)) x →
     Table.scan_by_id h (Table.iter h self) i = Some row →
     Table.check_columns (tbl_columns (table_at h self)) (row_data (row_at h row)) = Ok tt →
     ∃ h', Table.update self i {[x := VBool b]} h = (h', Ok row) ∧
           row_data (row_at h' row) !! x = Some (VBool b)).
Proof.
  split; [done|]. split; [done|].
  split; [intros c b E; unfold Column.validate; by rewrite E|].
  split; [intros c n E; unfold Column.validate; by rewrite E|]. split.
  - intros h self x b d Hint V.
    destruct (insert_Ok_state h self _ (check_columns_set_bool _ _ x b Hint V))
      as (h' & Hins & Hr & _).
    eexists _, _. split; [exact Hins|]. rewrite Hr. cbn. apply lookup_insert_eq.
  - intros h self x b i row Hint F V.
    assert (Table.check_columns (tbl_columns (table_at h self))
              ({[x := VBool b]} ∪ row_data (row_at h row)) = Ok tt) as V'.
    { rewrite <- insert_union_singleton_l. by apply check_columns_set_bool. }
    rewrite (update_Ok _ _ _ _ _ F V'). eexists. split; [reflexivity|].
    rewrite row_at_set_row_eq. cbn [row_data].
    rewrite <- insert_union_singleton_l. apply lookup_insert_eq.
Qed.

Lemma numbers_value_is_int_column :
  int_column (tbl_columns (table_at numbers_heap3 numbers_table)) "value".
Proof.
  intros c Hc. vm_compute in Hc.
  apply elem_of_cons in Hc as [Hc|Hc]; [discriminate|].
  apply elem_of_cons in Hc as [[= ->]|Hc]; [reflexivity|].
  by apply not_elem_of_nil in Hc.
Defined.

Lemma integer_type_accepts_bool_witness :
  (∃ h' row,
     Table.insert numbers_table (<["value" := VBool true]> (number_row 4 40)) numbers_heap3
     = (h', Ok row) ∧
     row_data (row_at h' row) !! "value" = Some (VBool true)) ∧
  (∃ h',
     Table.update numbers_table 2 {["value" := VBool false]} numbers_heap3 = (h', Ok 1%nat) ∧
     row_data (row_at h' 1%nat) !! "value" = Some (VBool false)).
Proof.
  destruct integer_type_accepts_bool as (_ & _ & _ & _ & Hins & Hupd).
  split.
  - apply (Hins numbers_heap3 numbers_table "value" true (number_row 4 40)).
    + exact numbers_value_is_int_column.
    + vm_compute. reflexivity.
  - apply (Hupd numbers_heap3 numbers_table "value" false 2 1%nat).
    + exact numbers_value_is_int_column.
    + vm_compute. reflexivity.
    + vm_compute. reflexivity.
Defined.

(** ** Sorting *)

Example by_score_ascending :
  SimpleQuery._filtered_rows scores_heap (by_score true) = Ok [2; 1; 3; 0]%nat.
Proof. vm_compute. reflexivity. Qed.

Example by_score_descending :
  SimpleQuery._filtered_rows scores_heap (by_score false) = Ok [0; 1; 3; 2]%nat.
Proof. vm_compute. reflexivity. Qed.

Lemma string_compare_refl s : String.compare s s = Eq.
Proof.
  pose proof (String.compare_antisym s s) as H.
  destruct (String.compare s s); simpl in H; congruence.
Qed.

Lemma date_compare_eq d e : date_compare d e = Eq ↔ d = e.
Proof.
  destruct d as [y m d], e as [y' m' d']. unfold date_compare; cbn [year month day].
  split.
  - destruct (Z.compare_spec y y'); try discriminate.
    destruct (Z.compare_spec m m'); try discriminate.
    destruct (Z.compare_spec d d'); try discriminate. congruence.
  - intros [= -> -> ->]. by rewrite !Z.compare_refl.
Qed.

Lemma py_eq_canon a b : py_eq a b = true ↔ canon a = canon b.
Proof.
  destruct a as [|x|m|s|d], b as [|y|n|t|e]; cbn; try (split; congruence).
  - destruct (Z.compare_spec (Z.b2z x) (Z.b2z y)); split; try congruence; intros [=]; lia.
  - destruct (Z.compare_spec (Z.b2z x) n); split; try congruence; intros [=]; lia.
  - destruct (Z.compare_spec m (Z.b2z y)); split; try congruence; intros [=]; lia.
  - destruct (Z.compare_spec m n); split; try congruence; intros [=]; lia.
  - destruct (String.compare s t) eqn:E.
    + apply String.compare_eq_iff in E as ->. done.
    + split; [done|]. intros [= ->]. rewrite string_compare_refl in E. done.
    + split; [done|]. intros [= ->]. rewrite string_compare_refl in E. done.
  - destruct (date_compare d e) eqn:E.
    + apply date_compare_eq in E as ->. done.
    + split; [done|]. intros [= ->].
      rewrite (proj2 (date_compare_eq e e) eq_refl) in E. done.
    + split; [done|]. intros [= ->].
      rewrite (proj2 (date_compare_eq e e) eq_refl) in E. done.
Qed.

Lemma py_eq_is_none a b : py_eq a b = true → is_none a = is_none b.
Proof. destruct a, b; cbn; congruence. Qed.

(** Two keys that [==] a third are not ordered by [<]. *)
Lemma key_lt_of_equal (a b v : value) :
  py_eq a v = true → py_eq b v = true →
  key_lt (is_none a, a) (is_none b, b) = Ok false.
Proof.
  intros Ha Hb. unfold key_lt; cbn [fst snd].
  rewrite (py_eq_is_none _ _ Ha), (py_eq_is_none _ _ Hb), Bool.eqb_reflx.
  cbn [negb]. apply py_eq_canon in Ha, Hb.
  assert (py_eq a b = true) as -> by (apply py_eq_canon; congruence).
  reflexivity.
Qed.

Section sorting.
Context {A : Type}.
Implicit Types (x y : sort_key * A) (l r : list (sort_key * A)).

Lemma key_lt_true_null x y : key_lt (fst x) (fst y) = Ok true → null_le x y.
Proof.
  unfold key_lt, null_le.
  destruct (fst (fst x)), (fst (fst y)); cbn; congruence.
Qed.

Lemma key_lt_false_null x y : key_lt (fst x) (fst y) = Ok false → null_le y x.
Proof.
  unfold key_lt, null_le.
  destruct (fst (fst x)), (fst (fst y)); cbn; congruence.
Qed.

Lemma sort_insert_perm x l : ∀ r, sort_insert x l = Ok r → r ≡ₚ x :: l.
Proof.
  induction l as [|y l IH]; intros r; cbn.
  - by intros [= <-].
  - destruct (key_lt (fst y) (fst x)) as [[]|]; cbn; [|by intros [= <-]|done].
    destruct (sort_insert x l) as [r'|]; cbn; [|done].
    intros [= <-]. rewrite (IH r' eq_refl). apply Permutation_swap.
Qed.

Lemma sort_insert_sorted x l : ∀ r,
  StronglySorted null_le l → sort_insert x l = Ok r → StronglySorted null_le r.
Proof.
  induction l as [|y l IH]; intros r S; cbn.
  - intros [= <-]. repeat constructor.
  - apply StronglySorted_inv in S as [S Hy].
    destruct (key_lt (fst y) (fst x)) as [[]|] eqn:E; cbn; [| |done].
    + destruct (sort_insert x l) as [r'|] eqn:Er; cbn; [|done].
      intros [= <-]. constructor; [by apply IH|].
      rewrite (sort_insert_perm _ _ _ Er). constructor; [|done].
      by apply key_lt_true_null.
    + intros [= <-]. apply key_lt_false_null in E.
      constructor; [by constructor|]. constructor; [done|].
      eapply Forall_impl; [exact Hy|]. unfold null_le in *. auto.
Qed.

(** Insertion never carries an element past one that a predicate [p] groups
    with it, so the elements [p] selects keep their order. *)
Lemma sort_insert_filter (p : sort_key * A → bool) x l : ∀ r,
  (∀ y, y ∈ l → p y = true → p x = true → key_lt (fst y) (fst x) ≠ Ok true) →
  sort_insert x l = Ok r → List.filter p r = List.filter p (x :: l).
Proof.
  induction l as [|y l IH]; intros r Hp; cbn [sort_insert].
  - by intros [= <-].
  - destruct (key_lt (fst y) (fst x)) as [[]|] eqn:E; cbn [rbind]; [| |done].
    + destruct (sort_insert x l) as [r'|] eqn:Er; cbn [rbind]; [|done].
      intros [= <-].
      assert (List.filter p r' = List.filter p (x :: l)) as IH'.
      { apply IH; [|done]. intros z Hz. apply Hp. by apply list_elem_of_further. }
      cbn [List.filter] in *. rewrite IH'.
      destruct (p y) eqn:Py; [|done].
      destruct (p x) eqn:Px; [|done].
      exfalso. by apply (Hp y (list_elem_of_here _ _) Py eq_refl).
    + by intros [= <-].
Qed.

Lemma stable_sort_perm l : ∀ r, stable_sort l = Ok r → r ≡ₚ l.
Proof.
  induction l as [|x l IH]; intros r; cbn.
  - by intros [= <-].
  - destruct (stable_sort l) as [s|]; cbn; [|done].
    intros E. rewrite (sort_insert_perm _ _ _ E). by rewrite (IH s).
Qed.

Lemma stable_sort_sorted l : ∀ r, stable_sort l = Ok r → StronglySorted null_le r.
Proof.
  induction l as [|x l IH]; intros r; cbn.
  - intros [= <-]. constructor.
  - destruct (stable_sort l) as [s|]; cbn; [|done].
    apply sort_insert_sorted. by apply IH.
Qed.

Lemma stable_sort_filter (p : sort_key * A → bool) l : ∀ r,
  (∀ x y, x ∈ l → y ∈ l → p y = true → p x = true →
          key_lt (fst y) (fst x) ≠ Ok true) →
  stable_sort l = Ok r → List.filter p r = List.filter p l.
Proof.
  induction l as [|x l IH]; intros r Hp; cbn [stable_sort].
  - by intros [= <-].
  - destruct (stable_sort l) as [s|] eqn:Es; cbn [rbind]; [|done].
    intros E. rewrite (sort_insert_filter p x s r); [| |exact E].
    + cbn [List.filter]. rewrite (IH s); [done| |done].
      intros a b Ha Hb. apply Hp; by apply list_elem_of_further.
    + intros y Hy. rewrite (stable_sort_perm _ _ Es) in Hy.
      apply Hp; [apply list_elem_of_here|by apply list_elem_of_further].
Qed.

(** On keys that [<] can compare pairwise the sort returns. *)
Lemma sort_insert_total x l :
  (∀ y, y ∈ l → is_Ok (key_lt (fst y) (fst x)) = true) →
  ∃ r, sort_insert x l = Ok r.
Proof.
  induction l as [|y l IH]; intros Hc; cbn; [eauto|].
  pose proof (Hc y (list_elem_of_here _ _)) as Hy.
  destruct (key_lt (fst y) (fst x)) as [[]|]; cbn; [|eauto|done].
  destruct IH as [r ->]; cbn; [|eauto].
  intros z Hz. apply Hc. by apply list_elem_of_further.
Qed.

Lemma stable_sort_total l :
  (∀ x y, x ∈ l → y ∈ l → is_Ok (key_lt (fst y) (fst x)) = true) →
  ∃ r, stable_sort l = Ok r.
Proof.
  induction l as [|x l IH]; intros Hc; cbn; [eauto|].
  destruct IH as [s Es].
  { intros a b Ha Hb. apply Hc; by apply list_elem_of_further. }
  rewrite Es; cbn. apply sort_insert_total.
  intros y Hy. rewrite (stable_sort_perm _ _ Es) in Hy.
  apply Hc; [apply list_elem_of_here|by apply list_elem_of_further].
Qed.

End sorting.

Lemma elem_of_rev {A} (x : A) (l : list A) : x ∈ rev l ↔ x ∈ l.
Proof. rewrite !list_elem_of_In. symmetry. apply in_rev. Qed.

Lemma StronglySorted_rev {A} (R : relation A) (l : list A) :
  StronglySorted R l → StronglySorted (flip R) (rev l).
Proof.
  induction 1 as [|a l S IH Ha]; cbn; [constructor|].
  apply StronglySorted_app_2; [|done|repeat constructor].
  intros x1 x2 H1 H2. apply list_elem_of_singleton in H2 as ->.
  rewrite elem_of_rev in H1. rewrite Forall_forall in Ha. by apply Ha.
Qed.

Section list_sort.
Context {A : Type}.
Implicit Types (l r : list (sort_key * A)).

Lemma list_sort_perm reverse l r : list_sort reverse l = Ok r → r ≡ₚ l.
Proof.
  unfold list_sort. destruct reverse.
  - destruct (stable_sort (rev l)) as [s|] eqn:E; cbn; [|done].
    intros [= <-]. rewrite <- Permutation_rev, (stable_sort_perm _ _ E).
    by rewrite <- Permutation_rev.
  - apply stable_sort_perm.
Qed.

Lemma list_sort_sorted reverse l r :
  list_sort reverse l = Ok r →
  if reverse then StronglySorted (flip null_le) r else StronglySorted null_le r.
Proof.
  unfold list_sort. destruct reverse.
  - destruct (stable_sort (rev l)) as [s|] eqn:E; cbn; [|done].
    intros [= <-]. apply StronglySorted_rev. by eapply stable_sort_sorted.
  - apply stable_sort_sorted.
Qed.

Lemma list_sort_filter (p : sort_key * A → bool) reverse l r :
  (∀ x y, x ∈ l → y ∈ l → p y = true → p x = true →
          key_lt (fst y) (fst x) ≠ Ok true) →
  list_sort reverse l = Ok r → List.filter p r = List.filter p l.
Proof.
  intros Hp. unfold list_sort. destruct reverse.
  - destruct (stable_sort (rev l)) as [s|] eqn:E; cbn; [|done].
    intros [= <-]. rewrite filter_rev, (stable_sort_filter p (rev l) s).
    + by rewrite filter_rev, rev_involutive.
    + intros x y Hx Hy. apply Hp; by apply elem_of_rev.
    + exact E.
  - by apply stable_sort_filter.
Qed.

Lemma list_sort_total reverse l :
  (∀ x y, x ∈ l → y ∈ l → is_Ok (key_lt (fst y) (fst x)) = true) →
  ∃ r, list_sort reverse l = Ok r.
Proof.
  intros Hc. unfold list_sort. destruct reverse.
  - destruct (stable_sort_total (rev l)) as [s ->]; cbn; [|eauto].
    intros x y Hx Hy. apply Hc; by apply elem_of_rev.
  - by apply stable_sort_total.
Qed.

End list_sort.

Lemma key_lt_orderable a b :
  a = VNone ∨ b = VNone ∨ py_compare a b ≠ None →
  is_Ok (key_lt (is_none a, a) (is_none b, b)) = true.
Proof.
  unfold key_lt, py_lt, py_order; cbn [fst snd].
  destruct a, b; cbn; try done; intros [|[|]]; try done;
    repeat match goal with |- context [match ?c with Eq => _ | Lt => _ | Gt => _ end] =>
             destruct c end; done.
Qed.

Lemma getitem_cell h r column v : Row.getitem h r column = Ok v → cell h column r = v.
Proof.
  unfold Row.getitem, cell. destruct (_ !! column); cbn; congruence.
Qed.

Lemma decorate_Ok h column rows : ∀ keyed,
  SimpleQuery.decorate h column rows = Ok keyed →
  keyed = map (keyed_row h column) rows.
Proof.
  induction rows as [|r rows IH]; intros keyed; cbn.
  - by intros [= <-].
  - unfold SimpleQuery.key_func.
    destruct (Row.getitem h r column) as [v|] eqn:E; cbn; [|done].
    destruct (SimpleQuery.decorate h column rows) as [ks|]; cbn; [|done].
    intros [= <-]. rewrite (IH ks eq_refl). unfold keyed_row at 2.
    by rewrite (getitem_cell _ _ _ _ E).
Qed.

Lemma decorate_total h column rows :
  (∀ r, r ∈ rows → is_Some (row_data (row_at h r) !! column)) →
  SimpleQuery.decorate h column rows = Ok (map (keyed_row h column) rows).
Proof.
  induction rows as [|r rows IH]; intros Hc; cbn; [done|].
  destruct (Hc r (list_elem_of_here _ _)) as [v Hv].
  unfold SimpleQuery.key_func, Row.getitem, keyed_row at 1, cell.
  rewrite Hv; cbn. rewrite IH; [done|].
  intros r' Hr'. apply Hc. by apply list_elem_of_further.
Qed.

Lemma map_snd_keyed h column rows : map snd (map (keyed_row h column) rows) = rows.
Proof. rewrite map_map. cbn. apply map_id. Qed.

(** What [null_le] on keyed rows says about the rows. *)
Lemma keyed_sorted_nulls h column (R : relation (sort_key * loc)) rows :
  StronglySorted R (map (keyed_row h column) rows) →
  ∀ l1 r l2 r', rows = (l1 ++ r :: l2)%list → r' ∈ l2 →
                R (keyed_row h column r) (keyed_row h column r').
Proof.
  intros S l1 r l2 r' -> Hr'. rewrite map_app in S.
  apply StronglySorted_app_1_r in S. cbn in S.
  apply StronglySorted_inv in S as [_ F]. rewrite Forall_forall in F.
  apply F, list_elem_of_In, in_map. by apply list_elem_of_In.
Qed.

Lemma is_none_true v : is_none v = true ↔ v = VNone.
Proof. by destruct v. Qed.

(** A list of keyed rows is the keying of its rows. *)
Lemma keyed_of_perm h column rows (sorted : list (sort_key * loc)) :
  sorted ≡ₚ map (keyed_row h column) rows →
  sorted = map (keyed_row h column) (map snd sorted).
Proof.
  intros P.
  assert (Forall (fun x => x = keyed_row h column (snd x)) sorted) as F.
  { rewrite P, Forall_forall. intros x Hx.
    apply list_elem_of_In, in_map_iff in Hx as (r & <- & _).
    reflexivity. }
  clear P. induction F as [|x l Hx F IH]; cbn; [done|]. by rewrite <- Hx, <- IH.
Qed.

(** C1, as the code has it.  With a sort key on a column, [_filtered_rows]
    returns whenever every row that passes the filter has the column and the
    non-null values there can be ordered; and what it returns is a
    rearrangement of the rows that pass the filter in which, ascending,
    every non-null row stands before every null row (descending, every null
    row before every non-null one), and in which the rows with a given key
    keep the order they had in the input, in both directions. *)
Theorem sort_nulls_last_and_stable (h : Heap) (q : SimpleQuery) (column : string)
  (filtered : list loc) :
  q_sort_column q = Some column →
  SimpleQuery.filter_rows h q (source_iter h (q_table q)) = Ok filtered →
  ((∀ r, r ∈ filtered → is_Some (row_data (row_at h r) !! column)) →
   orderable (map (cell h column) filtered) →
   ∃ out, SimpleQuery._filtered_rows h q = Ok out) ∧
  (∀ out, SimpleQuery._filtered_rows h q = Ok out →
     out ≡ₚ filtered ∧
     (if q_sort_ascending q then nulls_last h column out
      else nulls_first h column out) ∧
     ∀ v, rows_with h column v out = rows_with h column v filtered).
Proof.
  intros Hcol Hf. unfold SimpleQuery._filtered_rows. rewrite Hf, Hcol. cbn [rbind].
  split.
  - intros Hhas Hord. rewrite (decorate_total _ _ _ Hhas). cbn [rbind].
    destruct (list_sort_total (negb (q_sort_ascending q))
                (map (keyed_row h column) filtered)) as [s ->]; cbn [rbind]; [|eauto].
    intros x y Hx Hy.
    apply list_elem_of_In, in_map_iff in Hx as (rx & <- & Hx).
    apply list_elem_of_In, in_map_iff in Hy as (ry & <- & Hy).
    apply key_lt_orderable, Hord; apply list_elem_of_In, in_map; done.
  - intros out.
    destruct (SimpleQuery.decorate h column filtered) as [keyed|] eqn:D; cbn [rbind]; [|done].
    apply decorate_Ok in D as ->.
    destruct (list_sort _ _) as [sorted|] eqn:E; cbn [rbind]; [|done].
    intros [= <-].
    pose proof (list_sort_perm _ _ _ E) as P.
    pose proof (keyed_of_perm _ _ _ _ P) as K.
    split; [|split].
    + rewrite P. by rewrite map_snd_keyed.
    + pose proof (list_sort_sorted _ _ _ E) as S. rewrite K in S.
      destruct (q_sort_ascending q); cbn [negb] in S.
      * intros l1 r l2 r' Hout Hr' Hnull.
        pose proof (keyed_sorted_nulls _ _ _ _ S l1 r l2 r' Hout Hr') as N.
        unfold null_le, keyed_row in N; cbn [fst] in N.
        rewrite !is_none_true in N. auto.
      * intros l1 r l2 r' Hout Hr' Hnull.
        pose proof (keyed_sorted_nulls _ _ _ _ S l1 r l2 r' Hout Hr') as N.
        unfold flip, null_le, keyed_row in N; cbn [fst] in N.
        rewrite !is_none_true in N. auto.
    + intros v. unfold rows_with.
      rewrite filter_map_swap.
      rewrite (list_sort_filter (fun x => py_eq (cell h column (snd x)) v)
                 (negb (q_sort_ascending q)) (map (keyed_row h column) filtered) sorted).
      * rewrite filter_map_swap, map_snd_keyed. reflexivity.
      * intros x y Hx Hy.
        apply list_elem_of_In, in_map_iff in Hx as (rx & <- & Hx).
        apply list_elem_of_In, in_map_iff in Hy as (ry & <- & Hy).
        cbn [snd keyed_row fst]. intros Py Px.
        by rewrite (key_lt_of_equal _ _ _ Py Px).
      * exact E.
Qed.

Lemma sort_nulls_last_and_stable_witness :
  (∃ out, SimpleQuery._filtered_rows scores_heap (by_score true) = Ok out) ∧
  (∀ out, SimpleQuery._filtered_rows scores_heap (by_score true) = Ok out →
     out ≡ₚ [0; 1; 2; 3]%nat ∧
     nulls_last scores_heap "score" out ∧
     ∀ v, rows_with scores_heap "score" v out
          = rows_with scores_heap "score" v [0; 1; 2; 3]%nat).
Proof.
  destruct (sort_nulls_last_and_stable scores_heap (by_score true) "score"
              [0; 1; 2; 3]%nat) as [Hreturns Hresult].
  - reflexivity.
  - vm_compute. reflexivity.
  - split; [|exact Hresult]. apply Hreturns.
    + intros r Hr.
      repeat (apply elem_of_cons in Hr as [->|Hr]; [vm_compute; eauto|]).
      by apply not_elem_of_nil in Hr.
    + intros a b Ha Hb. vm_compute in Ha, Hb.
      repeat (apply elem_of_cons in Ha as [->|Ha]);
        try (by apply not_elem_of_nil in Ha);
        repeat (apply elem_of_cons in Hb as [->|Hb]);
        try (by apply not_elem_of_nil in Hb);
        auto; right; right; discriminate.
Defined.

(** C1 as stated fails: sorted ascending by score, the scores Table comes
    out as c (1), b (2), d (2), a (null); the null row is last, not first. *)
Lemma sort_nulls_first_counterexample :
  ∃ out,
    SimpleQuery._filtered_rows scores_heap (by_score true) = Ok out ∧
    q_sort_ascending (by_score true) = true ∧
    ¬ nulls_first scores_heap "score" out.
Proof.
  exists [2; 1; 3; 0]%nat. split; [vm_compute; reflexivity|].
  split; [reflexivity|].
  intros N. specialize (N [] 2%nat [1; 3; 0]%nat 0%nat eq_refl).
  assert (cell scores_heap "score" 2%nat = VNone) as C.
  { apply N; [|vm_compute; reflexivity]. set_solver. }
  vm_compute in C. discriminate.
Qed.

(** ** Filtering and aggregates *)

Lemma matches_value_above_10 h source r n :
  row_data (row_at h r) !! "value" = Some (VInt n) →
  SimpleQuery._matches h (value_above_10 source) r = Ok (10 <? n).
Proof.
  intros H. unfold SimpleQuery._matches, value_above_10. cbn.
  unfold Row.getitem. rewrite H. cbn.
  unfold SimpleQuery.clause_rejects, py_gt, py_order. cbn.
  rewrite Z.ltb_antisym, Z.leb_compare.
  by destruct (n ?= 10).
Qed.

Lemma collect_values_all_null h column rows : ∀ values,
  Forall (fun r => row_data (row_at h r) !! column = Some VNone) rows →
  SimpleQuery.collect_values h column rows values = Ok values.
Proof.
  induction rows as [|r rows IH]; intros values F; cbn; [done|].
  apply Forall_cons in F as [Hr F]. unfold Row.getitem. rewrite Hr. cbn.
  by apply IH.
Qed.

(** C5: over a row source holding 10, 20, 30 in column [value], the query
    where value > 10 yields the rows with 20 and 30, counts 2, sums to 50 and
    averages to 25; and whenever the rows a query keeps are all null at a
    column (in particular when it keeps none), its average there is 0. *)
Theorem query_filter_and_aggregates (h : Heap) (source : RowSource) (r1 r2 r3 : loc) :
  source_iter h source = [r1; r2; r3] →
  row_data (row_at h r1) !! "value" = Some (VInt 10) →
  row_data (row_at h r2) !! "value" = Some (VInt 20) →
  row_data (row_at h r3) !! "value" = Some (VInt 30) →
  SimpleQuery.execute (value_above_10 source) h = (h, Ok [r2; r3]) ∧
  SimpleQuery.count h (value_above_10 source) = Ok 2 ∧
  SimpleQuery.sum h (value_above_10 source) "value" = Ok 50 ∧
  (∃ a, SimpleQuery.avg h (value_above_10 source) "value" = Ok a ∧ (a == 25)%Q) ∧
  (∀ q column rows,
     SimpleQuery._filtered_rows h q = Ok rows →
     Forall (fun r => row_data (row_at h r) !! column = Some VNone) rows →
     SimpleQuery.avg h q column = Ok 0%Q).
Proof.
  intros Hsrc H1 H2 H3.
  assert (SimpleQuery._filtered_rows h (value_above_10 source) = Ok [r2; r3]) as Hf.
  { unfold SimpleQuery._filtered_rows.
    change (q_table (value_above_10 source)) with source.
    rewrite Hsrc. cbn [SimpleQuery.filter_rows].
    rewrite (matches_value_above_10 _ _ _ _ H1), (matches_value_above_10 _ _ _ _ H2),
      (matches_value_above_10 _ _ _ _ H3). reflexivity. }
  split; [|split; [|split; [|split]]].
  - unfold SimpleQuery.execute, bind, get_heap, lift. by rewrite Hf.
  - unfold SimpleQuery.count. by rewrite Hf.
  - unfold SimpleQuery.sum. rewrite Hf. cbn. unfold Row.getitem. by rewrite H2, H3.
  - unfold SimpleQuery.avg. rewrite Hf. cbn. unfold Row.getitem. rewrite H2, H3. cbn.
    eexists. split; [reflexivity|]. reflexivity.
  - intros q column rows Hq F. unfold SimpleQuery.avg. rewrite Hq. cbn [rbind].
    by rewrite (collect_values_all_null _ _ _ _ F).
Qed.

Lemma query_filter_and_aggregates_witness :
  SimpleQuery.execute (value_above_10 (FromTable numbers_table)) numbers_heap3
  = (numbers_heap3, Ok [1; 2]%nat) ∧
  SimpleQuery.count numbers_heap3 (value_above_10 (FromTable numbers_table)) = Ok 2 ∧
  SimpleQuery.sum numbers_heap3 (value_above_10 (FromTable numbers_table)) "value" = Ok 50 ∧
  (∃ a, SimpleQuery.avg numbers_heap3 (value_above_10 (FromTable numbers_table)) "value"
        = Ok a ∧ (a == 25)%Q) ∧
  SimpleQuery.avg numbers_heap3
    (SimpleQuery.where_ (SimpleQuery.init (FromTable numbers_table)) "value" ">" (VInt 30))
    "value" = Ok 0%Q.
Proof.
  destruct (query_filter_and_aggregates numbers_heap3 (FromTable numbers_table)
              0%nat 1%nat 2%nat) as (He & Hc & Hs & Ha & Hz);
    try (vm_compute; reflexivity).
  repeat (split; [assumption|]).
  apply (Hz _ "value" []); [vm_compute; reflexivity|constructor].
Defined.

(** ** Absent keys *)

Lemma getitem_absent h r key :
  row_data (row_at h r) !! key = None →
  Row.getitem h r key = Raise (KeyError (MissingKey key)).
Proof. intros H. unfold Row.getitem. by rewrite H. Qed.

Lemma matches_clauses_absent h r column operator v post : ∀ pre,
  SimpleQuery.matches_clauses h pre r = Ok true →
  row_data (row_at h r) !! column = None →
  SimpleQuery.matches_clauses h (pre ++ (column, operator, v) :: post) r
  = Raise (KeyError (MissingKey column)).
Proof.
  induction pre as [|[[c o] w] pre IH]; intros Hpre Habs; cbn.
  - by rewrite (getitem_absent _ _ _ Habs).
  - cbn in Hpre. destruct (Row.getitem h r c); cbn in *; [|done].
    destruct (SimpleQuery.clause_rejects o a w) as [[]|]; cbn in *; try done.
    by apply IH.
Qed.

Lemma filter_rows_raises h q r after e : ∀ before,
  is_Ok (SimpleQuery.filter_rows h q before) = true →
  SimpleQuery._matches h q r = Raise e →
  SimpleQuery.filter_rows h q (before ++ r :: after) = Raise e.
Proof.
  induction before as [|r0 before IH]; intros Hb Hr; cbn.
  - by rewrite Hr.
  - cbn in Hb. destruct (SimpleQuery._matches h q r0); cbn in *; [|done].
    destruct (SimpleQuery.filter_rows h q before); cbn in *; [|done].
    by rewrite IH.
Qed.

Lemma filtered_rows_raises_all h q e :
  SimpleQuery._filtered_rows h q = Raise e → query_raises h q e.
Proof.
  intros H. split; [done|].
  unfold SimpleQuery.execute, SimpleQuery.count, SimpleQuery.sum, SimpleQuery.avg,
    bind, get_heap, lift.
  by rewrite H.
Qed.

Lemma decorate_absent h column r : ∀ rows,
  r ∈ rows → row_data (row_at h r) !! column = None →
  SimpleQuery.decorate h column rows = Raise (KeyError (MissingKey column)).
Proof.
  induction rows as [|r0 rows IH]; intros Hin Habs; [by apply not_elem_of_nil in Hin|].
  cbn. unfold SimpleQuery.key_func.
  destruct (row_data (row_at h r0) !! column) as [v|] eqn:E.
  - unfold Row.getitem at 1. rewrite E. cbn.
    apply elem_of_cons in Hin as [->|Hin]; [congruence|].
    by rewrite IH.
  - by rewrite (getitem_absent _ _ _ E).
Qed.

Lemma sum_loop_absent h column r after : ∀ before total,
  Forall (summable h column) before →
  row_data (row_at h r) !! column = None →
  SimpleQuery.sum_loop h column (before ++ r :: after) total
  = Raise (KeyError (MissingKey column)).
Proof.
  induction before as [|r0 before IH]; intros total F Habs; cbn.
  - by rewrite (getitem_absent _ _ _ Habs).
  - apply Forall_cons in F as [(v & Hv & Hk) F].
    unfold Row.getitem at 1. rewrite Hv. cbn.
    destruct Hk as [->|[n Hn]]; cbn; [by apply IH|].
    destruct (is_none v); cbn; [by apply IH|].
    unfold SimpleQuery.add_to. rewrite Hn. cbn. by apply IH.
Qed.

Lemma collect_values_absent h column r after : ∀ before values,
  row_data (row_at h r) !! column = None →
  Forall (summable h column) before →
  SimpleQuery.collect_values h column (before ++ r :: after) values
  = Raise (KeyError (MissingKey column)).
Proof.
  induction before as [|r0 before IH]; intros values Habs F; cbn.
  - by rewrite (getitem_absent _ _ _ Habs).
  - apply Forall_cons in F as [(v & Hv & _) F].
    unfold Row.getitem at 1. rewrite Hv. cbn. by apply IH.
Qed.

(** C10, as the code has it.  [insert] stores the dict it is given, key
    for key, and a Row lookup of an absent key raises [KeyError].  A query
    raises that [KeyError] when its evaluation reaches such a lookup
    before any other error: a where clause on a row that lacks its column and
    passes the clauses before it, the rows before it having been filtered
    without error; an order-by column that a row passing the filter lacks;
    a sum or avg column that a kept row lacks, the kept rows before it
    holding null or numbers there. *)
Theorem absent_column_raises_when_reached (h : Heap) :
  (∀ self d h' row,
     Table.insert self d h = (h', Ok row) →
     row_data (row_at h' row) = d ∧
     ∀ key, d !! key = None → Row.getitem h' row key = Raise (KeyError (MissingKey key))) ∧
  (∀ q r pre column operator v post,
     q_filter_conditions q = (pre ++ (column, operator, v) :: post)%list →
     SimpleQuery.matches_clauses h pre r = Ok true →
     row_data (row_at h r) !! column = None →
     SimpleQuery._matches h q r = Raise (KeyError (MissingKey column))) ∧
  (∀ q before r after e,
     source_iter h (q_table q) = (before ++ r :: after)%list →
     is_Ok (SimpleQuery.filter_rows h q before) = true →
     SimpleQuery._matches h q r = Raise e →
     query_raises h q e) ∧
  (∀ q column filtered r,
     q_sort_column q = Some column →
     SimpleQuery.filter_rows h q (source_iter h (q_table q)) = Ok filtered →
     r ∈ filtered →
     row_data (row_at h r) !! column = None →
     query_raises h q (KeyError (MissingKey column))) ∧
  (∀ q column before r after,
     SimpleQuery._filtered_rows h q = Ok (before ++ r :: after)%list →
     Forall (summable h column) before →
     row_data (row_at h r) !! column = None →
     SimpleQuery.sum h q column = Raise (KeyError (MissingKey column)) ∧
     SimpleQuery.avg h q column = Raise (KeyError (MissingKey column))).
Proof.
  split; [|split; [|split; [|split]]].
  - intros self d h' row Hins.
    destruct (Table.check_columns (tbl_columns (table_at h self)) d) as [[]|e0] eqn:V.
    + destruct (insert_Ok_state _ _ _ V) as (h1 & Hins' & Hr & _).
      rewrite Hins in Hins'. injection Hins' as <- ->.
      rewrite Hr. split; [done|]. intros key Hk.
      apply getitem_absent. by rewrite Hr.
    + rewrite (insert_Raise _ _ _ _ V) in Hins. discriminate.
  - intros q r pre column operator v post Hq Hpre Habs.
    unfold SimpleQuery._matches. rewrite Hq. by apply matches_clauses_absent.
  - intros q before r after e Hsrc Hb Hr. apply filtered_rows_raises_all.
    unfold SimpleQuery._filtered_rows.
    by rewrite Hsrc, (filter_rows_raises _ _ _ _ _ _ Hb Hr).
  - intros q column filtered r Hcol Hf Hin Habs. apply filtered_rows_raises_all.
    unfold SimpleQuery._filtered_rows. rewrite Hf, Hcol. cbn [rbind].
    by rewrite (decorate_absent _ _ _ _ Hin Habs).
  - intros q column before r after Hf F Habs.
    unfold SimpleQuery.sum, SimpleQuery.avg. rewrite Hf. cbn [rbind].
    rewrite (sum_loop_absent _ _ _ _ _ _ F Habs).
    by rewrite (collect_values_absent _ _ _ _ _ _ Habs F).
Qed.

Lemma absent_column_raises_when_reached_witness :
  (row_data (row_at (fst (Table.insert sparse_table (<["a" := VInt 3]> ∅) sparse_heap)) 2%nat)
   = <["a" := VInt 3]> ∅) ∧
  SimpleQuery._matches sparse_heap
    (SimpleQuery.where_ a_is_2 "b" ">" (VInt 1)) 1%nat = Ok true ∧
  query_raises sparse_heap
    (SimpleQuery.where_ (SimpleQuery.init (FromTable sparse_table)) "b" ">" (VInt 1))
    (KeyError (MissingKey "b")) ∧
  query_raises sparse_heap
    (SimpleQuery.order_by (SimpleQuery.init (FromTable sparse_table)) "b" true)
    (KeyError (MissingKey "b")) ∧
  SimpleQuery.sum sparse_heap (SimpleQuery.init (FromTable sparse_table)) "b"
  = Raise (KeyError (MissingKey "b")).
Proof.
  destruct (absent_column_raises_when_reached sparse_heap)
    as (Hins & Hmatch & Hwhere & Horder & Hsum).
  split; [|split; [|split; [|split]]].
  - apply (Hins sparse_table (<["a" := VInt 3]> ∅) _ 2%nat). vm_compute. reflexivity.
  - vm_compute. reflexivity.
  - apply (Hwhere _ [] 0%nat [1%nat]).
    + vm_compute. reflexivity.
    + reflexivity.
    + apply (Hmatch _ 0%nat [] "b" ">" (VInt 1) []); vm_compute; reflexivity.
  - apply (Horder _ "b" [0; 1]%nat 0%nat).
    + reflexivity.
    + vm_compute. reflexivity.
    + apply list_elem_of_here.
    + vm_compute. reflexivity.
  - apply (Hsum _ "b" [] 0%nat [1%nat]).
    + vm_compute. reflexivity.
    + constructor.
    + vm_compute. reflexivity.
Defined.

(** C10 as stated fails: the first row of the sparse Table has no [b], yet
    queries that name [b] return when the filter [a = 2] keeps that row away
    from the lookup. *)
Lemma absent_column_not_reached_counterexample :
  0%nat ∈ source_iter sparse_heap (q_table a_is_2) ∧
  row_data (row_at sparse_heap 0%nat) !! "b" = None ∧
  SimpleQuery.sum sparse_heap a_is_2 "b" = Ok 5 ∧
  SimpleQuery.avg sparse_heap a_is_2 "b" = Ok (5 # 1)%Q ∧
  SimpleQuery.execute (SimpleQuery.order_by a_is_2 "b" true) sparse_heap
  = (sparse_heap, Ok [1%nat]) ∧
  SimpleQuery.count sparse_heap (SimpleQuery.where_ a_is_2 "b" ">" (VInt 1)) = Ok 1.
Proof.
  split; [vm_compute; apply list_elem_of_here|].
  repeat split; vm_compute; reflexivity.
Qed.

(** ** create_table *)

Lemma check_foreign_keys_app h tables pre : ∀ rest,
  Database.check_foreign_keys h tables pre = Ok tt →
  Database.check_foreign_keys h tables (pre ++ rest)
  = Database.check_foreign_keys h tables rest.
Proof.
  induction pre as [|c pre IH]; intros rest; cbn; [done|].
  destruct (Database.check_foreign_key h tables c) as [[]|]; cbn; [|done].
  apply IH.
Qed.

Lemma create_table_duplicate h self name columns :
  name ∈ dom (db_tables (db_at h self)) →
  Database.create_table self name columns h = (h, Raise (ValueError (TableExists name))).
Proof.
  intros Hin. unfold Database.create_table, bind, get_heap, raise.
  by rewrite decide_True.
Qed.

Lemma create_table_bad_foreign_key h self name columns e :
  name ∉ dom (db_tables (db_at h self)) →
  Database.check_foreign_keys h (db_tables (db_at h self)) columns = Raise e →
  Database.create_table self name columns h = (h, Raise e).
Proof.
  intros Hout Hfk. unfold Database.create_table, bind, get_heap, lift.
  rewrite decide_False by done. by rewrite Hfk.
Qed.

(** With a free name and sound foreign keys the Table is created and
    registered under its name. *)
Lemma create_table_Ok h self name columns :
  name ∉ dom (db_tables (db_at h self)) →
  Database.check_foreign_keys h (db_tables (db_at h self)) columns = Ok tt →
  ∃ h' table,
    Database.create_table self name columns h = (h', Ok table) ∧
    db_tables (db_at h' self) = <[name := table]> (db_tables (db_at h self)) ∧
    tbl_name (table_at h' table) = name ∧
    Table.iter h' table = [].
Proof.
  intros Hout Hfk. unfold Database.create_table, bind, get_heap, lift.
  rewrite decide_False by done. rewrite Hfk.
  destruct (init_state h name columns) as (h1 & t & -> & Ht & Hi & _ & Hdb).
  cbn [modify_heap ret]. eexists _, _. split; [reflexivity|].
  unfold db_at at 1. unfold set_db at 1. cbn [db_objs].
  rewrite lookup_total_insert_eq. cbn [db_tables].
  assert (db_at h1 self = db_at h self) as -> by (unfold db_at; by rewrite Hdb).
  change (table_at (set_db ?d ?x h1) t) with (table_at h1 t).
  change (Table.iter (set_db ?d ?x h1) t) with (Table.iter h1 t).
  by rewrite Ht, Hi.
Qed.

(** C6: [create_table] raises the already-exists error for a registered
    name; with a free name, the first column whose foreign key is unsound
    decides the error (referenced table missing, referenced column
    missing, referenced column not a primary key); and whenever it raises,
    the heap, and with it the catalog of the Database, is as it was. *)
Theorem create_table_failures (h : Heap) (self : loc) (name : string)
  (columns : list Column) :
  (name ∈ dom (db_tables (db_at h self)) →
   Database.create_table self name columns h
   = (h, Raise (ValueError (TableExists name)))) ∧
  (∀ pre col post ref_table_name ref_column_name,
     name ∉ dom (db_tables (db_at h self)) →
     columns = (pre ++ col :: post)%list →
     Database.check_foreign_keys h (db_tables (db_at h self)) pre = Ok tt →
     col_foreign_key col = Some (ref_table_name, ref_column_name) →
     (db_tables (db_at h self) !! ref_table_name = None →
      Database.create_table self name columns h
      = (h, Raise (ValueError (RefTableMissing ref_table_name)))) ∧
     (∀ ref_table,
        db_tables (db_at h self) !! ref_table_name = Some ref_table →
        odict_get (tbl_columns (table_at h ref_table)) ref_column_name = None →
        Database.create_table self name columns h
        = (h, Raise (ValueError (RefColumnMissing ref_column_name ref_table_name)))) ∧
     (∀ ref_table c,
        db_tables (db_at h self) !! ref_table_name = Some ref_table →
        odict_get (tbl_columns (table_at h ref_table)) ref_column_name = Some c →
        col_primary_key c = false →
        Database.create_table self name columns h
        = (h, Raise (ValueError FKNotPrimary)))) ∧
  (∀ h' e, Database.create_table self name columns h = (h', Raise e) → h' = h).
Proof.
  split; [apply create_table_duplicate|]. split.
  - intros pre col post rt rc Hout -> Hpre Hfk.
    assert (∀ e, Database.check_foreign_key h (db_tables (db_at h self)) col = Raise e →
                 Database.create_table self name (pre ++ col :: post) h = (h, Raise e))
      as Hraise.
    { intros e He. apply create_table_bad_foreign_key; [done|].
      rewrite (check_foreign_keys_app _ _ _ _ Hpre). cbn. by rewrite He. }
    unfold Database.check_foreign_key in Hraise. rewrite Hfk in Hraise.
    split; [|split].
    + intros Hnone. apply Hraise. by rewrite Hnone.
    + intros t Ht Hc. apply Hraise. by rewrite Ht, Hc.
    + intros t c Ht Hc Hpk. apply Hraise. by rewrite Ht, Hc, Hpk.
  - intros h' e H.
    destruct (decide (name ∈ dom (db_tables (db_at h self)))) as [Hin|Hout].
    + rewrite (create_table_duplicate _ _ _ _ Hin) in H. congruence.
    + destruct (Database.check_foreign_keys h (db_tables (db_at h self)) columns)
        as [[]|e0] eqn:Hfk.
      * destruct (create_table_Ok _ _ _ _ Hout Hfk) as (h1 & t & E & _). congruence.
      * rewrite (create_table_bad_foreign_key _ _ _ _ _ Hout Hfk) in H. congruence.
Qed.

Lemma create_table_failures_witness :
  Database.create_table the_db "users" [] users_db_heap
  = (users_db_heap, Raise (ValueError (TableExists "users"))) ∧
  Database.create_table the_db "orders" [fk_column "unknown" "id"] users_db_heap
  = (users_db_heap, Raise (ValueError (RefTableMissing "unknown"))) ∧
  Database.create_table the_db "orders" [fk_column "users" "email"] users_db_heap
  = (users_db_heap, Raise (ValueError (RefColumnMissing "email" "users"))) ∧
  Database.create_table the_db "orders" [fk_column "users" "name"] users_db_heap
  = (users_db_heap, Raise (ValueError FKNotPrimary)) ∧
  (∀ h' e, Database.create_table the_db "orders" [fk_column "users" "name"] users_db_heap
           = (h', Raise e) → h' = users_db_heap).
Proof.
  assert (∀ name, name ≠ "users" →
            name ∉ dom (db_tables (db_at users_db_heap the_db))) as Hfree.
  { intros name Hne Hin. apply elem_of_dom in Hin as [t Ht]. vm_compute in Ht.
    change (({["users" := 0%nat]} : gmap string loc) !! name = Some t) in Ht.
    by rewrite lookup_singleton_ne in Ht. }
  split; [|split; [|split; [|split]]].
  - apply (proj1 (create_table_failures users_db_heap the_db "users" [])).
    apply elem_of_dom. vm_compute. eauto.
  - destruct (proj1 (proj2 (create_table_failures users_db_heap the_db "orders"
                              [fk_column "unknown" "id"]))
                [] (fk_column "unknown" "id") [] "unknown" "id") as (H1 & _ & _);
      [by apply Hfree|reflexivity|reflexivity|reflexivity|].
    apply H1. vm_compute. reflexivity.
  - destruct (proj1 (proj2 (create_table_failures users_db_heap the_db "orders"
                              [fk_column "users" "email"]))
                [] (fk_column "users" "email") [] "users" "email") as (_ & H2 & _);
      [by apply Hfree|reflexivity|reflexivity|reflexivity|].
    apply (H2 0%nat); vm_compute; reflexivity.
  - destruct (proj1 (proj2 (create_table_failures users_db_heap the_db "orders"
                              [fk_column "users" "name"]))
                [] (fk_column "users" "name") [] "users" "name") as (_ & _ & H3);
      [by apply Hfree|reflexivity|reflexivity|reflexivity|].
    apply (H3 0%nat (mkColumn "name" (StringType (Some 50)) false false None));
      vm_compute; reflexivity.
  - apply (proj2 (proj2 (create_table_failures users_db_heap the_db "orders"
                           [fk_column "users" "name"]))).
Defined.

(** ** Joins *)

Example users_orders_rows :
  snd (JoinedTable._build_rows users_orders shop_heap) = Ok [5; 6; 7]%nat.
Proof. vm_compute. reflexivity. Qed.

Example self_join_rows :
  snd (JoinedTable._build_rows self_join pairs_heap) = Ok [2; 3; 4; 5]%nat.
Proof. vm_compute. reflexivity. Qed.

Lemma string_app_inv_head (s a b : string) : s ++ a = s ++ b → a = b.
Proof. induction s as [|c s IH]; cbn; [done|]. intros [= H]. auto. Qed.

#[global] Instance prefixed_inj table_name : Inj (=) (=) (JoinedTable.prefixed table_name).
Proof.
  intros k k' H. unfold JoinedTable.prefixed in H.
  apply string_app_inv_head in H. by apply (string_app_inv_head ".") in H.
Qed.

(** Two dot-free table names that give one prefixed name are one name. *)
Lemma prefixed_same_table a : ∀ b k k',
  no_dot a = true → no_dot b = true →
  JoinedTable.prefixed a k = JoinedTable.prefixed b k' → a = b.
Proof.
  unfold JoinedTable.prefixed.
  induction a as [|c a IH]; intros [|d b] k k' Ha Hb; cbn in *.
  - done.
  - intros [= <- _]. done.
  - intros [= -> _]. done.
  - apply andb_prop in Ha as [_ Ha]. apply andb_prop in Hb as [_ Hb].
    intros [= -> H]. f_equal. by eapply IH.
Qed.

Lemma foldl_insert_union (l : list (string * value)) : ∀ d : fields,
  NoDup l.*1 →
  foldl (fun d kv => <[fst kv := snd kv]> d) d l = list_to_map l ∪ d.
Proof.
  induction l as [|[k v] l IH]; intros d N; cbn.
  - by rewrite (left_id_L ∅ (∪)).
  - apply NoDup_cons in N as [Hk N]. rewrite (IH _ N).
    rewrite <- insert_union_r by (by apply not_elem_of_list_to_map_1).
    by rewrite insert_union_l.
Qed.

Lemma add_prefixed_kmap table_name (m data : fields) :
  JoinedTable.add_prefixed table_name (map_to_list m) data
  = kmap (JoinedTable.prefixed table_name) m ∪ data.
Proof.
  unfold JoinedTable.add_prefixed, kmap.
  rewrite <- foldl_insert_union.
  - generalize (map_to_list m). intros l. revert data.
    induction l as [|[k v] l IH]; intros data; cbn; [done|]. apply IH.
  - rewrite <- list_fmap_compose.
    replace (fst ∘ prod_map (JoinedTable.prefixed table_name) id)
      with (JoinedTable.prefixed table_name ∘ (fst : string * value → string))
      by done.
    rewrite list_fmap_compose. apply NoDup_fmap_2; [apply _|].
    apply NoDup_fst_map_to_list.
Qed.

Lemma pair_data_union h left_name right_name l r :
  JoinedTable.pair_data h left_name right_name l r
  = prefixed_union left_name right_name (row_data (row_at h l)) (row_data (row_at h r)).
Proof.
  unfold JoinedTable.pair_data, Row.items, prefixed_union.
  rewrite !add_prefixed_kmap. by rewrite (right_id_L ∅ (∪)).
Qed.

(** What a prefixed union holds: every right field under its prefixed
    name; every left field whose prefixed name no right field takes; and
    nothing else. *)
Lemma prefixed_union_lookup left_name right_name (ldata rdata : fields) :
  let data := prefixed_union left_name right_name ldata rdata in
  (∀ k v, rdata !! k = Some v →
          data !! JoinedTable.prefixed right_name k = Some v) ∧
  (∀ k v, ldata !! k = Some v →
          (∀ k', k' ∈ dom rdata →
                 JoinedTable.prefixed right_name k' ≠ JoinedTable.prefixed left_name k) →
          data !! JoinedTable.prefixed left_name k = Some v) ∧
  (∀ key v, data !! key = Some v →
            (∃ k, key = JoinedTable.prefixed right_name k ∧ rdata !! k = Some v) ∨
            (∃ k, key = JoinedTable.prefixed left_name k ∧ ldata !! k = Some v)).
Proof.
  unfold prefixed_union. cbn zeta. split; [|split].
  - intros k v Hk. apply lookup_union_Some_l. rewrite lookup_kmap; [done|apply _].
  - intros k v Hk Hfree. rewrite lookup_union_r.
    + rewrite lookup_kmap; [done|apply _].
    + apply lookup_kmap_None; [apply _|]. intros k' E.
      destruct (rdata !! k') as [w|] eqn:Hk'; [|done].
      exfalso. apply (Hfree k'); [|done]. apply elem_of_dom. eauto.
  - intros key v H. apply lookup_union_Some_raw in H as [H|[_ H]].
    + left. by apply lookup_kmap_Some in H; [|apply _].
    + right. by apply lookup_kmap_Some in H; [|apply _].
Qed.

(** *** The heap during the loops *)

Lemma extends_refl h : extends h h.
Proof. by repeat split. Qed.

Lemma extends_trans h1 h2 h3 : extends h1 h2 → extends h2 h3 → extends h1 h3.
Proof.
  intros (Hl & Ht & Hr) (Hl' & Ht' & Hr'). repeat split; try congruence.
  - by apply Hr', Hr.
  - destruct (Hr r H) as [Hin E]. destruct (Hr' r Hin) as [_ E']. congruence.
Qed.

Lemma extends_new_row h x :
  let r := fresh (dom (row_objs h)) in
  extends h (set_row r x h) ∧
  r ∈ dom (row_objs (set_row r x h)) ∧ row_at (set_row r x h) r = x.
Proof.
  cbn zeta. split; [|split].
  - repeat split.
    + cbn. rewrite dom_insert_L. set_solver.
    + apply row_at_set_row_ne. intros E. apply (fresh_row_not_allocated h). by rewrite E.
  - cbn. rewrite dom_insert_L. set_solver.
  - apply row_at_set_row_eq.
Qed.

Lemma extends_getitem h0 h r key :
  extends h0 h → r ∈ dom (row_objs h0) → Row.getitem h r key = Row.getitem h0 r key.
Proof. intros (_ & _ & Hr) Hin. unfold Row.getitem. by destruct (Hr r Hin) as [_ ->]. Qed.

Lemma extends_pair_data h0 h left_name right_name l r :
  extends h0 h → l ∈ dom (row_objs h0) → r ∈ dom (row_objs h0) →
  JoinedTable.pair_data h left_name right_name l r
  = JoinedTable.pair_data h0 left_name right_name l r.
Proof.
  intros (_ & _ & Hr) Hl Hr'. unfold JoinedTable.pair_data, Row.items.
  destruct (Hr l Hl) as [_ ->]. by destruct (Hr r Hr') as [_ ->].
Qed.

Lemma extends_table h0 h t :
  extends h0 h → table_at h t = table_at h0 t ∧ Table.iter h t = Table.iter h0 t.
Proof.
  intros (Hl & Ht & _). unfold Table.iter, table_at, list_at. by rewrite Hl, Ht.
Qed.

Lemma joined_row_extends h0 h h' left_name right_name row p :
  extends h h' → joined_row h0 h left_name right_name row p →
  joined_row h0 h' left_name right_name row p.
Proof.
  intros (_ & _ & Hr) [Hin Hrow]. destruct (Hr row Hin) as [Hin' E].
  split; [done|]. by rewrite E.
Qed.

Lemma inner_loop_cons left_name right_name left_column right_column l r rest acc h :
  JoinedTable.inner_loop left_name right_name left_column right_column l (r :: rest) acc h
  = match Row.getitem h l left_column with
    | Raise e => (h, Raise e)
    | Ok lv =>
        match Row.getitem h r right_column with
        | Raise e => (h, Raise e)
        | Ok rv =>
            if py_eq lv rv
            then JoinedTable.inner_loop left_name right_name left_column right_column
                   l rest (acc ++ [fresh (dom (row_objs h))])%list
                   (set_row (fresh (dom (row_objs h)))
                      (mkRow (JoinedTable.pair_data h left_name right_name l r) None) h)
            else JoinedTable.inner_loop left_name right_name left_column right_column
                   l rest acc h
        end
    end.
Proof.
  cbn [JoinedTable.inner_loop]. unfold bind at 1 2 3 4, get_heap, lift.
  destruct (Row.getitem h l left_column) as [lv|]; [|done].
  destruct (Row.getitem h r right_column) as [rv|]; [|done].
  by destruct (py_eq lv rv).
Qed.

(** The inner loop against its pairs. *)
Lemma inner_loop_spec left_name right_name left_column right_column l h0 :
  l ∈ dom (row_objs h0) →
  ∀ right_rows h acc,
    extends h0 h →
    Forall (fun r => r ∈ dom (row_objs h0)) right_rows →
    match inner_pairs h0 left_column right_column l right_rows with
    | Raise e =>
        ∃ h', JoinedTable.inner_loop left_name right_name left_column right_column
                l right_rows acc h = (h', Raise e) ∧ extends h h'
    | Ok ps =>
        ∃ h' new,
          JoinedTable.inner_loop left_name right_name left_column right_column
            l right_rows acc h = (h', Ok (acc ++ new)%list) ∧
          extends h h' ∧
          Forall2 (joined_row h0 h' left_name right_name) new ps
    end.
Proof.
  intros Hl. induction right_rows as [|r rest IH]; intros h acc Hext Halloc.
  - cbn. exists h, []. rewrite app_nil_r. auto using extends_refl.
  - apply Forall_cons in Halloc as [Hr Halloc].
    rewrite inner_loop_cons. cbn [inner_pairs].
    rewrite (extends_getitem _ _ _ _ Hext Hl), (extends_getitem _ _ _ _ Hext Hr).
    destruct (Row.getitem h0 l left_column) as [lv|e]; cbn [rbind];
      [|eauto using extends_refl].
    destruct (Row.getitem h0 r right_column) as [rv|e]; cbn [rbind];
      [|eauto using extends_refl].
    destruct (py_eq lv rv).
    + destruct (extends_new_row h
                  (mkRow (JoinedTable.pair_data h left_name right_name l r) None))
        as (Hext1 & Hin1 & Hrow1).
      set (row := fresh (dom (row_objs h))) in *.
      set (h1 := set_row row _ h) in *.
      specialize (IH h1 (acc ++ [row])%list (extends_trans _ _ _ Hext Hext1) Halloc).
      destruct (inner_pairs h0 left_column right_column l rest) as [ps|e]; cbn [rbind].
      * destruct IH as (h' & new & -> & Hext' & Hnew).
        exists h', (row :: new). rewrite <- app_assoc. split; [done|].
        split; [by eapply extends_trans|]. constructor; [|done].
        apply (joined_row_extends _ h1); [done|]. split; [done|].
        rewrite Hrow1. by rewrite (extends_pair_data _ _ _ _ _ _ Hext Hl Hr).
      * destruct IH as (h' & -> & Hext'). exists h'. split; [done|].
        by eapply extends_trans.
    + specialize (IH h acc Hext Halloc).
      destruct (inner_pairs h0 left_column right_column l rest) as [ps|e]; cbn [rbind];
        exact IH.
Qed.

Lemma outer_loop_cons self l rest acc h :
  JoinedTable.outer_loop self (l :: rest) acc h
  = match JoinedTable.inner_loop (tbl_name (table_at h (j_left self)))
            (tbl_name (table_at h (j_right self)))
            (j_left_column self) (j_right_column self)
            l (Table.iter h (j_right self)) acc h with
    | (h', Ok acc') => JoinedTable.outer_loop self rest acc' h'
    | (h', Raise e) => (h', Raise e)
    end.
Proof. reflexivity. Qed.

(** The nested loops against their pairs. *)
Lemma outer_loop_spec self h0 :
  Forall (fun r => r ∈ dom (row_objs h0)) (Table.iter h0 (j_right self)) →
  ∀ left_rows h acc,
    extends h0 h →
    Forall (fun r => r ∈ dom (row_objs h0)) left_rows →
    match outer_pairs h0 (j_left_column self) (j_right_column self) left_rows
            (Table.iter h0 (j_right self)) with
    | Raise e =>
        ∃ h', JoinedTable.outer_loop self left_rows acc h = (h', Raise e) ∧ extends h h'
    | Ok ps =>
        ∃ h' new,
          JoinedTable.outer_loop self left_rows acc h = (h', Ok (acc ++ new)%list) ∧
          extends h h' ∧
          Forall2 (joined_row h0 h' (tbl_name (table_at h0 (j_left self)))
                     (tbl_name (table_at h0 (j_right self)))) new ps
    end.
Proof.
  intros Hright. induction left_rows as [|l rest IH]; intros h acc Hext Halloc.
  - cbn. exists h, []. rewrite app_nil_r. auto using extends_refl.
  - apply Forall_cons in Halloc as [Hl Halloc].
    rewrite outer_loop_cons. cbn [outer_pairs].
    destruct (extends_table _ _ (j_left self) Hext) as [-> _].
    destruct (extends_table _ _ (j_right self) Hext) as [-> ->].
    pose proof (inner_loop_spec (tbl_name (table_at h0 (j_left self)))
                  (tbl_name (table_at h0 (j_right self)))
                  (j_left_column self) (j_right_column self) l h0 Hl
                  (Table.iter h0 (j_right self)) h acc Hext Hright) as Hin.
    destruct (inner_pairs h0 _ _ l _) as [ps|e]; cbn [rbind].
    + destruct Hin as (h1 & new & -> & Hext1 & Hnew).
      specialize (IH h1 (acc ++ new)%list (extends_trans _ _ _ Hext Hext1) Halloc).
      destruct (outer_pairs h0 _ _ rest _) as [qs|e]; cbn [rbind].
      * destruct IH as (h' & new' & -> & Hext' & Hnew').
        exists h', (new ++ new')%list. rewrite app_assoc. split; [done|].
        split; [by eapply extends_trans|].
        apply Forall2_app; [|done].
        eapply Forall2_impl; [exact Hnew|]. intros row p.
        by apply joined_row_extends.
      * destruct IH as (h' & -> & Hext'). exists h'. split; [done|].
        by eapply extends_trans.
    + destruct Hin as (h1 & -> & Hext1). eauto.
Qed.

Lemma inner_pairs_Ok h left_column right_column l : ∀ right_rows ps,
  inner_pairs h left_column right_column l right_rows = Ok ps →
  ps = List.filter
         (fun p => py_eq (cell h left_column (fst p)) (cell h right_column (snd p)))
         (map (pair l) right_rows).
Proof.
  induction right_rows as [|r rest IH]; intros ps; cbn.
  - by intros [= <-].
  - destruct (Row.getitem h l left_column) as [lv|] eqn:El; cbn; [|done].
    destruct (Row.getitem h r right_column) as [rv|] eqn:Er; cbn; [|done].
    destruct (inner_pairs h left_column right_column l rest) as [qs|]; cbn; [|done].
    intros [= <-]. rewrite (getitem_cell _ _ _ _ El), (getitem_cell _ _ _ _ Er).
    rewrite (IH qs eq_refl). by destruct (py_eq lv rv).
Qed.

Lemma outer_pairs_Ok h left_column right_column right_rows : ∀ left_rows ps,
  outer_pairs h left_column right_column left_rows right_rows = Ok ps →
  ps = equal_pairs h left_column right_column left_rows right_rows.
Proof.
  unfold equal_pairs. induction left_rows as [|l rest IH]; intros ps; cbn.
  - by intros [= <-].
  - destruct (inner_pairs h left_column right_column l right_rows) as [qs|] eqn:E;
      cbn; [|done].
    destruct (outer_pairs h left_column right_column rest right_rows) as [qs'|];
      cbn; [|done].
    intros [= <-]. rewrite List.filter_app.
    by rewrite (inner_pairs_Ok _ _ _ _ _ _ E), (IH qs' eq_refl).
Qed.

Lemma inner_pairs_total h left_column right_column l right_rows :
  is_Some (row_data (row_at h l) !! left_column) →
  Forall (fun r => is_Some (row_data (row_at h r) !! right_column)) right_rows →
  ∃ ps, inner_pairs h left_column right_column l right_rows = Ok ps.
Proof.
  intros [lv Hl]. induction 1 as [|r rest [rv Hr] _ [ps IH]]; cbn; [eauto|].
  unfold Row.getitem at 1 2. rewrite Hl, Hr. cbn. rewrite IH. cbn. eauto.
Qed.

Lemma outer_pairs_total h left_column right_column left_rows right_rows :
  Forall (fun l => is_Some (row_data (row_at h l) !! left_column)) left_rows →
  Forall (fun r => is_Some (row_data (row_at h r) !! right_column)) right_rows →
  ∃ ps, outer_pairs h left_column right_column left_rows right_rows = Ok ps.
Proof.
  intros Hl Hr. induction Hl as [|l rest Hl _ [qs IH]]; cbn; [eauto|].
  destruct (inner_pairs_total h left_column right_column l right_rows Hl Hr) as [ps ->].
  cbn. rewrite IH. cbn. eauto.
Qed.

(** C7, as the code has it.  Over source Tables whose Rows are on the heap,
    [_build_rows] returns whenever every left Row has the left column and
    every right Row the right one; the Rows it returns are, pair by pair
    and left-major, the prefixed unions of the pairs whose join columns
    compare equal.  Such a union holds every right field under its prefixed
    name, every left field whose prefixed name no right field takes, and
    nothing else; and a left and a right prefixed name never coincide when
    the two Table names differ and contain no dot. *)
Theorem join_rows_are_prefixed_unions (h : Heap) (self : JoinedTable) :
  let left_rows := Table.iter h (j_left self) in
  let right_rows := Table.iter h (j_right self) in
  let left_name := tbl_name (table_at h (j_left self)) in
  let right_name := tbl_name (table_at h (j_right self)) in
  Forall (fun r => r ∈ dom (row_objs h)) (left_rows ++ right_rows) →
  (Forall (fun l => is_Some (row_data (row_at h l) !! j_left_column self)) left_rows →
   Forall (fun r => is_Some (row_data (row_at h r) !! j_right_column self)) right_rows →
   ∃ h' rows, JoinedTable._build_rows self h = (h', Ok rows)) ∧
  (∀ h' rows,
     JoinedTable._build_rows self h = (h', Ok rows) →
     extends h h' ∧
     Forall2 (fun row p =>
                row_at h' row
                = mkRow (prefixed_union left_name right_name
                           (row_data (row_at h (fst p))) (row_data (row_at h (snd p))))
                    None)
       rows
       (equal_pairs h (j_left_column self) (j_right_column self) left_rows right_rows)) ∧
  (∀ ldata rdata : fields,
     (∀ k v, rdata !! k = Some v →
             prefixed_union left_name right_name ldata rdata
               !! JoinedTable.prefixed right_name k = Some v) ∧
     (∀ k v, ldata !! k = Some v →
             (∀ k', k' ∈ dom rdata →
                    JoinedTable.prefixed right_name k' ≠ JoinedTable.prefixed left_name k) →
             prefixed_union left_name right_name ldata rdata
               !! JoinedTable.prefixed left_name k = Some v) ∧
     (∀ key v, prefixed_union left_name right_name ldata rdata !! key = Some v →
               (∃ k, key = JoinedTable.prefixed right_name k ∧ rdata !! k = Some v) ∨
               (∃ k, key = JoinedTable.prefixed left_name k ∧ ldata !! k = Some v))) ∧
  (left_name ≠ right_name → no_dot left_name = true → no_dot right_name = true →
   ∀ k k', JoinedTable.prefixed left_name k ≠ JoinedTable.prefixed right_name k').
Proof.
  cbn zeta. intros Halloc. apply Forall_app in Halloc as [Hleft Hright].
  pose proof (outer_loop_spec self h Hright (Table.iter h (j_left self)) h []
                (extends_refl h) Hleft) as Hspec.
  split; [|split; [|split]].
  - intros Hl Hr.
    destruct (outer_pairs_total h (j_left_column self) (j_right_column self) _ _ Hl Hr)
      as [ps Hps].
    rewrite Hps in Hspec. destruct Hspec as (h' & new & E & _). eauto.
  - intros h' rows Hbuild.
    unfold JoinedTable._build_rows, bind, get_heap in Hbuild.
    destruct (outer_pairs h _ _ _ _) as [ps|e] eqn:Hps.
    + destruct Hspec as (h1 & new & E & Hext & Hnew).
      rewrite Hbuild in E. injection E as <- ->.
      apply outer_pairs_Ok in Hps as <-.
      split; [done|]. eapply Forall2_impl; [exact Hnew|].
      intros row p [_ ->]. by rewrite pair_data_union.
    + destruct Hspec as (h1 & E & _). congruence.
  - intros ldata rdata. apply prefixed_union_lookup.
  - intros Hne Hl Hr k k' E. apply Hne. by eapply prefixed_same_table.
Qed.

Lemma join_rows_are_prefixed_unions_witness :
  (∃ h' rows, JoinedTable._build_rows users_orders shop_heap = (h', Ok rows)) ∧
  (∀ h' rows,
     JoinedTable._build_rows users_orders shop_heap = (h', Ok rows) →
     extends shop_heap h' ∧
     Forall2 (fun row p =>
                row_at h' row
                = mkRow (prefixed_union "users" "orders"
                           (row_data (row_at shop_heap (fst p)))
                           (row_data (row_at shop_heap (snd p))))
                    None)
       rows
       (equal_pairs shop_heap "id" "user_id" [0; 1]%nat [2; 3; 4]%nat)) ∧
  (∀ k k', JoinedTable.prefixed "users" k ≠ JoinedTable.prefixed "orders" k').
Proof.
  pose proof (join_rows_are_prefixed_unions shop_heap users_orders) as H.
  cbv zeta in H.
  assert (Forall (fun r => r ∈ dom (row_objs shop_heap))
            (Table.iter shop_heap (j_left users_orders)
             ++ Table.iter shop_heap (j_right users_orders))) as Halloc.
  { change (Forall (fun r => r ∈ dom (row_objs shop_heap)) [0; 1; 2; 3; 4]%nat).
    repeat constructor; apply elem_of_dom; vm_compute; eauto. }
  specialize (H Halloc). destruct H as (Hreturns & Hrows & _ & Hdistinct).
  split; [|split].
  - apply Hreturns.
    + change (Forall (fun l => is_Some (row_data (row_at shop_heap l) !! "id"))
                [0; 1]%nat).
      repeat constructor; vm_compute; eauto.
    + change (Forall (fun r => is_Some (row_data (row_at shop_heap r) !! "user_id"))
                [2; 3; 4]%nat).
      repeat constructor; vm_compute; eauto.
  - exact Hrows.
  - apply Hdistinct; [intros E; vm_compute in E; discriminate E| |];
      vm_compute; reflexivity.
Defined.

(** C7 as stated fails: in the join of the Table [t] with itself on [k],
    the output Row for the first left Row (v = 10) and the second right Row
    (v = 20) holds 20 under [t.v]: the left field's prefixed name is the
    right field's, and the right one overwrote it. *)
Lemma self_join_overwrites_left_counterexample :
  ∃ h' rows row,
    JoinedTable._build_rows self_join pairs_heap = (h', Ok rows) ∧
    rows !! 1%nat = Some row ∧
    equal_pairs pairs_heap "k" "k" [0; 1]%nat [0; 1]%nat !! 1%nat = Some (0, 1)%nat ∧
    row_data (row_at pairs_heap 0%nat) !! "v" = Some (VInt 10) ∧
    row_data (row_at h' row) !! JoinedTable.prefixed "t" "v" = Some (VInt 20) ∧
    JoinedTable.prefixed (tbl_name (table_at pairs_heap (j_left self_join))) "v"
    = JoinedTable.prefixed (tbl_name (table_at pairs_heap (j_right self_join))) "v".
Proof.
  eexists _, _, _.
  split; [vm_compute; reflexivity|]. split; [vm_compute; reflexivity|].
  split; [vm_compute; reflexivity|]. split; [vm_compute; reflexivity|].
  split; vm_compute; reflexivity.
Qed.

(** * Further properties of the code *)

(** ** The state a Table keeps *)

Lemma id_Some_allocated h r i : row_id (row_at h r) = Some i → r ∈ dom (row_objs h).
Proof.
  unfold row_at. rewrite lookup_total_alt. intros H. apply elem_of_dom.
  destruct (row_objs h !! r); [eauto|discriminate].
Qed.

Lemma id_lt_irrefl h r : ¬ id_lt h r r.
Proof. intros (i & j & Hi & Hj & Hlt). rewrite Hi in Hj. injection Hj as <-. lia. Qed.

Lemma scan_by_id_Some h rows i r :
  Table.scan_by_id h rows i = Some r → r ∈ rows ∧ row_id (row_at h r) = Some i.
Proof.
  induction rows as [|y rows IH]; cbn; [done|].
  destruct (decide (row_id (row_at h y) = Some i)) as [Hy|Hy].
  - intros [= <-]. split; [apply list_elem_of_here|done].
  - intros H. destruct (IH H). split; [by apply list_elem_of_further|done].
Qed.

Lemma scan_by_id_None h rows i :
  Table.scan_by_id h rows i = None ↔ ∀ r, r ∈ rows → row_id (row_at h r) ≠ Some i.
Proof.
  induction rows as [|y rows IH]; cbn.
  - split; [|done]. intros _ r Hr. by apply not_elem_of_nil in Hr.
  - destruct (decide (row_id (row_at h y) = Some i)) as [Hy|Hy].
    + split; [done|]. intros H. by destruct (H y (list_elem_of_here _ _)).
    + rewrite IH. split.
      * intros H r Hr. apply elem_of_cons in Hr as [->|Hr]; auto.
      * intros H r Hr. apply H. by apply list_elem_of_further.
Qed.

(** With ids increasing along the list, the Row with a given id is the one
    the scan returns. *)
Lemma scan_by_id_sorted h rows i r :
  StronglySorted (id_lt h) rows →
  r ∈ rows → row_id (row_at h r) = Some i →
  Table.scan_by_id h rows i = Some r.
Proof.
  induction 1 as [|y rows S IH Hy]; intros Hr Hi; [by apply not_elem_of_nil in Hr|].
  cbn. destruct (decide (row_id (row_at h y) = Some i)) as [Hyi|Hyi].
  - apply elem_of_cons in Hr as [->|Hr]; [done|].
    rewrite Forall_forall in Hy. destruct (Hy r Hr) as (a & b & Ha & Hb & Hlt).
    rewrite Hyi in Ha. rewrite Hi in Hb. injection Ha as <-. injection Hb as <-. lia.
  - apply elem_of_cons in Hr as [->|Hr]; [done|]. by apply IH.
Qed.

Lemma list_remove_subset x l r : r ∈ list_remove x l → r ∈ l.
Proof.
  induction l as [|y l IH]; cbn; [done|].
  destruct (decide (y = x)); [by apply list_elem_of_further|].
  rewrite !elem_of_cons. intros [->|?]; auto.
Qed.

Lemma list_remove_sorted {R : relation loc} x l :
  StronglySorted R l → StronglySorted R (list_remove x l).
Proof.
  induction 1 as [|y l S IH Hy]; cbn; [constructor|].
  destruct (decide (y = x)); [done|]. constructor; [done|].
  rewrite Forall_forall in *. intros r Hr. apply Hy. by eapply list_remove_subset.
Qed.

(** In a list without repetition, removal leaves everything but the
    element. *)
Lemma list_remove_elem_of h x l r :
  StronglySorted (id_lt h) l →
  r ∈ list_remove x l ↔ r ∈ l ∧ r ≠ x.
Proof.
  induction 1 as [|y l S IH Hy]; cbn.
  - split; [intros H; by apply not_elem_of_nil in H|intros [H _]; done].
  - destruct (decide (y = x)) as [->|Hne].
    + rewrite elem_of_cons. split.
      * intros Hr. split; [auto|]. intros ->.
        rewrite Forall_forall in Hy. by apply (id_lt_irrefl h x), Hy.
      * intros [[->|Hr] Hx]; done.
    + rewrite !elem_of_cons, IH. split.
      * intros [->|[Hr Hx]]; auto.
      * intros [[->|Hr] Hx]; auto.
Qed.

Lemma delete_absent h self i :
  Table.scan_by_id h (Table.iter h self) i = None →
  Table.delete self i h = (h, Ok false).
Proof.
  intros E. unfold Table.delete, Table.get_by_id, bind, get_heap, ret.
  unfold Table.iter in E. by rewrite E.
Qed.

Lemma delete_found h self i row :
  Table.scan_by_id h (Table.iter h self) i = Some row →
  Table.delete self i h
  = (set_list (tbl_rows (table_at h self)) (list_remove row (Table.iter h self)) h,
     Ok true).
Proof.
  intros E. unfold Table.delete, Table.get_by_id, bind, get_heap, ret.
  unfold Table.iter in E. by rewrite E.
Qed.

Lemma id_lt_ext h h' r r' :
  row_id (row_at h' r) = row_id (row_at h r) →
  row_id (row_at h' r') = row_id (row_at h r') →
  id_lt h r r' → id_lt h' r r'.
Proof. unfold id_lt. intros -> ->. done. Qed.

Lemma table_ok_init h name columns h' self :
  Table.init name columns h = (h', Ok self) → table_ok h' self.
Proof.
  intros H. destruct (init_state h name columns) as (h1 & t & H1 & _ & Hi & _).
  rewrite H in H1. injection H1 as <- <-.
  unfold table_ok. rewrite Hi. split; constructor.
Qed.

Lemma table_ok_insert h self d h' row :
  table_ok h self → Table.insert self d h = (h', Ok row) → table_ok h' self.
Proof.
  intros [S F] Hins.
  destruct (Table.check_columns (tbl_columns (table_at h self)) d) as [[]|e0] eqn:V;
    [|rewrite (insert_Raise _ _ _ _ V) in Hins; discriminate].
  destruct (insert_Ok_state _ _ _ V) as (h1 & Hins' & Hr & Ht & Hl & Ho).
  rewrite Hins in Hins'. injection Hins' as <- ->.
  assert (∀ r, r ∈ Table.iter h self → row_at h' r = row_at h r) as Hold.
  { intros r Hr'. apply Ho. intros ->. rewrite Forall_forall in F.
    destruct (F _ Hr') as (i & Hi & _).
    apply (fresh_row_not_allocated h). by eapply id_Some_allocated. }
  unfold table_ok, Table.iter. rewrite Ht. cbn [tbl_rows].
  rewrite Hl. fold (Table.iter h self). split.
  - apply StronglySorted_app_2; [| |repeat constructor].
    + intros r1 r2 H1 H2. apply list_elem_of_singleton in H2 as ->.
      rewrite Forall_forall in F. destruct (F _ H1) as (i & Hi & Hlt & _).
      exists i, (tbl_next_id (table_at h self)).
      rewrite (Hold _ H1), Hr. auto.
    + clear F. induction S as [|y l S IH Hy]; [constructor|].
      constructor.
      * apply IH. intros r Hr'. apply Hold. by apply list_elem_of_further.
      * rewrite Forall_forall in *. intros r Hr'.
        apply (id_lt_ext h); [| |by apply Hy];
          rewrite Hold; auto using list_elem_of_here, list_elem_of_further.
  - apply Forall_app. split.
    + rewrite Forall_forall in *. intros r Hr'.
      destruct (F _ Hr') as (i & Hi & Hlt & Hv).
      exists i. unfold row_ok. rewrite Ht, (Hold _ Hr'). cbn. repeat split; [done|lia|done].
    + constructor; [|constructor]. exists (tbl_next_id (table_at h self)).
      rewrite Ht, Hr. cbn. repeat split; [lia|done].
Qed.

Lemma sorted_id_lt_ext h h' l :
  (∀ r, row_id (row_at h' r) = row_id (row_at h r)) →
  StronglySorted (id_lt h) l → StronglySorted (id_lt h') l.
Proof.
  intros Hid. induction 1 as [|y l S IH Hy]; [constructor|].
  constructor; [done|]. eapply Forall_impl; [exact Hy|].
  intros r. by apply id_lt_ext.
Qed.

Lemma failed_insert_leaves h self d h' e :
  Table.insert self d h = (h', Raise e) → h' = h.
Proof.
  intros H.
  destruct (Table.check_columns (tbl_columns (table_at h self)) d) as [[]|e0] eqn:V.
  - destruct (insert_Ok _ _ _ V) as [h1 E]. congruence.
  - rewrite (insert_Raise _ _ _ _ V) in H. congruence.
Qed.

Lemma table_ok_update h self i new_data h' res :
  table_ok h self → Table.update self i new_data h = (h', res) → table_ok h' self.
Proof.
  intros [S F] H.
  destruct (Table.scan_by_id h (Table.iter h self) i) as [row|] eqn:Hscan;
    [|rewrite (update_not_found _ _ _ _ Hscan) in H; by injection H as <- <-].
  destruct (Table.check_columns (tbl_columns (table_at h self))
              (new_data ∪ row_data (row_at h row))) as [[]|e0] eqn:V;
    [|rewrite (update_Raise _ _ _ _ _ _ Hscan V) in H; by injection H as <- <-].
  rewrite (update_Ok _ _ _ _ _ Hscan V) in H. injection H as <- <-.
  set (x := mkRow _ _).
  assert (∀ r, row_id (row_at (set_row row x h) r) = row_id (row_at h r)) as Hid.
  { intros r. destruct (decide (row = r)) as [->|Hne].
    - by rewrite row_at_set_row_eq.
    - by rewrite row_at_set_row_ne. }
  unfold table_ok. rewrite iter_set_row. split.
  - by apply (sorted_id_lt_ext h).
  - eapply Forall_impl; [exact F|]. intros r (j & Hj & Hlt & Hv).
    exists j. rewrite Hid. change (table_at (set_row row x h) self) with (table_at h self).
    repeat split; [done..|].
    destruct (decide (row = r)) as [->|Hne].
    + by rewrite row_at_set_row_eq.
    + by rewrite row_at_set_row_ne.
Qed.

Lemma table_ok_delete h self i h' res :
  table_ok h self → Table.delete self i h = (h', res) → table_ok h' self.
Proof.
  intros [S F] H.
  destruct (Table.scan_by_id h (Table.iter h self) i) as [row|] eqn:Hscan;
    [|rewrite (delete_absent _ _ _ Hscan) in H; by injection H as <- <-].
  rewrite (delete_found _ _ _ _ Hscan) in H. injection H as <- <-.
  unfold table_ok, Table.iter.
  change (table_at (set_list ?l ?x h) self) with (table_at h self).
  rewrite list_at_set_list_eq. split.
  - by apply (list_remove_sorted (R := id_lt h)).
  - rewrite Forall_forall in *. intros r Hr. apply F. by eapply list_remove_subset.
Qed.

Lemma table_ok_run_op h self op :
  table_ok h self → table_ok (fst (run_op self op h)) self.
Proof.
  intros Hok. destruct op as [d|i new_data|i]; cbn [run_op].
  - destruct (Table.insert self d h) as [h' [row|e]] eqn:E; cbn [fst].
    + by eapply table_ok_insert.
    + by rewrite (failed_insert_leaves h self d h' e E).
  - destruct (Table.update self i new_data h) as [h' res] eqn:E.
    assert (fst (match res with Ok row => (h', Updated row)
                              | Raise e => (h', Failed e) end) = h') as ->
      by (by destruct res).
    by eapply table_ok_update.
  - destruct (Table.delete self i h) as [h' res] eqn:E.
    assert (fst (match res with Ok b => (h', Deleted b)
                              | Raise e => (h', Failed e) end) = h') as ->
      by (by destruct res).
    by eapply table_ok_delete.
Qed.

Lemma table_ok_run_ops self ops : ∀ h,
  table_ok h self → table_ok (fst (run_ops self ops h)) self.
Proof.
  induction ops as [|op rest IH]; intros h Hok; [exact Hok|].
  cbn [run_ops]. pose proof (table_ok_run_op h self op Hok) as Hok1.
  destruct (run_op self op h) as [h1 o]. specialize (IH h1 Hok1).
  by destruct (run_ops self rest h1).
Qed.

Lemma run_ops_columns self ops : ∀ h,
  tbl_columns (table_at (fst (run_ops self ops h)) self) = tbl_columns (table_at h self).
Proof.
  induction ops as [|op rest IH]; intros h; [done|].
  cbn [run_ops]. pose proof (run_op_counter h self op) as Hop. cbn zeta in Hop.
  destruct (run_op self op h) as [h1 o]. specialize (IH h1).
  destruct (run_ops self rest h1) as [h2 os]. cbn [fst] in *.
  destruct Hop as [<- _]. exact IH.
Qed.

Lemma numbers_heap3_ok : table_ok numbers_heap3 numbers_table.
Proof.
  apply (table_ok_run_ops numbers_table
           [Insert (number_row 1 10); Insert (number_row 2 20); Insert (number_row 3 30)]
           numbers_heap).
  apply (table_ok_init empty_heap "numbers" numbers_columns).
  vm_compute. reflexivity.
Defined.

(** X1: whatever inserts, updates and deletes are applied to a new Table,
    succeeding or failing, its Rows stay in increasing order of id, every
    id stays below the counter, every stored dict is one the schema accepts,
    and the schema is the one the Table was made with. *)
Theorem table_keeps_its_state (h h1 : Heap) (name : string) (columns : list Column)
  (self : loc) (ops : list table_op) :
  Table.init name columns h = (h1, Ok self) →
  table_ok (fst (run_ops self ops h1)) self ∧
  tbl_columns (table_at (fst (run_ops self ops h1)) self) = Table.columns_dict columns.
Proof.
  intros Hinit. split.
  - apply table_ok_run_ops. by eapply table_ok_init.
  - rewrite run_ops_columns.
    destruct (init_state h name columns) as (h' & t & E & Ht & _).
    rewrite Hinit in E. injection E as <- <-. by rewrite Ht.
Qed.

Lemma table_keeps_its_state_witness :
  table_ok numbers_heap3 numbers_table ∧
  tbl_columns (table_at numbers_heap3 numbers_table) = Table.columns_dict numbers_columns.
Proof.
  apply (table_keeps_its_state empty_heap numbers_heap "numbers" numbers_columns
           numbers_table
           [Insert (number_row 1 10); Insert (number_row 2 20); Insert (number_row 3 30)]).
  vm_compute. reflexivity.
Defined.

(** X2: on a Table in such a state [get_by_id] returns a Row exactly when
    that Row is stored with that id, and returns nothing for an id the
    counter has not reached. *)
Theorem get_by_id_finds_the_row (h : Heap) (self : loc) (i : Z) :
  table_ok h self →
  (∀ r, Table.get_by_id self i h = (h, Ok (Some r)) ↔
        r ∈ Table.iter h self ∧ row_id (row_at h r) = Some i) ∧
  (tbl_next_id (table_at h self) ≤ i → Table.get_by_id self i h = (h, Ok None)).
Proof.
  intros [S F]. unfold Table.get_by_id, bind, get_heap, ret.
  fold (Table.iter h self). split.
  - intros r. split.
    + intros [= H]. by apply scan_by_id_Some.
    + intros [Hr Hi]. by rewrite (scan_by_id_sorted _ _ _ _ S Hr Hi).
  - intros Hi. rewrite (proj2 (scan_by_id_None h _ i)); [done|].
    intros r Hr E. rewrite Forall_forall in F.
    destruct (F r Hr) as (j & Hj & Hlt & _). rewrite E in Hj. injection Hj as <-. lia.
Qed.

Lemma get_by_id_finds_the_row_witness :
  (∀ r, Table.get_by_id numbers_table 2 numbers_heap3 = (numbers_heap3, Ok (Some r)) ↔
        r ∈ Table.iter numbers_heap3 numbers_table ∧
        row_id (row_at numbers_heap3 r) = Some 2) ∧
  (tbl_next_id (table_at numbers_heap3 numbers_table) ≤ 2 →
   Table.get_by_id numbers_table 2 numbers_heap3 = (numbers_heap3, Ok None)).
Proof.
  apply (get_by_id_finds_the_row numbers_heap3 numbers_table 2).
  exact numbers_heap3_ok.
Defined.

(** X3: an update that finds its Row and whose merged dict the schema
    accepts returns that Row; the Row keeps its id, takes the given value
    at every key given and keeps what it had at every other key; no other
    Row, nor the row list, nor the Table changes; and [get_by_id] of the id
    still returns the Row. *)
Theorem update_merges_in_place (h : Heap) (self : loc) (i : Z) (new_data : fields)
  (row : loc) :
  Table.scan_by_id h (Table.iter h self) i = Some row →
  Table.check_columns (tbl_columns (table_at h self))
    (new_data ∪ row_data (row_at h row)) = Ok tt →
  ∃ h',
    Table.update self i new_data h = (h', Ok row) ∧
    row_id (row_at h' row) = row_id (row_at h row) ∧
    (∀ k v, new_data !! k = Some v → row_data (row_at h' row) !! k = Some v) ∧
    (∀ k, new_data !! k = None →
          row_data (row_at h' row) !! k = row_data (row_at h row) !! k) ∧
    (∀ r, r ≠ row → row_at h' r = row_at h r) ∧
    Table.iter h' self = Table.iter h self ∧
    table_at h' self = table_at h self ∧
    Table.get_by_id self i h' = (h', Ok (Some row)).
Proof.
  intros Hscan V. eexists. split; [by apply update_Ok|].
  set (x := mkRow _ _). rewrite row_at_set_row_eq. cbn [row_id row_data].
  split; [done|]. split; [|split; [|split; [|split; [done|split; [done|]]]]].
  - intros k v Hk. by apply lookup_union_Some_l.
  - intros k Hk. by apply lookup_union_r.
  - intros r Hr. by apply row_at_set_row_ne.
  - unfold Table.get_by_id, bind, get_heap, ret.
    change (list_at (set_row row x h) (tbl_rows (table_at (set_row row x h) self)))
      with (Table.iter h self).
    f_equal. f_equal. rewrite <- Hscan.
    generalize (Table.iter h self). intros l.
    induction l as [|y l IH]; cbn; [done|].
    assert (row_id (row_at (set_row row x h) y) = row_id (row_at h y)) as ->.
    { destruct (decide (row = y)) as [->|Hne].
      - by rewrite row_at_set_row_eq.
      - by rewrite row_at_set_row_ne. }
    by rewrite IH.
Qed.

Lemma update_merges_in_place_witness :
  ∃ h',
    Table.update numbers_table 2 (<["value" := VInt 25]> ∅) numbers_heap3 = (h', Ok 1%nat) ∧
    row_id (row_at h' 1%nat) = row_id (row_at numbers_heap3 1%nat) ∧
    (∀ k v, (<["value" := VInt 25]> ∅ : fields) !! k = Some v →
            row_data (row_at h' 1%nat) !! k = Some v) ∧
    (∀ k, (<["value" := VInt 25]> ∅ : fields) !! k = None →
          row_data (row_at h' 1%nat) !! k = row_data (row_at numbers_heap3 1%nat) !! k) ∧
    (∀ r, r ≠ 1%nat → row_at h' r = row_at numbers_heap3 r) ∧
    Table.iter h' numbers_table = Table.iter numbers_heap3 numbers_table ∧
    table_at h' numbers_table = table_at numbers_heap3 numbers_table ∧
    Table.get_by_id numbers_table 2 h' = (h', Ok (Some 1%nat)).
Proof.
  apply (update_merges_in_place numbers_heap3 numbers_table 2
           (<["value" := VInt 25]> ∅) 1%nat); vm_compute; reflexivity.
Defined.

Lemma scan_by_id_ext h h' l i :
  (∀ r, r ∈ l → row_id (row_at h' r) = row_id (row_at h r)) →
  Table.scan_by_id h' l i = Table.scan_by_id h l i.
Proof.
  induction l as [|y l IH]; intros Hid; cbn; [done|].
  rewrite (Hid y (list_elem_of_here _ _)), IH; [done|].
  intros r Hr. apply Hid. by apply list_elem_of_further.
Qed.


Lemma scan_by_id_remove_other h l row i :
  row_id (row_at h row) ≠ Some i →
  Table.scan_by_id h (list_remove row l) i = Table.scan_by_id h l i.
Proof.
  intros Hrow. induction l as [|y l IH]; cbn; [done|].
  destruct (decide (y = row)) as [->|Hne].
  - by rewrite decide_False.
  - cbn. by rewrite IH.
Qed.

(** X4: on a Table in such a state, deleting the id of a stored Row returns
    true and takes exactly that Row off the row list, touching no Row
    object; afterwards the id is not found, a second delete returns false
    and changes nothing, and every other id is found as before.  Deleting an
    id that no stored Row has returns false and changes nothing. *)
Theorem delete_removes_exactly_one (h : Heap) (self : loc) (i : Z) :
  table_ok h self →
  (∀ r, r ∈ Table.iter h self → row_id (row_at h r) = Some i →
     ∃ h',
       Table.delete self i h = (h', Ok true) ∧
       Table.iter h' self = list_remove r (Table.iter h self) ∧
       (∀ x, x ∈ Table.iter h' self ↔ x ∈ Table.iter h self ∧ x ≠ r) ∧
       row_objs h' = row_objs h ∧
       Table.get_by_id self i h' = (h', Ok None) ∧
       Table.delete self i h' = (h', Ok false) ∧
       (∀ j, j ≠ i →
             snd (Table.get_by_id self j h') = snd (Table.get_by_id self j h))) ∧
  ((∀ r, r ∈ Table.iter h self → row_id (row_at h r) ≠ Some i) →
   Table.delete self i h = (h, Ok false)).
Proof.
  intros [S F]. split.
  - intros r Hr Hi. pose proof (scan_by_id_sorted _ _ _ _ S Hr Hi) as Hscan.
    rewrite (delete_found _ _ _ _ Hscan).
    set (h' := set_list _ _ h).
    assert (Table.iter h' self = list_remove r (Table.iter h self)) as Hiter.
    { unfold Table.iter, h'.
      change (table_at (set_list ?l ?x h) self) with (table_at h self).
      by rewrite list_at_set_list_eq. }
    assert (Table.scan_by_id h' (Table.iter h' self) i = None) as Hgone.
    { apply scan_by_id_None. rewrite Hiter. intros x Hx Hxi.
      apply (list_remove_elem_of h) in Hx as [Hx Hne]; [|done]. apply Hne.
      pose proof (scan_by_id_sorted h _ i x S Hx Hxi) as Hscan'. congruence. }
    exists h'. split; [done|]. split; [done|]. split.
    { intros x. rewrite Hiter. by apply (list_remove_elem_of h). }
    split; [done|]. split.
    { unfold Table.get_by_id, bind, get_heap, ret.
      fold (Table.iter h' self). by rewrite Hgone. }
    split; [by apply delete_absent|].
    intros j Hj. unfold Table.get_by_id, bind, get_heap, ret. cbn [snd].
    fold (Table.iter h' self). fold (Table.iter h self). rewrite Hiter. f_equal.
    rewrite (scan_by_id_ext h h') by done.
    apply scan_by_id_remove_other. rewrite Hi. congruence.
  - intros Hnone. apply delete_absent. by apply scan_by_id_None.
Qed.

Lemma delete_removes_exactly_one_witness :
  (∃ h',
     Table.delete numbers_table 2 numbers_heap3 = (h', Ok true) ∧
     Table.iter h' numbers_table = list_remove 1%nat (Table.iter numbers_heap3 numbers_table) ∧
     (∀ x, x ∈ Table.iter h' numbers_table ↔
           x ∈ Table.iter numbers_heap3 numbers_table ∧ x ≠ 1%nat) ∧
     row_objs h' = row_objs numbers_heap3 ∧
     Table.get_by_id numbers_table 2 h' = (h', Ok None) ∧
     Table.delete numbers_table 2 h' = (h', Ok false) ∧
     (∀ j, j ≠ 2 →
           snd (Table.get_by_id numbers_table j h')
           = snd (Table.get_by_id numbers_table j numbers_heap3))) ∧
  Table.delete numbers_table 2 numbers_heap = (numbers_heap, Ok false).
Proof.
  split.
  - apply (proj1 (delete_removes_exactly_one numbers_heap3 numbers_table 2
                    numbers_heap3_ok) 1%nat).
    + vm_compute. apply list_elem_of_further, list_elem_of_here.
    + vm_compute. reflexivity.
  - apply (proj2 (delete_removes_exactly_one numbers_heap numbers_table 2
                    (table_ok_init empty_heap "numbers" numbers_columns _ _ eq_refl))).
    intros r Hr. vm_compute in Hr. by apply not_elem_of_nil in Hr.
Defined.



(** ** The schema *)

Lemma odict_get_set {V} (d : odict V) k v k' :
  odict_get (odict_set d k v) k' = if String.eqb k k' then Some v else odict_get d k'.
Proof.
  induction d as [|[k0 v0] d IH]; cbn.
  - done.
  - destruct (String.eqb k0 k) eqn:E0; cbn.
    + apply String.eqb_eq in E0 as ->. by destruct (String.eqb k k').
    + destruct (String.eqb k0 k') eqn:E1; [|exact IH].
      apply String.eqb_eq in E1 as ->. by rewrite String.eqb_sym, E0.
Qed.

Lemma odict_set_entries {V} (d : odict V) k v k' v' :
  (k', v') ∈ odict_set d k v → (k', v') = (k, v) ∨ (k', v') ∈ d.
Proof.
  induction d as [|[k0 v0] d IH]; cbn.
  - intros H. apply list_elem_of_singleton in H. auto.
  - destruct (String.eqb k0 k) eqn:E0.
    + apply String.eqb_eq in E0 as ->. rewrite !elem_of_cons. intros [?|?]; auto.
    + rewrite !elem_of_cons. intros [?|H]; [auto|]. destruct (IH H); auto.
Qed.

Lemma odict_set_keys {V} (d : odict V) k v :
  NoDup d.*1 → NoDup (odict_set d k v).*1.
Proof.
  induction d as [|[k0 v0] d IH]; cbn; intros N.
  - repeat constructor. apply not_elem_of_nil.
  - apply NoDup_cons in N as [Hk0 N].
    destruct (String.eqb k0 k) eqn:E0; cbn.
    + apply String.eqb_eq in E0 as ->. by constructor.
    + constructor; [|by apply IH]. intros Hin.
      apply list_elem_of_fmap in Hin as ([k1 v1] & -> & Hin). cbn in *.
      apply odict_set_entries in Hin as [[= -> ->]|Hin].
      * by rewrite String.eqb_refl in E0.
      * apply Hk0. apply list_elem_of_fmap. by exists (k1, v1).
Qed.

Lemma odict_get_None {V} (d : odict V) k : odict_get d k = None ↔ k ∉ d.*1.
Proof.
  induction d as [|[k0 v0] d IH]; cbn.
  - split; [intros _ H; by apply not_elem_of_nil in H|done].
  - rewrite not_elem_of_cons. destruct (String.eqb k0 k) eqn:E0.
    + apply String.eqb_eq in E0 as ->. split; [done|]. by intros [? _].
    + rewrite IH. apply String.eqb_neq in E0. split; [by split; [congruence|]|by intros [_ ?]].
Qed.

(** X6: the schema a Table is made with has one entry per distinct column
    name, held under that name; when several columns of the list share a
    name the last of them is the one kept. *)
Theorem columns_dict_last_wins (columns : list Column) :
  NoDup (Table.columns_dict columns).*1 ∧
  (∀ k c, (k, c) ∈ Table.columns_dict columns → k = col_name c ∧ c ∈ columns) ∧
  (∀ name, odict_get (Table.columns_dict columns) name
           = last (List.filter (fun c => String.eqb (col_name c) name) columns)).
Proof.
  unfold Table.columns_dict. induction columns as [|c columns IH] using rev_ind.
  - cbn. split; [constructor|]. split; [|done]. intros k c H. by apply not_elem_of_nil in H.
  - rewrite foldl_app. cbn [foldl]. destruct IH as (N & Hent & Hget).
    split; [|split].
    + by apply odict_set_keys.
    + intros k c' Hin. apply odict_set_entries in Hin as [[= -> ->]|Hin].
      * split; [done|]. apply elem_of_app. right. apply list_elem_of_here.
      * destruct (Hent k c' Hin). split; [done|]. apply elem_of_app. by left.
    + intros name. rewrite odict_get_set, List.filter_app. cbn [List.filter].
      destruct (String.eqb (col_name c) name).
      * by rewrite last_snoc.
      * by rewrite app_nil_r.
Qed.

Lemma check_columns_other_key columns (d : fields) k v :
  k ∉ columns.*1 →
  Table.check_columns columns (<[k := v]> d) = Table.check_columns columns d.
Proof.
  induction columns as [|[k0 c0] columns IH]; cbn; [done|].
  rewrite not_elem_of_cons. intros [Hne Hk].
  rewrite lookup_insert_ne by done. by rewrite IH.
Qed.

(** X7: validation looks at the schema's columns only: a key that names
    no column changes nothing about whether a dict is accepted, and an
    accepted insert stores it with the rest. *)
Theorem insert_keeps_unknown_keys (h : Heap) (self : loc) (d : fields) (k : string)
  (v : value) :
  odict_get (tbl_columns (table_at h self)) k = None →
  Table.check_columns (tbl_columns (table_at h self)) (<[k := v]> d)
  = Table.check_columns (tbl_columns (table_at h self)) d ∧
  (Table.check_columns (tbl_columns (table_at h self)) d = Ok tt →
   ∃ h' row, Table.insert self (<[k := v]> d) h = (h', Ok row) ∧
             Row.getitem h' row k = Ok v).
Proof.
  intros Hk. apply odict_get_None in Hk.
  pose proof (check_columns_other_key _ d k v Hk) as E. split; [done|].
  intros V. rewrite <- E in V.
  destruct (insert_Ok_state _ _ _ V) as (h' & Hins & Hr & _).
  eexists _, _. split; [exact Hins|]. unfold Row.getitem. rewrite Hr. cbn.
  by rewrite lookup_insert_eq.
Qed.

Lemma insert_keeps_unknown_keys_witness :
  Table.check_columns (tbl_columns (table_at numbers_heap3 numbers_table))
    (<["note" := VStr "x"]> (number_row 4 40))
  = Table.check_columns (tbl_columns (table_at numbers_heap3 numbers_table))
      (number_row 4 40) ∧
  ∃ h' row, Table.insert numbers_table (<["note" := VStr "x"]> (number_row 4 40)) numbers_heap3
            = (h', Ok row) ∧
            Row.getitem h' row "note" = Ok (VStr "x").
Proof.
  destruct (insert_keeps_unknown_keys numbers_heap3 numbers_table (number_row 4 40)
              "note" (VStr "x")) as [E Hins].
  - vm_compute. reflexivity.
  - split; [exact E|]. apply Hins. vm_compute. reflexivity.
Defined.

(** ** Where clauses *)

Lemma matches_clauses_app h r pre : ∀ post,
  SimpleQuery.matches_clauses h (pre ++ post) r
  = (b <?- SimpleQuery.matches_clauses h pre r ;;
     if b then SimpleQuery.matches_clauses h post r else Ok false).
Proof.
  induction pre as [|[[c o] w] pre IH]; intros post; cbn; [done|].
  destruct (Row.getitem h r c) as [rv|]; cbn; [|done].
  destruct (SimpleQuery.clause_rejects o rv w) as [[]|]; cbn; [done| |done].
  apply IH.
Qed.

Lemma filter_rows_conditions h q1 q2 rows :
  q_filter_conditions q1 = q_filter_conditions q2 →
  SimpleQuery.filter_rows h q1 rows = SimpleQuery.filter_rows h q2 rows.
Proof.
  intros E. induction rows as [|r rows IH]; cbn; [done|].
  unfold SimpleQuery._matches. by rewrite E, IH.
Qed.

Lemma filter_rows_where h q column operator v : ∀ rows kept,
  SimpleQuery.filter_rows h q rows = Ok kept →
  SimpleQuery.filter_rows h (SimpleQuery.where_ q column operator v) rows
  = SimpleQuery.filter_rows h (only_clause q kept column operator v) kept.
Proof.
  induction rows as [|r rows IH]; intros kept; cbn [SimpleQuery.filter_rows].
  - by intros [= <-].
  - unfold SimpleQuery._matches at 1 2.
    change (q_filter_conditions (SimpleQuery.where_ q column operator v))
      with (q_filter_conditions q ++ [(column, operator, v)])%list.
    rewrite matches_clauses_app.
    destruct (SimpleQuery.matches_clauses h (q_filter_conditions q) r) as [b|];
      cbn [rbind]; [|done].
    destruct (SimpleQuery.filter_rows h q rows) as [kept'|] eqn:E; cbn [rbind]; [|done].
    specialize (IH kept' eq_refl). rewrite IH.
    destruct b; intros [= <-].
    + cbn [SimpleQuery.filter_rows].
      by rewrite (filter_rows_conditions h (only_clause q (r :: kept') column operator v)
                    (only_clause q kept' column operator v)).
    + cbn [rbind]. by destruct (SimpleQuery.filter_rows h _ kept').
Qed.

(** X8: clauses are conjunctive and applied in the order given: when the
    filter of a query runs without error, the query with one more where
    clause returns what that one clause, alone, returns over the rows the
    query kept (the same rows, the same error, the same order). *)
Theorem where_filters_what_was_kept (h : Heap) (q : SimpleQuery)
  (column operator : string) (v : value) (kept : list loc) :
  SimpleQuery.filter_rows h q (source_iter h (q_table q)) = Ok kept →
  SimpleQuery._filtered_rows h (SimpleQuery.where_ q column operator v)
  = SimpleQuery._filtered_rows h (only_clause q kept column operator v).
Proof.
  intros Hk. unfold SimpleQuery._filtered_rows.
  change (source_iter h (q_table (SimpleQuery.where_ q column operator v)))
    with (source_iter h (q_table q)).
  by rewrite (filter_rows_where _ _ _ _ _ _ _ Hk).
Qed.

Lemma where_filters_what_was_kept_witness :
  SimpleQuery._filtered_rows numbers_heap3
    (SimpleQuery.where_ (value_above_10 (FromTable numbers_table)) "value" "<" (VInt 30))
  = SimpleQuery._filtered_rows numbers_heap3
      (only_clause (value_above_10 (FromTable numbers_table)) [1; 2]%nat
         "value" "<" (VInt 30)).
Proof.
  apply (where_filters_what_was_kept numbers_heap3
           (value_above_10 (FromTable numbers_table)) "value" "<" (VInt 30) [1; 2]%nat).
  vm_compute. reflexivity.
Defined.

Lemma py_compare_ints rv v m n :
  as_int rv = Some m → as_int v = Some n → py_compare rv v = Some (m ?= n).
Proof. destruct rv, v; cbn; try done; by intros [= ->] [= ->]. Qed.

Lemma py_eq_ints rv v m n :
  as_int rv = Some m → as_int v = Some n → py_eq rv v = (m =? n).
Proof.
  intros Hm Hn. rewrite Z.eqb_compare.
  pose proof (py_compare_ints _ _ _ _ Hm Hn) as Hc.
  unfold py_eq. destruct rv, v; try done; by rewrite Hc.
Qed.

(** One clause on integers: it rejects when the relation fails. *)
Lemma clause_rejects_ints operator rv v m n :
  as_int rv = Some m → as_int v = Some n →
  SimpleQuery.clause_rejects operator rv v
  = Ok (match int_relation operator with
        | Some rel => negb (rel m n)
        | None => false
        end).
Proof.
  intros Hm Hn. unfold SimpleQuery.clause_rejects, int_relation, py_ne,
    py_gt, py_lt, py_ge, py_le, py_order.
  rewrite (py_eq_ints _ _ _ _ Hm Hn), (py_compare_ints _ _ _ _ Hm Hn).
  rewrite Z.eqb_compare. unfold Z.gtb, Z.ltb, Z.geb, Z.leb.
  destruct (String.eqb operator "=") eqn:E1.
  { apply String.eqb_eq in E1 as ->. cbn. rewrite ?Z.eqb_compare. by destruct (m ?= n). }
  destruct (String.eqb operator ">") eqn:E2.
  { apply String.eqb_eq in E2 as ->. cbn. rewrite ?Z.eqb_compare. by destruct (m ?= n). }
  destruct (String.eqb operator "<") eqn:E3.
  { apply String.eqb_eq in E3 as ->. cbn. rewrite ?Z.eqb_compare. by destruct (m ?= n). }
  destruct (String.eqb operator ">=") eqn:E4.
  { apply String.eqb_eq in E4 as ->. cbn. rewrite ?Z.eqb_compare. by destruct (m ?= n). }
  destruct (String.eqb operator "<=") eqn:E5.
  { apply String.eqb_eq in E5 as ->. cbn. rewrite ?Z.eqb_compare. by destruct (m ?= n). }
  destruct (String.eqb operator "!=") eqn:E6.
  { apply String.eqb_eq in E6 as ->. cbn. rewrite ?Z.eqb_compare. by destruct (m ?= n). }
  reflexivity.
Qed.

(** An operator that is none of the six rejects nothing. *)
Lemma clause_rejects_unknown operator rv v :
  int_relation operator = None →
  SimpleQuery.clause_rejects operator rv v = Ok false.
Proof.
  unfold int_relation, SimpleQuery.clause_rejects.
  destruct (String.eqb operator "="); [done|].
  destruct (String.eqb operator ">"); [done|].
  destruct (String.eqb operator "<"); [done|].
  destruct (String.eqb operator ">="); [done|].
  destruct (String.eqb operator "<="); [done|].
  destruct (String.eqb operator "!="); [done|]. done.
Qed.

(** X9: an operator string other than [=], [>], [<], [>=], [<=], [!=] is
    accepted and filters nothing: over rows that all hold the column, the
    query with such a clause returns what the query without it returns. *)
Theorem unknown_operator_filters_nothing (h : Heap) (q : SimpleQuery)
  (column operator : string) (v : value) :
  int_relation operator = None →
  Forall (fun r => is_Some (row_data (row_at h r) !! column))
    (source_iter h (q_table q)) →
  SimpleQuery._filtered_rows h (SimpleQuery.where_ q column operator v)
  = SimpleQuery._filtered_rows h q.
Proof.
  intros Hop Hcol. unfold SimpleQuery._filtered_rows.
  change (source_iter h (q_table (SimpleQuery.where_ q column operator v)))
    with (source_iter h (q_table q)).
  assert (SimpleQuery.filter_rows h (SimpleQuery.where_ q column operator v)
            (source_iter h (q_table q))
          = SimpleQuery.filter_rows h q (source_iter h (q_table q))) as ->; [|done].
  induction Hcol as [|r rows [x Hx] _ IH]; cbn [SimpleQuery.filter_rows]; [done|].
  rewrite IH. f_equal. unfold SimpleQuery._matches.
  change (q_filter_conditions (SimpleQuery.where_ q column operator v))
    with (q_filter_conditions q ++ [(column, operator, v)])%list.
  rewrite matches_clauses_app.
  destruct (SimpleQuery.matches_clauses h (q_filter_conditions q) r) as [[]|];
    cbn; [|done..].
  unfold Row.getitem. rewrite Hx. cbn. by rewrite clause_rejects_unknown.
Qed.

Lemma unknown_operator_filters_nothing_witness :
  SimpleQuery._filtered_rows numbers_heap3
    (SimpleQuery.where_ (SimpleQuery.init (FromTable numbers_table)) "value" "==" (VInt 20))
  = SimpleQuery._filtered_rows numbers_heap3 (SimpleQuery.init (FromTable numbers_table)).
Proof.
  apply (unknown_operator_filters_nothing numbers_heap3
           (SimpleQuery.init (FromTable numbers_table)) "value" "==" (VInt 20)).
  - reflexivity.
  - change (Forall (fun r => is_Some (row_data (row_at numbers_heap3 r) !! "value"))
              [0; 1; 2]%nat).
    repeat constructor; vm_compute; eauto.
Defined.

(** X10: over rows that hold integers (or booleans) at the column, a
    clause with one of the six operators and an integer operand keeps
    exactly the rows for which the integer relation holds, in source order,
    and raises nothing. *)
Theorem integer_clause_keeps_related_rows (h : Heap) (q : SimpleQuery)
  (column operator : string) (v : value) (n : Z) (rel : Z → Z → bool)
  (rows : list loc) :
  q_filter_conditions q = [(column, operator, v)] →
  as_int v = Some n →
  int_relation operator = Some rel →
  Forall (fun r => ∃ x, row_data (row_at h r) !! column = Some x ∧ is_Some (as_int x)) rows →
  SimpleQuery.filter_rows h q rows
  = Ok (List.filter (fun r => rel (int_cell h column r) n) rows).
Proof.
  intros Hq Hn Hrel Hrows.
  induction Hrows as [|r rows (x & Hx & [m Hm]) _ IH]; cbn [SimpleQuery.filter_rows]; [done|].
  rewrite IH. cbn [rbind List.filter]. unfold SimpleQuery._matches. rewrite Hq. cbn.
  unfold Row.getitem, int_cell, cell. rewrite Hx. cbn.
  rewrite (clause_rejects_ints _ _ _ _ _ Hm Hn), Hrel, Hm. cbn.
  by destruct (rel m n).
Qed.

Lemma integer_clause_keeps_related_rows_witness :
  SimpleQuery.filter_rows numbers_heap3
    (SimpleQuery.where_ (SimpleQuery.init (FromTable numbers_table)) "value" "<=" (VInt 20))
    [0; 1; 2]%nat
  = Ok (List.filter (fun r => int_cell numbers_heap3 "value" r <=? 20) [0; 1; 2]%nat).
Proof.
  apply (integer_clause_keeps_related_rows numbers_heap3 _ "value" "<=" (VInt 20) 20 Z.leb).
  - reflexivity.
  - reflexivity.
  - reflexivity.
  - repeat constructor; eexists; (split; [vm_compute; reflexivity|]); cbn; eauto.
Defined.

Lemma clause_rejects_eq rv v :
  SimpleQuery.clause_rejects "=" rv v = Ok (negb (py_eq rv v)).
Proof. unfold SimpleQuery.clause_rejects, py_ne. cbn. by destruct (py_eq rv v). Qed.

Lemma clause_rejects_ne rv v :
  SimpleQuery.clause_rejects "!=" rv v = Ok (py_eq rv v).
Proof. unfold SimpleQuery.clause_rejects, py_ne. cbn. by destruct (py_eq rv v). Qed.

Lemma clause_rejects_unordered operator rv v :
  ordering_operator operator = true → py_compare rv v = None →
  SimpleQuery.clause_rejects operator rv v = Raise TypeError.
Proof.
  intros Hop Hc. unfold ordering_operator in Hop.
  unfold SimpleQuery.clause_rejects, py_gt, py_lt, py_ge, py_le, py_order.
  rewrite Hc.
  destruct (String.eqb operator ">") eqn:E2.
  { apply String.eqb_eq in E2 as ->. reflexivity. }
  destruct (String.eqb operator "<") eqn:E3.
  { apply String.eqb_eq in E3 as ->. reflexivity. }
  destruct (String.eqb operator ">=") eqn:E4.
  { apply String.eqb_eq in E4 as ->. reflexivity. }
  destruct (String.eqb operator "<=") eqn:E5.
  { apply String.eqb_eq in E5 as ->. reflexivity. }
  discriminate.
Qed.

(** X11: [=] and [!=] compare any two values and never raise: over rows
    that hold the column they keep the rows whose value equals, or differs
    from, the operand.  An ordering operator raises [TypeError] at the
    first row whose value cannot be ordered against the operand (a null, or
    a value of another kind), and every entry point of the query raises it. *)
Theorem equality_is_total_ordering_is_not (h : Heap) (q : SimpleQuery)
  (column : string) (v : value) :
  (∀ rows,
     Forall (fun r => is_Some (row_data (row_at h r) !! column)) rows →
     (q_filter_conditions q = [(column, "=", v)] →
      SimpleQuery.filter_rows h q rows
      = Ok (List.filter (fun r => py_eq (cell h column r) v) rows)) ∧
     (q_filter_conditions q = [(column, "!=", v)] →
      SimpleQuery.filter_rows h q rows
      = Ok (List.filter (fun r => negb (py_eq (cell h column r) v)) rows))) ∧
  (∀ operator before r after x,
     ordering_operator operator = true →
     q_filter_conditions q = [(column, operator, v)] →
     source_iter h (q_table q) = (before ++ r :: after)%list →
     is_Ok (SimpleQuery.filter_rows h q before) = true →
     row_data (row_at h r) !! column = Some x →
     py_compare x v = None →
     query_raises h q TypeError).
Proof.
  split.
  - intros rows Hrows. split; intros Hq;
      (induction Hrows as [|r rows [x Hx] _ IH]; cbn [SimpleQuery.filter_rows]; [done|]);
      rewrite IH; cbn [rbind List.filter]; unfold SimpleQuery._matches; rewrite Hq;
      cbn [SimpleQuery.matches_clauses];
      unfold Row.getitem, cell; rewrite Hx; cbn [rbind from_option id].
    + rewrite clause_rejects_eq. cbn [rbind]. by destruct (py_eq x v).
    + rewrite clause_rejects_ne. cbn [rbind]. by destruct (py_eq x v).
  - intros operator before r after x Hop Hq Hsrc Hb Hx Hc.
    apply filtered_rows_raises_all. unfold SimpleQuery._filtered_rows. rewrite Hsrc.
    rewrite (filter_rows_raises h q r after TypeError before Hb); [done|].
    unfold SimpleQuery._matches. rewrite Hq. cbn [SimpleQuery.matches_clauses].
    unfold Row.getitem. rewrite Hx. cbn [rbind].
    by rewrite (clause_rejects_unordered _ _ _ Hop Hc).
Qed.

Lemma equality_is_total_ordering_is_not_witness :
  SimpleQuery.filter_rows scores_heap
    (SimpleQuery.where_ (SimpleQuery.init (FromTable scores_table)) "score" "=" (VInt 2))
    [0; 1; 2; 3]%nat
  = Ok (List.filter (fun r => py_eq (cell scores_heap "score" r) (VInt 2)) [0; 1; 2; 3]%nat) ∧
  query_raises scores_heap
    (SimpleQuery.where_ (SimpleQuery.init (FromTable scores_table)) "score" ">" (VInt 1))
    TypeError.
Proof.
  split.
  - apply (proj1 (equality_is_total_ordering_is_not scores_heap
                    (SimpleQuery.where_ (SimpleQuery.init (FromTable scores_table))
                       "score" "=" (VInt 2)) "score" (VInt 2)) [0; 1; 2; 3]%nat).
    + repeat constructor; vm_compute; eauto.
    + reflexivity.
  - apply (proj2 (equality_is_total_ordering_is_not scores_heap
                    (SimpleQuery.where_ (SimpleQuery.init (FromTable scores_table))
                       "score" ">" (VInt 1)) "score" (VInt 1))
             ">" [] 0%nat [1; 2; 3]%nat VNone);
      vm_compute; reflexivity.
Defined.

(** ** Aggregates *)

Lemma sum_loop_summable h column rows : ∀ t,
  Forall (summable h column) rows →
  SimpleQuery.sum_loop h column rows t = Ok (t + total (numbers_at h column rows)).
Proof.
  induction rows as [|r rows IH]; intros t F; cbn.
  - f_equal. unfold total, numbers_at, cell. cbn. lia.
  - apply Forall_cons in F as [(x & Hx & Hk) F].
    unfold Row.getitem, cell. rewrite Hx. cbn.
    destruct Hk as [->|[n Hn]]; cbn.
    + by apply IH.
    + rewrite Hn. destruct (is_none x) eqn:En.
      { apply is_none_true in En as ->. discriminate. }
      unfold SimpleQuery.add_to. rewrite Hn. cbn. rewrite IH by done.
      f_equal. unfold total, numbers_at, cell. cbn. lia.
Qed.

Lemma builtin_sum_ints values : ∀ t,
  Forall (fun x => is_Some (as_int x)) values →
  SimpleQuery.builtin_sum values t = Ok (t + total (omap as_int values)).
Proof.
  induction values as [|x values IH]; intros t F; cbn.
  - f_equal. unfold total, numbers_at, cell. cbn. lia.
  - apply Forall_cons in F as [[n Hn] F]. unfold SimpleQuery.add_to. rewrite Hn. cbn.
    rewrite IH by done. f_equal. unfold total, numbers_at, cell. cbn. lia.
Qed.

Lemma collect_values_summable h column rows : ∀ values,
  Forall (summable h column) rows →
  Forall (fun x => is_Some (as_int x)) values →
  ∃ values',
    SimpleQuery.collect_values h column rows values = Ok values' ∧
    Forall (fun x => is_Some (as_int x)) values' ∧
    omap as_int values' = (omap as_int values ++ numbers_at h column rows)%list.
Proof.
  induction rows as [|r rows IH]; intros values F Fv; cbn.
  - exists values. by rewrite app_nil_r.
  - apply Forall_cons in F as [(x & Hx & Hk) F].
    unfold Row.getitem, cell. rewrite Hx. cbn.
    destruct Hk as [->|[n Hn]]; cbn.
    + by apply IH.
    + rewrite Hn. destruct (is_none x) eqn:En.
      { apply is_none_true in En as ->. discriminate. }
      destruct (IH (values ++ [x])%list F) as (values' & -> & Fv' & E).
      { apply Forall_app. split; [done|]. repeat constructor. eauto. }
      exists values'. split; [done|]. split; [done|].
      rewrite E, omap_app. cbn. rewrite Hn. cbn. by rewrite <- app_assoc.
Qed.

(** *** True division *)

(** [1 / 3], [1 / 10], [-7 / 2] and [7 / -2] as Python gives them; a tie goes
    to the even neighbour; the quotient under half the smallest subnormal is
    zero; the largest double is reached, and one more raises. *)
Example true_divide_samples :
  true_divide 1 3 = Ok (6004799503160661 # 18014398509481984)%Q ∧
  true_divide 1 10 = Ok (3602879701896397 # 36028797018963968)%Q ∧
  true_divide (-7) 2 = Ok (-7 # 2)%Q ∧
  true_divide 7 (-2) = Ok (-7 # 2)%Q ∧
  true_divide (2 ^ 53 + 1) 1 = Ok (inject_Z (2 ^ 53)) ∧
  true_divide (2 ^ 53 + 3) 1 = Ok (inject_Z (2 ^ 53 + 4)) ∧
  true_divide 1 (2 ^ 1075) = Ok 0%Q ∧
  true_divide 3 (2 ^ 1075) = Ok (1 # Z.to_pos (2 ^ 1073))%Q ∧
  true_divide (float_overflow - 1) 1 = Ok (inject_Z (2 ^ 1024 - 2 ^ 971)) ∧
  true_divide float_overflow 1 = Raise OverflowError ∧
  true_divide (10 ^ 400) 1 = Raise OverflowError ∧
  true_divide 1 0 = Raise ZeroDivisionError.
Proof. repeat split; vm_compute; reflexivity. Qed.

Lemma round_half_even_exact m b : 0 < b → round_half_even (m * b) b = m.
Proof.
  intros Hb. unfold round_half_even. rewrite Z.mod_mul, Z.div_mul by lia.
  by destruct (Z.compare_spec (2 * 0) b); [lia| |lia].
Qed.

Lemma round_half_even_lower a b : 0 < b → a / b <= round_half_even a b.
Proof.
  intros Hb. unfold round_half_even. cbv zeta.
  destruct (2 * (a mod b) ?= b); [destruct (Z.even (a / b))|..]; lia.
Qed.

Lemma log2_bounds a : 0 < a → 2 ^ Z.log2 a <= a < 2 ^ (Z.log2 a + 1).
Proof. intros. pose proof (Z.log2_spec a). replace (Z.log2 a + 1) with (Z.succ (Z.log2 a)) by lia. auto. Qed.

Lemma exponent_reached a b :
  0 < a → 0 < b →
  let l := Z.log2 a - Z.log2 b in
  let k := if quotient_reaches a b l then l else l - 1 in
  0 <= k → b * 2 ^ k <= a.
Proof.
  intros Ha Hb l k Hk. subst k. destruct (quotient_reaches a b l) eqn:E.
  - unfold quotient_reaches in E. destruct (0 <=? l) eqn:El; [lia|lia].
  - pose proof (log2_bounds a Ha) as [La _]. pose proof (log2_bounds b Hb) as [_ Lb].
    pose proof (Z.log2_nonneg a). pose proof (Z.log2_nonneg b).
    assert (2 ^ Z.log2 a = 2 ^ (Z.log2 b + 1) * 2 ^ (l - 1)) as Hp.
    { rewrite <- Z.pow_add_r by lia. f_equal. lia. }
    assert (0 < 2 ^ (l - 1)) by (apply Z.pow_pos_nonneg; lia).
    nia.
Qed.

Lemma exponent_bound a b n :
  0 < a → 0 < b → 0 <= n → a < b * 2 ^ n →
  let l := Z.log2 a - Z.log2 b in
  (if quotient_reaches a b l then l else l - 1) < n.
Proof.
  intros Ha Hb Hn Hlt l.
  pose proof (log2_bounds a Ha) as [La _]. pose proof (log2_bounds b Hb) as [_ Lb].
  pose proof (Z.log2_nonneg a). pose proof (Z.log2_nonneg b).
  assert (l <= n) as Hl.
  { destruct (Z.le_gt_cases l n) as [|Hgt]; [done|]. exfalso.
    assert (2 ^ (Z.log2 b + 1) * 2 ^ n <= 2 ^ Z.log2 a).
    { rewrite <- Z.pow_add_r by lia. apply Z.pow_le_mono_r; lia. }
    assert (0 < 2 ^ n) by (apply Z.pow_pos_nonneg; lia). nia. }
  destruct (quotient_reaches a b l) eqn:E; [|lia].
  destruct (Z.eq_dec l n) as [->|]; [|lia].
  unfold quotient_reaches in E. destruct (0 <=? n) eqn:En; lia.
Qed.

Lemma exponent_least a b n :
  0 < a → 0 < b → 0 <= n → b * 2 ^ n <= a →
  let l := Z.log2 a - Z.log2 b in
  n <= (if quotient_reaches a b l then l else l - 1).
Proof.
  intros Ha Hb Hn Hle l.
  pose proof (log2_bounds a Ha) as [_ La]. pose proof (log2_bounds b Hb) as [Lb _].
  pose proof (Z.log2_nonneg a). pose proof (Z.log2_nonneg b).
  assert (n <= l) as Hl.
  { destruct (Z.le_gt_cases n l) as [|Hgt]; [done|]. exfalso.
    assert (2 ^ (Z.log2 a + 1) <= 2 ^ Z.log2 b * 2 ^ n).
    { rewrite <- Z.pow_add_r by lia. apply Z.pow_le_mono_r; lia. }
    assert (0 < 2 ^ n) by (apply Z.pow_pos_nonneg; lia). nia. }
  destruct (quotient_reaches a b l) eqn:E; [done|].
  destruct (Z.eq_dec l n) as [->|]; [|lia].
  unfold quotient_reaches in E. destruct (0 <=? n) eqn:En; lia.
Qed.

Lemma Qred_integer (m : Z) (d : positive) : Qred (m * Z.pos d # d) = inject_Z m.
Proof.
  transitivity (Qred (inject_Z m)).
  { apply Qred_complete. unfold Qeq. cbn. lia. }
  unfold Qred, inject_Z.
  pose proof (Z.ggcd_gcd m 1) as Hg. pose proof (Z.ggcd_correct_divisors m 1) as Hd.
  destruct (Z.ggcd m 1) as (g & aa & bb). cbn in Hg, Hd |- *.
  rewrite Z.gcd_1_r in Hg. subst g. destruct Hd as [-> Hbb].
  assert (bb = 1) as -> by lia. f_equal. lia.
Qed.

Lemma true_divide_exact m b :
  0 < b → Z.abs m < 2 ^ 53 → true_divide (m * b) b = Ok (inject_Z m).
Proof.
  intros Hb Hm. unfold true_divide.
  destruct (b =? 0) eqn:Eb; [lia|]. destruct (m * b =? 0) eqn:Ea.
  { assert (m = 0) as -> by nia. reflexivity. }
  assert (m ≠ 0) as Hm0 by (intros ->; lia).
  rewrite (Z.abs_eq b), Z.abs_mul, (Z.abs_eq b) by lia. unfold float_parts.
  set (l := Z.log2 (Z.abs m * b) - Z.log2 b).
  set (k := if quotient_reaches (Z.abs m * b) b l then l else l - 1).
  assert (k < 53) as Hk.
  { apply (exponent_bound (Z.abs m * b) b 53); nia. }
  assert (xorb (m * b <? 0) (b <? 0) = (m <? 0)) as ->.
  { destruct (b <? 0) eqn:E1; [lia|]. rewrite xorb_false_r.
    destruct (m * b <? 0) eqn:E2, (m <? 0) eqn:E3; try done; nia. }
  assert ((if m <? 0 then - Z.abs m else Z.abs m) = m) as Hs.
  { destruct (m <? 0) eqn:E; lia. }
  set (e := Z.max (k - 52) (-1074)). assert (e <= 0) as He by lia.
  destruct (0 <=? e) eqn:Ee.
  - assert (e = 0) as -> by lia. rewrite Z.pow_0_r, !Z.mul_1_r.
    rewrite round_half_even_exact by done.
    destruct (2 ^ 1024 <=? Z.abs m) eqn:Ev.
    { assert (2 ^ 53 <= 2 ^ 1024) by (apply Z.pow_le_mono_r; lia). lia. }
    cbn [andb]. rewrite Hs. f_equal.
    change (inject_Z m) with (m # 1)%Q. rewrite <- (Z.mul_1_r m) at 1.
    apply (Qred_integer m 1).
  - cbn [andb].
    replace (Z.abs m * b * 2 ^ (- e)) with (Z.abs m * 2 ^ (- e) * b) by lia.
    rewrite round_half_even_exact by done.
    assert (0 < 2 ^ (- e)) as Hp by (apply Z.pow_pos_nonneg; lia).
    f_equal.
    replace (if m <? 0 then - (Z.abs m * 2 ^ (- e)) else Z.abs m * 2 ^ (- e))
      with (m * Z.pos (Z.to_pos (2 ^ (- e)))).
    { apply Qred_integer. }
    rewrite Z2Pos.id by done. destruct (m <? 0) eqn:E; lia.
Qed.

Lemma round_half_even_upper a b n :
  0 < b → 2 * a < (2 * n + 1) * b → round_half_even a b <= n.
Proof.
  intros Hb Ha. unfold round_half_even. cbv zeta.
  pose proof (Z.div_mod a b ltac:(lia)) as Hd.
  pose proof (Z.mod_pos_bound a b Hb) as Hr.
  destruct (Z.compare_spec (2 * (a mod b)) b) as [E|E|E].
  - assert ((2 * (a / b) + 1) * b < (2 * n + 1) * b) as Hc by lia.
    apply Z.mul_lt_mono_pos_r in Hc; [|done]. destruct (Z.even (a / b)); lia.
  - assert (2 * (a / b) * b < (2 * n + 1) * b) as Hc by lia.
    apply Z.mul_lt_mono_pos_r in Hc; [|done]. lia.
  - assert ((2 * (a / b) + 1) * b < (2 * n + 1) * b) as Hc by lia.
    apply Z.mul_lt_mono_pos_r in Hc; [|done]. lia.
Qed.

Lemma round_half_even_reaches_even a b n :
  0 < b → Z.even n = true → (2 * n - 1) * b <= 2 * a → n <= round_half_even a b.
Proof.
  intros Hb Hn Ha. unfold round_half_even. cbv zeta.
  pose proof (Z.div_mod a b ltac:(lia)) as Hd.
  pose proof (Z.mod_pos_bound a b Hb) as Hr.
  destruct (Z.compare_spec (2 * (a mod b)) b) as [E|E|E].
  - assert ((2 * n - 1) * b <= (2 * (a / b) + 1) * b) as Hc by lia.
    apply Z.mul_le_mono_pos_r in Hc; [|done].
    destruct (Z.even (a / b)) eqn:Eq; [|lia].
    destruct (Z.eq_dec (a / b) (n - 1)) as [Hx|]; [|lia].
    rewrite Hx in Eq. rewrite Z.even_sub, Hn in Eq. discriminate.
  - assert ((2 * n - 1) * b < (2 * (a / b) + 1) * b) as Hc by lia.
    apply Z.mul_lt_mono_pos_r in Hc; [|done]. lia.
  - assert ((2 * n - 1) * b < (2 * (a / b) + 2) * b) as Hc by lia.
    apply Z.mul_lt_mono_pos_r in Hc; [|done]. lia.
Qed.

Lemma exponent_not_exceeded a b :
  0 < a → 0 < b →
  let l := Z.log2 a - Z.log2 b in
  let k := if quotient_reaches a b l then l else l - 1 in
  0 <= k + 1 → a < b * 2 ^ (k + 1).
Proof.
  intros Ha Hb l k Hk. subst k. destruct (quotient_reaches a b l) eqn:E.
  - pose proof (log2_bounds a Ha) as [_ La]. pose proof (log2_bounds b Hb) as [Lb _].
    pose proof (Z.log2_nonneg a). pose proof (Z.log2_nonneg b).
    assert (2 ^ (Z.log2 a + 1) = 2 ^ Z.log2 b * 2 ^ (l + 1)) as Hp.
    { rewrite <- Z.pow_add_r by lia. f_equal. lia. }
    assert (0 < 2 ^ (l + 1)) by (apply Z.pow_pos_nonneg; lia).
    nia.
  - unfold quotient_reaches in E. replace (l - 1 + 1) with l in * by lia.
    destruct (0 <=? l) eqn:El; lia.
Qed.

Lemma true_divide_overflow_iff a b :
  0 < b →
  true_divide a b = Raise OverflowError ↔ float_overflow * b <= Z.abs a.
Proof.
  intros Hb.
  assert (2 * float_overflow = (2 * 2 ^ 53 - 1) * 2 ^ 971) as HT.
  { vm_compute. reflexivity. }
  assert (2 ^ 1023 <= float_overflow) as HT1 by (vm_compute; discriminate).
  assert (float_overflow < 2 ^ 1024) as HT2 by (vm_compute; reflexivity).
  assert (2 ^ 1024 = 2 ^ 53 * 2 ^ 971) as HP by (vm_compute; reflexivity).
  assert (2 ^ 1024 = 2 * 2 ^ 1023) as HP1 by (vm_compute; reflexivity).
  assert (Z.even (2 ^ 53) = true) as Hev by (vm_compute; reflexivity).
  assert (2 ^ 53 = 2 * 2 ^ 52) as H53 by (vm_compute; reflexivity).
  assert (0 < 2 ^ 52) as H52 by (vm_compute; reflexivity).
  assert (0 < 2 ^ 971) as H971 by (vm_compute; reflexivity).
  unfold true_divide. destruct (b =? 0) eqn:Eb; [lia|].
  generalize dependent float_overflow. intros T HT HT1 HT2.
  destruct (a =? 0) eqn:Ea.
  { split; [discriminate|]. intros H. exfalso.
    set (P := 2 ^ 1023) in *. set (Q := 2 ^ 52) in *. clearbody P Q. nia. }
  rewrite (Z.abs_eq b) by lia. unfold float_parts.
  set (l := Z.log2 (Z.abs a) - Z.log2 b).
  set (k := if quotient_reaches (Z.abs a) b l then l else l - 1).
  assert (0 < Z.abs a) as Ha0 by lia.
  pose proof (exponent_reached (Z.abs a) b Ha0 Hb) as Hr. cbv zeta in Hr.
  fold l in Hr. fold k in Hr.
  pose proof (exponent_not_exceeded (Z.abs a) b Ha0 Hb) as Hx. cbv zeta in Hx.
  fold l in Hx. fold k in Hx.
  pose proof (exponent_least (Z.abs a) b 1023 Ha0 Hb ltac:(lia)) as Hl. cbv zeta in Hl.
  fold l in Hl. fold k in Hl.
  pose proof (exponent_bound (Z.abs a) b 1024 Ha0 Hb ltac:(lia)) as Hu. cbv zeta in Hu.
  fold l in Hu. fold k in Hu.
  set (e := Z.max (k - 52) (-1074)).
  set (A := Z.abs a) in *.
  set (P1024 := 2 ^ 1024) in *. set (P1023 := 2 ^ 1023) in *.
  set (P971 := 2 ^ 971) in *. set (P53 := 2 ^ 53) in *. set (P52 := 2 ^ 52) in *.
  clearbody A l.
  destruct (0 <=? e) eqn:Ee; cbn [andb].
  2:{ split; [discriminate|]. intros H. exfalso.
      assert (1023 <= k); [|lia]. apply Hl. clearbody P1024 P1023 P971 P53 P52. nia. }
  assert (e = k - 52) as He by lia. assert (52 <= k) as Hk by lia.
  specialize (Hr ltac:(lia)). specialize (Hx ltac:(lia)).
  assert (0 < 2 ^ e) as Hpe by (apply Z.pow_pos_nonneg; lia).
  assert (2 ^ k = P52 * 2 ^ e) as Hke.
  { unfold P52. rewrite <- Z.pow_add_r by lia. f_equal. lia. }
  assert (2 ^ (k + 1) = P53 * 2 ^ e) as Hke1.
  { rewrite Z.pow_add_r, Hke by lia. change (2 ^ 1) with 2. lia. }
  rewrite Hke in Hr. rewrite Hke1 in Hx.
  assert (k < 1023 → 2 ^ e * 2 <= P971) as Hlow.
  { intros Hk1. unfold P971. rewrite <- (Z.pow_1_r 2) at 2. rewrite <- Z.pow_add_r by lia.
    apply Z.pow_le_mono_r; lia. }
  assert (1023 < k → P971 * 2 <= 2 ^ e) as Hhigh.
  { intros Hk1. unfold P971. rewrite <- (Z.pow_1_r 2) at 2. rewrite <- Z.pow_add_r by lia.
    apply Z.pow_le_mono_r; lia. }
  assert (k = 1023 → 2 ^ e = P971) as Hlast.
  { intros Hk1. unfold P971. f_equal. lia. }
  clearbody P1024 P1023 P971 P53 P52.
  set (m := round_half_even A (b * 2 ^ e)).
  assert (0 < b * 2 ^ e) as Hbe by nia.
  assert (P52 <= m <= P53) as Hm.
  { split.
    - etrans; [|apply round_half_even_lower; done].
      apply Z.div_le_lower_bound; [done|]. lia.
    - apply round_half_even_upper; [done|]. nia. }
  assert (k < 1023 ∨ k = 1023 ∨ 1023 < k) as [Hk1|[Hk1|Hk1]] by lia.
  - (* below the last binade *)
    specialize (Hlow Hk1).
    assert (m * 2 ^ e < P1024) as Hv by nia.
    destruct (P1024 <=? m * 2 ^ e) eqn:Ev; [lia|].
    split; [discriminate|]. intros Hge. exfalso.
    assert (1023 <= k); [|lia]. apply Hl. nia.
  - (* the last binade *)
    specialize (Hlast Hk1).
    destruct (Z.le_gt_cases (T * b) A) as [Hge|Hlt].
    + assert (P53 <= m) as Hm1.
      { apply round_half_even_reaches_even; [done|done|]. nia. }
      destruct (P1024 <=? m * 2 ^ e) eqn:Ev; [done|]. exfalso. nia.
    + assert (m <= P53 - 1) as Hm1.
      { apply round_half_even_upper; [done|]. nia. }
      destruct (P1024 <=? m * 2 ^ e) eqn:Ev; [exfalso; nia|].
      split; [discriminate|lia].
  - (* beyond *)
    specialize (Hhigh Hk1).
    assert (P1024 <= m * 2 ^ e) as Hv by nia.
    destruct (P1024 <=? m * 2 ^ e) eqn:Ev; [|lia].
    split; [intros _|done].
    destruct (Z.le_gt_cases (T * b) A) as [|Hlt]; [done|]. exfalso.
    assert (k < 1024); [|lia]. apply Hu. nia.
Qed.

Lemma true_divide_returns a b :
  0 < b → Z.abs a < float_overflow * b → ∃ x, true_divide a b = Ok x.
Proof.
  intros Hb Ha. pose proof (true_divide_overflow_iff a b Hb) as Hiff.
  unfold true_divide in *. destruct (b =? 0) eqn:Eb; [lia|].
  destruct (a =? 0); [by eexists|].
  destruct (float_parts (Z.abs a) (Z.abs b)) as [m e].
  destruct ((0 <=? e) && (2 ^ 1024 <=? m * 2 ^ e)); [|by eexists].
  apply proj1 in Hiff. specialize (Hiff eq_refl). lia.
Qed.

(** X12: when the rows a query keeps hold null or numbers at a column,
    [count] is their number and [sum] is the total of the numbers; [avg] is
    0 when there is no number, and otherwise the true division of that total
    by how many numbers there are (not by [count]).  So [avg] raises
    [OverflowError] exactly when there are numbers and their total is, in
    magnitude, at least [float_overflow] times how many they are, and
    returns a float otherwise: the exact mean when that is an integer below
    [2 ^ 53] in magnitude. *)
Theorem aggregates_over_numbers (h : Heap) (q : SimpleQuery) (column : string)
  (rows : list loc) :
  SimpleQuery._filtered_rows h q = Ok rows →
  Forall (summable h column) rows →
  SimpleQuery.count h q = Ok (Z.of_nat (length rows)) ∧
  SimpleQuery.sum h q column = Ok (total (numbers_at h column rows)) ∧
  SimpleQuery.avg h q column
  = match numbers_at h column rows with
    | [] => Ok 0%Q
    | ns => true_divide (total ns) (Z.of_nat (length ns))
    end ∧
  (SimpleQuery.avg h q column = Raise OverflowError ↔
   numbers_at h column rows ≠ [] ∧
   float_overflow * Z.of_nat (length (numbers_at h column rows))
   <= Z.abs (total (numbers_at h column rows))) ∧
  (∀ m, numbers_at h column rows ≠ [] →
        total (numbers_at h column rows)
        = m * Z.of_nat (length (numbers_at h column rows)) →
        Z.abs m < 2 ^ 53 →
        SimpleQuery.avg h q column = Ok (inject_Z m)) ∧
  (SimpleQuery.avg h q column = Raise OverflowError ∨
   ∃ x, SimpleQuery.avg h q column = Ok x).
Proof.
  intros Hf F.
  assert (SimpleQuery.avg h q column
          = match numbers_at h column rows with
            | [] => Ok 0%Q
            | ns => true_divide (total ns) (Z.of_nat (length ns))
            end) as Ha.
  { unfold SimpleQuery.avg. rewrite Hf. cbn [rbind].
    destruct (collect_values_summable h column rows [] F) as (values & -> & Fv & E);
      [constructor|].
    cbn [rbind]. change (omap as_int values = numbers_at h column rows) in E.
    assert (length values = length (omap as_int values)) as Hlen.
    { clear E. induction Fv as [|x l [n Hn] _ IH]; cbn; [done|].
      rewrite Hn. cbn. by rewrite IH. }
    rewrite <- E. destruct values as [|x values]; [done|].
    rewrite (builtin_sum_ints _ 0 Fv). cbn [rbind]. rewrite Hlen.
    destruct (omap as_int (x :: values)) as [|n ns] eqn:En; [discriminate|].
    reflexivity. }
  unfold SimpleQuery.count, SimpleQuery.sum. rewrite Hf. cbn [rbind].
  split; [done|]. split; [by rewrite (sum_loop_summable _ _ _ 0 F)|].
  split; [exact Ha|]. rewrite Ha.
  destruct (numbers_at h column rows) as [|n ns] eqn:En.
  - split; [|split; [by intros m []|right; by eexists]].
    split; [discriminate|]. by intros [[] _].
  - assert (0 < Z.of_nat (length (n :: ns))) as Hpos by (cbn [length]; lia).
    cbv zeta. split; [|split].
    + rewrite (true_divide_overflow_iff _ _ Hpos). split; [done|]. by intros [_ H].
    + intros m _ Hm Hb. rewrite Hm. by apply true_divide_exact.
    + destruct (Z.le_gt_cases (float_overflow * Z.of_nat (length (n :: ns)))
                  (Z.abs (total (n :: ns)))) as [Hge|Hlt].
      * left. by apply true_divide_overflow_iff.
      * right. by apply true_divide_returns.
Qed.

Lemma aggregates_over_numbers_witness :
  SimpleQuery.count scores_heap (by_score true) = Ok 4 ∧
  SimpleQuery.sum scores_heap (by_score true) "score" = Ok 5 ∧
  SimpleQuery.avg scores_heap (by_score true) "score"
  = Ok (7505999378950827 # 4503599627370496)%Q.
Proof.
  destruct (aggregates_over_numbers scores_heap (by_score true) "score" [2; 1; 3; 0]%nat)
    as (Hc & Hs & Ha & _).
  - vm_compute. reflexivity.
  - repeat constructor; eexists; (split; [vm_compute; reflexivity|]); cbn; eauto.
  - split; [exact Hc|]. split; [exact Hs|]. rewrite Ha. vm_compute. reflexivity.
Defined.

(** A score beyond the range of floats can be summed but not averaged. *)
Example avg_of_huge_score_overflows :
  SimpleQuery.sum huge_score_heap (by_score true) "score" = Ok (10 ^ 400) ∧
  SimpleQuery.avg huge_score_heap (by_score true) "score" = Raise OverflowError.
Proof. split; vm_compute; reflexivity. Qed.

(** ** Sorted output *)

Lemma key_lt_numeric a b :
  numeric_key a → numeric_key b →
  key_lt a b = Ok (rank_ltb (key_rank a) (key_rank b)).
Proof.
  destruct a as [fa va], b as [fb vb]. unfold numeric_key, key_lt, key_rank; cbn.
  intros [-> Ha] [-> Hb].
  destruct Ha as [->|[m Hm]], Hb as [->|[n Hn]]; cbn.
  - done.
  - destruct vb; cbn in *; try done.
  - destruct va; cbn in *; try done.
  - destruct (is_none va) eqn:Ea; [apply is_none_true in Ea as ->; discriminate|].
    destruct (is_none vb) eqn:Eb; [apply is_none_true in Eb as ->; discriminate|].
    cbn. rewrite Hm, Hn. rewrite (py_eq_ints _ _ _ _ Hm Hn).
    unfold py_lt, py_order. rewrite (py_compare_ints _ _ _ _ Hm Hn).
    cbn. destruct (Z.eqb_spec m n) as [->|Hne]; cbn.
    + by rewrite Z.ltb_irrefl.
    + unfold Z.ltb. by destruct (m ?= n).
Qed.

Lemma rank_ltb_asym a b : rank_ltb a b = true → rank_ltb b a = false.
Proof. destruct a, b; cbn; try done. intros. lia. Qed.

Lemma rank_ltb_trans_le a b c :
  rank_ltb b a = false → rank_ltb c b = false → rank_ltb c a = false.
Proof. destruct a, b, c; cbn; try done. intros. lia. Qed.

Section sorted_by_key.
Context {A : Type}.
Implicit Types (x y : sort_key * A) (l r : list (sort_key * A)).

Lemma sort_insert_key_le x l : ∀ r,
  numeric_key (fst x) → Forall (fun y => numeric_key (fst y)) l →
  StronglySorted key_le l → sort_insert x l = Ok r → StronglySorted key_le r.
Proof.
  induction l as [|y l IH]; intros r Nx Nl S; cbn.
  - intros [= <-]. repeat constructor.
  - apply Forall_cons in Nl as [Ny Nl].
    apply StronglySorted_inv in S as [S Hy].
    destruct (key_lt (fst y) (fst x)) as [[]|] eqn:E; cbn; [| |done].
    + destruct (sort_insert x l) as [r'|] eqn:Er; cbn; [|done].
      intros [= <-]. constructor; [by apply IH|].
      rewrite (sort_insert_perm _ _ _ Er). constructor; [|done].
      unfold key_le. rewrite key_lt_numeric in * by done.
      injection E as E. f_equal. by apply rank_ltb_asym.
    + intros [= <-]. constructor; [by constructor|]. constructor; [done|].
      rewrite Forall_forall in *. intros z Hz. specialize (Hy z Hz).
      specialize (Nl z Hz). unfold key_le in *.
      rewrite key_lt_numeric in * by done.
      injection E as E. injection Hy as Hy. f_equal.
      by eapply rank_ltb_trans_le.
Qed.

Lemma stable_sort_key_le l : ∀ r,
  Forall (fun y => numeric_key (fst y)) l →
  stable_sort l = Ok r → StronglySorted key_le r.
Proof.
  induction l as [|x l IH]; intros r Nl; cbn.
  - intros [= <-]. constructor.
  - apply Forall_cons in Nl as [Nx Nl].
    destruct (stable_sort l) as [s|] eqn:Es; cbn; [|done].
    apply sort_insert_key_le; [done| |by apply IH].
    by rewrite (stable_sort_perm _ _ Es).
Qed.

Lemma list_sort_key_le reverse l r :
  Forall (fun y => numeric_key (fst y)) l →
  list_sort reverse l = Ok r →
  if reverse then StronglySorted (flip key_le) r else StronglySorted key_le r.
Proof.
  intros Nl. unfold list_sort. destruct reverse.
  - destruct (stable_sort (rev l)) as [s|] eqn:E; cbn; [|done].
    intros [= <-]. apply StronglySorted_rev. eapply stable_sort_key_le; [|done].
    rewrite Forall_forall in *. intros y Hy. apply Nl. by apply elem_of_rev.
  - by apply stable_sort_key_le.
Qed.

End sorted_by_key.

Lemma keyed_row_numeric h column r :
  summable h column r → numeric_key (fst (keyed_row h column r)).
Proof.
  intros (x & Hx & Hk). unfold keyed_row, numeric_key, cell. rewrite Hx. cbn. done.
Qed.

Lemma key_le_value_le h column r r' :
  summable h column r → summable h column r' →
  key_le (keyed_row h column r) (keyed_row h column r') → value_le h column r r'.
Proof.
  intros (x & Hx & Hk) (x' & Hx' & Hk'). unfold key_le.
  rewrite key_lt_numeric by (apply keyed_row_numeric; eexists; eauto).
  unfold value_le, keyed_row, key_rank, cell. rewrite Hx, Hx'. cbn.
  intros [= H].
  destruct Hk' as [->|[n Hn]]; [by left|].
  right. rewrite Hn in *.
  destruct (is_none x') eqn:E'; [apply is_none_true in E' as ->; discriminate|].
  destruct Hk as [->|[m Hm]]; [cbn in H; done|].
  rewrite Hm in *.
  destruct (is_none x) eqn:E; [apply is_none_true in E as ->; discriminate|].
  cbn in H. exists m, n. split; [done|]. split; [done|lia].
Qed.

Lemma keyed_sorted_rows h column (R : relation (sort_key * loc)) (R' : relation loc) :
  (∀ r r', summable h column r → summable h column r' →
           R (keyed_row h column r) (keyed_row h column r') → R' r r') →
  ∀ rows, Forall (summable h column) rows →
          StronglySorted R (map (keyed_row h column) rows) → StronglySorted R' rows.
Proof.
  intros HR. induction rows as [|r rows IH]; intros F S; [constructor|].
  apply Forall_cons in F as [Hr F]. cbn in S.
  apply StronglySorted_inv in S as [S Hy]. constructor; [by apply IH|].
  rewrite Forall_forall in Hy. rewrite Forall_forall in F.
  apply Forall_forall. intros r' Hr'. apply HR; [done|by apply F|].
  apply Hy, list_elem_of_In, in_map. by apply list_elem_of_In.
Qed.

(** X13: with a sort key on a column at which the kept rows hold null or
    numbers, [_filtered_rows] returns the kept rows rearranged so that,
    ascending, no row holds a larger number than a row after it and the
    nulls come last; descending, the same read from the end. *)
Theorem order_by_sorts_numbers (h : Heap) (q : SimpleQuery) (column : string)
  (filtered : list loc) :
  q_sort_column q = Some column →
  SimpleQuery.filter_rows h q (source_iter h (q_table q)) = Ok filtered →
  Forall (summable h column) filtered →
  ∃ out,
    SimpleQuery._filtered_rows h q = Ok out ∧
    out ≡ₚ filtered ∧
    if q_sort_ascending q then StronglySorted (value_le h column) out
    else StronglySorted (flip (value_le h column)) out.
Proof.
  intros Hcol Hf F. unfold SimpleQuery._filtered_rows. rewrite Hf, Hcol. cbn [rbind].
  rewrite decorate_total.
  2:{ intros r Hr. rewrite Forall_forall in F. destruct (F r Hr) as (x & -> & _). eauto. }
  cbn [rbind].
  assert (Forall (fun y => numeric_key (fst y)) (map (keyed_row h column) filtered)) as N.
  { pose proof (proj1 (Forall_forall _ _) F) as F'.
    apply Forall_forall. intros y Hy.
    apply list_elem_of_In, in_map_iff in Hy as (r & <- & Hr).
    apply keyed_row_numeric, F'. by apply list_elem_of_In. }
  destruct (list_sort_total (negb (q_sort_ascending q))
              (map (keyed_row h column) filtered)) as [sorted E].
  { intros x y Hx Hy. pose proof (proj1 (Forall_forall _ _) N) as N'.
    rewrite key_lt_numeric by (by apply N'). done. }
  rewrite E. cbn [rbind]. exists (map snd sorted). split; [done|].
  pose proof (list_sort_perm _ _ _ E) as P.
  pose proof (keyed_of_perm _ _ _ _ P) as K.
  assert (map snd sorted ≡ₚ filtered) as Pout.
  { rewrite P. by rewrite map_snd_keyed. }
  split; [done|].
  assert (Forall (summable h column) (map snd sorted)) as Fout by (by rewrite Pout).
  pose proof (list_sort_key_le _ _ _ N E) as S. rewrite K in S.
  destruct (q_sort_ascending q); cbn [negb] in S.
  - eapply keyed_sorted_rows; [|exact Fout|exact S]. apply key_le_value_le.
  - eapply keyed_sorted_rows; [|exact Fout|exact S].
    intros r r' Hr Hr'. unfold flip. by apply key_le_value_le.
Qed.

Lemma order_by_sorts_numbers_witness :
  ∃ out,
    SimpleQuery._filtered_rows scores_heap (by_score false) = Ok out ∧
    out ≡ₚ [0; 1; 2; 3]%nat ∧
    StronglySorted (flip (value_le scores_heap "score")) out.
Proof.
  apply (order_by_sorts_numbers scores_heap (by_score false) "score" [0; 1; 2; 3]%nat).
  - reflexivity.
  - vm_compute. reflexivity.
  - repeat constructor; eexists; (split; [vm_compute; reflexivity|]); cbn; eauto.
Defined.

(** ** Selected columns *)

Lemma project_lookup h columns r k :
  SimpleQuery.project h columns r !! k
  = if decide (k ∈ columns) then row_data (row_at h r) !! k else None.
Proof.
  unfold SimpleQuery.project. induction columns as [|c columns IH] using rev_ind.
  - cbn. by rewrite lookup_empty.
  - rewrite foldl_app. cbn [foldl].
    destruct (decide (k = c)) as [->|Hne].
    + rewrite (decide_True (P := c ∈ (columns ++ [c])%list))
        by (apply elem_of_app; right; apply list_elem_of_here).
      destruct (row_data (row_at h r) !! c) as [v|] eqn:E.
      * by rewrite lookup_insert_eq.
      * rewrite IH. by destruct (decide (c ∈ columns)).
    + assert ((if decide (k ∈ (columns ++ [c])%list) then row_data (row_at h r) !! k else None)
              = (if decide (k ∈ columns) then row_data (row_at h r) !! k else None)) as ->.
      { destruct (decide (k ∈ columns)) as [Hin|Hout].
        - rewrite decide_True; [done|]. apply elem_of_app. by left.
        - rewrite decide_False; [done|]. rewrite elem_of_app, list_elem_of_singleton.
          intros [?|?]; done. }
      destruct (row_data (row_at h r) !! c) as [v|]; [|exact IH].
      by rewrite lookup_insert_ne.
Qed.

Lemma extends_project h0 h columns r :
  extends h0 h → r ∈ dom (row_objs h0) →
  SimpleQuery.project h columns r = SimpleQuery.project h0 columns r.
Proof.
  intros (_ & _ & Hr) Hin. unfold SimpleQuery.project.
  by destruct (Hr r Hin) as [_ ->].
Qed.

Lemma projected_row_extends h0 h h' columns new r :
  extends h h' → projected_row h0 h columns new r → projected_row h0 h' columns new r.
Proof.
  intros (_ & _ & Hr) (Hin & Hout & Hrow). destruct (Hr new Hin) as [Hin' E].
  split; [done|]. split; [done|]. by rewrite E.
Qed.

Lemma project_rows_spec columns h0 : ∀ rows h,
  extends h0 h →
  Forall (fun r => r ∈ dom (row_objs h0)) rows →
  ∃ h' out,
    SimpleQuery.project_rows columns rows h = (h', Ok out) ∧
    extends h h' ∧
    Forall2 (projected_row h0 h' columns) out rows.
Proof.
  induction rows as [|r rows IH]; intros h Hext Halloc.
  - exists h, []. split; [done|]. split; [apply extends_refl|constructor].
  - apply Forall_cons in Halloc as [Hr Halloc].
    cbn [SimpleQuery.project_rows]. unfold bind at 1 2, get_heap, Row.init, new_row.
    destruct (extends_new_row h (mkRow (SimpleQuery.project h columns r) None))
      as (Hext1 & Hin1 & Hrow1).
    set (new := fresh (dom (row_objs h))) in *.
    set (h1 := set_row new _ h) in *.
    destruct (IH h1 (extends_trans _ _ _ Hext Hext1) Halloc) as (h' & out & E & Hext' & Hout).
    unfold bind. rewrite E. cbn [ret]. exists h', (new :: out).
    split; [done|]. split; [by eapply extends_trans|].
    constructor; [|done]. apply (projected_row_extends _ h1); [done|].
    split; [done|]. split.
    + intros Hin0. apply (fresh_row_not_allocated h). fold new.
      destruct Hext as (_ & _ & Hdom). by apply Hdom.
    + rewrite Hrow1. by rewrite (extends_project _ _ _ _ Hext Hr).
Qed.

(** X14: without a selection, or with an empty one, [execute] returns the
    kept Row objects themselves and changes nothing.  With a selection it
    returns, in the same order, one new Row object per kept Row, without id,
    holding the selected columns that Row has and no others; the Rows of
    the source are left as they were. *)
Theorem execute_projects_into_new_rows (h : Heap) (q : SimpleQuery) (rows : list loc) :
  SimpleQuery._filtered_rows h q = Ok rows →
  Forall (fun r => r ∈ dom (row_objs h)) rows →
  (q_selected_columns q = None ∨ q_selected_columns q = Some [] →
   SimpleQuery.execute q h = (h, Ok rows)) ∧
  (∀ c cs,
     q_selected_columns q = Some (c :: cs) →
     ∃ h' out,
       SimpleQuery.execute q h = (h', Ok out) ∧
       extends h h' ∧
       Forall2 (fun new r =>
                  (new ∉ dom (row_objs h)) ∧
                  row_id (row_at h' new) = None ∧
                  ∀ k, row_data (row_at h' new) !! k
                       = if decide (k ∈ c :: cs) then row_data (row_at h r) !! k
                         else None)
         out rows).
Proof.
  intros Hf Halloc. unfold SimpleQuery.execute, bind, get_heap, lift. rewrite Hf.
  split.
  - by intros [->| ->].
  - intros c cs ->.
    destruct (project_rows_spec (c :: cs) h rows h (extends_refl h) Halloc)
      as (h' & out & E & Hext & Hout).
    exists h', out. split; [done|]. split; [done|].
    eapply Forall2_impl; [exact Hout|]. intros new r (_ & Hnew & Hrow).
    split; [done|]. rewrite Hrow. split; [done|]. intros k. apply project_lookup.
Qed.

Lemma execute_projects_into_new_rows_witness :
  SimpleQuery.execute (value_above_10 (FromTable numbers_table)) numbers_heap3
  = (numbers_heap3, Ok [1; 2]%nat) ∧
  ∃ h' out,
    SimpleQuery.execute
      (SimpleQuery.select (value_above_10 (FromTable numbers_table)) ["value"; "note"])
      numbers_heap3 = (h', Ok out) ∧
    extends numbers_heap3 h' ∧
    Forall2 (fun new r =>
               (new ∉ dom (row_objs numbers_heap3)) ∧
               row_id (row_at h' new) = None ∧
               ∀ k, row_data (row_at h' new) !! k
                    = if decide (k ∈ ["value"; "note"])
                      then row_data (row_at numbers_heap3 r) !! k else None)
      out [1; 2]%nat.
Proof.
  assert (Forall (fun r => r ∈ dom (row_objs numbers_heap3)) [1; 2]%nat) as Halloc.
  { repeat constructor; apply elem_of_dom; vm_compute; eauto. }
  split.
  - apply (proj1 (execute_projects_into_new_rows numbers_heap3
                    (value_above_10 (FromTable numbers_table)) [1; 2]%nat
                    ltac:(vm_compute; reflexivity) Halloc)).
    by left.
  - apply (proj2 (execute_projects_into_new_rows numbers_heap3
                    (SimpleQuery.select (value_above_10 (FromTable numbers_table))
                       ["value"; "note"]) [1; 2]%nat
                    ltac:(vm_compute; reflexivity) Halloc) "value" ["note"]).
    reflexivity.
Defined.

(** ** Joins at the edges *)

Lemma outer_loop_empty_right self h : ∀ left_rows acc,
  Table.iter h (j_right self) = [] →
  JoinedTable.outer_loop self left_rows acc h = (h, Ok acc).
Proof.
  intros left_rows acc Hr. revert acc.
  induction left_rows as [|l rest IH]; intros acc; [done|].
  rewrite outer_loop_cons, Hr. cbn [JoinedTable.inner_loop ret]. apply IH.
Qed.

(** X15: a join whose left or right Table has no Rows is empty and raises
    nothing, whatever the Rows of the other side hold; once both sides have
    Rows, a first left Row without the left column, or a first right Row
    without the right column, makes the join raise [KeyError] before any
    Row is built. *)
Theorem join_needs_columns_only_when_compared (h : Heap) (self : JoinedTable) :
  (Table.iter h (j_left self) = [] ∨ Table.iter h (j_right self) = [] →
   JoinedTable._build_rows self h = (h, Ok [])) ∧
  (∀ l left_rows r right_rows,
     Table.iter h (j_left self) = l :: left_rows →
     Table.iter h (j_right self) = r :: right_rows →
     (row_data (row_at h l) !! j_left_column self = None →
      JoinedTable._build_rows self h
      = (h, Raise (KeyError (MissingKey (j_left_column self))))) ∧
     (is_Some (row_data (row_at h l) !! j_left_column self) →
      row_data (row_at h r) !! j_right_column self = None →
      JoinedTable._build_rows self h
      = (h, Raise (KeyError (MissingKey (j_right_column self)))))).
Proof.
  unfold JoinedTable._build_rows, bind, get_heap. split.
  - intros [Hl|Hr].
    + by rewrite Hl.
    + by apply outer_loop_empty_right.
  - intros l left_rows r right_rows Hl Hr. rewrite Hl, outer_loop_cons, Hr, inner_loop_cons.
    split.
    + intros Habs. by rewrite (getitem_absent _ _ _ Habs).
    + intros [x Hx] Habs. unfold Row.getitem at 1. rewrite Hx.
      by rewrite (getitem_absent _ _ _ Habs).
Qed.

Lemma join_needs_columns_only_when_compared_witness :
  JoinedTable._build_rows (mkJoined sparse_table 1%nat "b" "id" "j" [])
    (fst (Table.init "numbers" numbers_columns sparse_heap))
  = (fst (Table.init "numbers" numbers_columns sparse_heap), Ok []) ∧
  JoinedTable._build_rows (mkJoined sparse_table sparse_table "b" "a" "j" []) sparse_heap
  = (sparse_heap, Raise (KeyError (MissingKey "b"))).
Proof.
  split.
  - apply (proj1 (join_needs_columns_only_when_compared _ _)).
    right. vm_compute. reflexivity.
  - apply (proj1 (proj2 (join_needs_columns_only_when_compared sparse_heap
                           (mkJoined sparse_table sparse_table "b" "a" "j" []))
                    0%nat [1%nat] 0%nat [1%nat]
                    ltac:(vm_compute; reflexivity) ltac:(vm_compute; reflexivity))).
    vm_compute. reflexivity.
Defined.

(** ** The Database *)

(** X16: there is one Database: constructing it a second time, under
    whatever name, returns the same object and changes nothing, name
    included; the first construction makes it with the name given and no
    Tables. *)
Theorem database_is_a_singleton (h : Heap) (name1 name2 : string) :
  ∃ h1 db,
    Database.construct name1 h = (h1, Ok db) ∧
    Database_instance h1 = Some db ∧
    Database.construct name2 h1 = (h1, Ok db) ∧
    (Database_instance h = None → db_at h1 db = mkDatabase name1 ∅) ∧
    (∀ d, Database_instance h = Some d → h1 = h ∧ db = d).
Proof.
  unfold Database.construct, bind, get_heap.
  destruct (Database_instance h) as [d|] eqn:E.
  - exists h, d. cbn [ret]. rewrite E.
    split; [done|]. split; [done|]. split; [done|]. split; [done|].
    by intros d' [= ->].
  - eexists _, _. cbn [new_db modify_heap ret set_instance Database_instance].
    split; [reflexivity|]. split; [reflexivity|]. split; [reflexivity|].
    split; [|done]. intros _. unfold db_at, set_instance, set_db. cbn [db_objs].
    by rewrite lookup_total_insert_eq.
Qed.




Lemma column_of_def_known d :
  known_type (cd_type d) = true →
  Database.column_of_def d = Ok (described_column d).
Proof.
  unfold known_type, Database.column_of_def, described_column, type_of_tag.
  destruct (String.eqb (cd_type d) "int"); [done|].
  destruct (String.eqb (cd_type d) "string"); [done|].
  destruct (String.eqb (cd_type d) "bool"); [done|].
  destruct (String.eqb (cd_type d) "date"); [done|]. done.
Qed.

Lemma column_of_def_unknown d :
  known_type (cd_type d) = false →
  Database.column_of_def d = Raise (ValueError (UnknownType (cd_type d))).
Proof.
  unfold known_type, Database.column_of_def.
  destruct (String.eqb (cd_type d) "int"); [done|].
  destruct (String.eqb (cd_type d) "string"); [done|].
  destruct (String.eqb (cd_type d) "bool"); [done|].
  destruct (String.eqb (cd_type d) "date"); [done|]. done.
Qed.

Lemma columns_of_defs_known schema :
  Forall (fun d => known_type (cd_type d) = true) schema →
  Database.columns_of_defs schema = Ok (map described_column schema).
Proof.
  induction 1 as [|d schema Hd _ IH]; cbn; [done|].
  by rewrite (column_of_def_known _ Hd), IH.
Qed.

Lemma columns_of_defs_unknown d post : ∀ pre,
  Forall (fun d => known_type (cd_type d) = true) pre →
  known_type (cd_type d) = false →
  Database.columns_of_defs (pre ++ d :: post)
  = Raise (ValueError (UnknownType (cd_type d))).
Proof.
  induction pre as [|d0 pre IH]; intros F Hd; cbn.
  - by rewrite (column_of_def_unknown _ Hd).
  - apply Forall_cons in F as [Hd0 F].
    rewrite (column_of_def_known _ Hd0). cbn. by rewrite IH.
Qed.

(** X18: the factory reads a schema of known type tags as the list of
    Columns it describes (absent [nullable] true, absent [primary_key]
    false, [max_length] for strings only) and does with it what
    [create_table] does; at the first descriptor with any other tag it
    raises the unknown-type error and changes nothing, before it looks at
    the name or at any foreign key. *)
Theorem factory_translates_or_rejects (h : Heap) (self : loc) (name : string)
  (schema : list ColumnDef) :
  (Forall (fun d => known_type (cd_type d) = true) schema →
   Database.create_table_with_factory self name schema h
   = Database.create_table self name (map described_column schema) h) ∧
  (∀ pre d post,
     schema = (pre ++ d :: post)%list →
     Forall (fun d => known_type (cd_type d) = true) pre →
     known_type (cd_type d) = false →
     Database.create_table_with_factory self name schema h
     = (h, Raise (ValueError (UnknownType (cd_type d))))).
Proof.
  unfold Database.create_table_with_factory, bind, lift. split.
  - intros F. by rewrite (columns_of_defs_known _ F).
  - intros pre d post -> F Hd. by rewrite (columns_of_defs_unknown _ _ _ F Hd).
Qed.

Lemma factory_translates_or_rejects_witness :
  Database.create_table_with_factory the_db "orders" orders_schema users_db_heap
  = Database.create_table the_db "orders" orders_columns users_db_heap ∧
  Database.create_table_with_factory the_db "users"
    [mkColumnDef "id" "int" None None None None;
     mkColumnDef "when" "datetime" None None None None] users_db_heap
  = (users_db_heap, Raise (ValueError (UnknownType "datetime"))).
Proof.
  split.
  - apply (proj1 (factory_translates_or_rejects users_db_heap the_db "orders" orders_schema)).
    repeat constructor.
  - apply (proj2 (factory_translates_or_rejects users_db_heap the_db "users" _)
             [mkColumnDef "id" "int" None None None None]
             (mkColumnDef "when" "datetime" None None None None) []).
    + reflexivity.
    + repeat constructor.
    + reflexivity.
Defined.

(** ** Validation errors *)

Lemma check_columns_first_rejected (d : fields) k c post : ∀ pre,
  Forall (fun kc => Column.validate (snd kc) (default VNone (d !! fst kc)) = true) pre →
  Column.validate c (default VNone (d !! k)) = false →
  Table.check_columns (pre ++ (k, c) :: post)%list d
  = Raise (ValueError (InvalidValue k (default VNone (d !! k)))).
Proof.
  induction pre as [|[k0 c0] pre IH]; intros F Hc; cbn.
  - by rewrite Hc.
  - apply Forall_cons in F as [H0 F]. cbn in H0. rewrite H0. by apply IH.
Qed.

(** X19: validation goes through the columns in schema order and stops at
    the first one that rejects: an insert, or an update of a stored Row,
    raises the error that names that column and the offending value (null
    when the dict has no such key), and changes nothing. *)
Theorem first_rejected_column_is_reported (h : Heap) (self : loc)
  (pre : odict Column) (k : string) (c : Column) (post : odict Column) :
  tbl_columns (table_at h self) = (pre ++ (k, c) :: post)%list →
  (∀ d,
     Forall (fun kc => Column.validate (snd kc) (default VNone (d !! fst kc)) = true) pre →
     Column.validate c (default VNone (d !! k)) = false →
     Table.insert self d h
     = (h, Raise (ValueError (InvalidValue k (default VNone (d !! k)))))) ∧
  (∀ i row new_data,
     Table.scan_by_id h (Table.iter h self) i = Some row →
     let d := new_data ∪ row_data (row_at h row) in
     Forall (fun kc => Column.validate (snd kc) (default VNone (d !! fst kc)) = true) pre →
     Column.validate c (default VNone (d !! k)) = false →
     Table.update self i new_data h
     = (h, Raise (ValueError (InvalidValue k (default VNone (d !! k)))))).
Proof.
  intros Hcols. split.
  - intros d F Hc. apply insert_Raise. rewrite Hcols.
    by apply check_columns_first_rejected.
  - intros i row new_data Hscan d F Hc. eapply update_Raise; [done|].
    rewrite Hcols. by apply check_columns_first_rejected.
Qed.

Lemma first_rejected_column_is_reported_witness :
  Table.insert numbers_table (<["id" := VInt 4]> ∅) numbers_heap3
  = (numbers_heap3, Raise (ValueError (InvalidValue "value" VNone))) ∧
  Table.update numbers_table 2 (<["value" := VStr "x"]> ∅) numbers_heap3
  = (numbers_heap3, Raise (ValueError (InvalidValue "value" (VStr "x")))).
Proof.
  destruct (first_rejected_column_is_reported numbers_heap3 numbers_table
              [("id", mkColumn "id" IntegerType false true None)]
              "value" (mkColumn "value" IntegerType false false None) [])
    as [Hins Hupd]; [vm_compute; reflexivity|].
  split.
  - refine (Hins (<["id" := VInt 4]> ∅) _ _); [|vm_compute; reflexivity].
    repeat constructor.
  - refine (Hupd 2 1%nat (<["value" := VStr "x"]> ∅) _ _ _).
    + vm_compute. reflexivity.
    + repeat constructor.
    + vm_compute. reflexivity.
Defined.
